(** * Unix V4 filesystem simulation: inode table, directory entries, namei

    A shallow embedding of the filesystem module of unix-v4-web (the classes
    [Inode], [DirectoryEntry] and [UnixFilesystem]) and the properties of its
    path resolution, its read/write facade and its construction helpers;
    then of the game logic of moo ([score], [isValidGuess]) and of ttt (the
    board code, the winner test, the computer's move and the weights).

    Conventions of the embedding.
    - A JavaScript number that holds an integer is a [Z]; the bitwise
      operators [&] and [|] work on the 32-bit two's complement image of
      their operands, written out in [to_int32].
    - A JavaScript string is a [string]; [length], [substring] and [split]
      work on its code units.
    - The [Map] [inodes] is a [gmap Z Inode].  Every [Inode] object of the
      program is created by [_allocInode], which stores it under its own
      number, so an object reference is modelled by the key under which the
      object is stored ([Obj k]); mutating a field of the object is [alter]
      at that key, which every holder of the reference observes.
    - [Date.now()] reads an ambient clock: the n-th reading made by the
      program is [Date_now n], and the machine state counts the readings.
    - A thrown exception leaves the mutations made before it in place, so a
      stateful method maps a machine state to a result-or-exception together
      with the state it leaves behind. *)

From stdpp Require Import gmap strings list fin_maps.
From Stdlib Require Import ZArith Lia Ascii String.

Open Scope Z_scope.
Open Scope string_scope.

(** ** JavaScript values and exceptions *)

Inductive JsError := TypeError.

Inductive Res (A : Type) : Type :=
  | Ok (a : A)
  | Throw (e : JsError).
Arguments Ok {A} a.
Arguments Throw {A} e.

#[global] Instance Res_ret : MRet Res := fun A a => Ok a.
#[global] Instance Res_bind : MBind Res := fun A B f m =>
  match m with
  | Ok a => f a
  | Throw e => Throw e
  end.
#[global] Instance Res_fmap : FMap Res := fun A B f m =>
  match m with
  | Ok a => Ok (f a)
  | Throw e => Throw e
  end.

(** A value that is either [null], [undefined] or a reference to an [Inode]
    object. *)
Inductive JsRef :=
  | Null
  | Undefined
  | Obj (k : Z).

#[global] Instance JsRef_eq_dec : EqDecision JsRef.
Proof. solve_decision. Defined.

(** [!v] for such a value. *)
Definition falsy (v : JsRef) : bool :=
  match v with
  | Obj _ => false
  | _ => true
  end.

(** The argument of [namei]: callers pass a string, [null] or nothing. *)
Inductive PathArg :=
  | PNull
  | PUndefined
  | PStr (s : string).

(** ** Mode bits *)

Definition to_int32 (z : Z) : Z := (z + 2 ^ 31) mod 2 ^ 32 - 2 ^ 31.
Definition js_and (a b : Z) : Z := Z.land (to_int32 a) (to_int32 b).
Definition js_or (a b : Z) : Z := Z.lor (to_int32 a) (to_int32 b).

(* The source writes these constants in octal. *)
Definition IALLOC : Z := 32768.  (* 0o100000: inode is allocated *)
Definition IFMT   : Z := 24576.  (* 0o60000: type mask *)
Definition IFDIR  : Z := 16384.  (* 0o40000: directory *)
Definition IFCHR  : Z := 8192.   (* 0o20000: character device *)
Definition IFBLK  : Z := 24576.  (* 0o60000: block device *)
Definition IREAD  : Z := 256.    (* 0o400 *)
Definition IWRITE : Z := 128.    (* 0o200 *)
Definition IEXEC  : Z := 64.     (* 0o100 *)

Definition mode_755 : Z := 493.  (* 0o755 *)
Definition mode_666 : Z := 438.  (* 0o666 *)
Definition mode_644 : Z := 420.  (* 0o644 *)
Definition mode_640 : Z := 416.  (* 0o640 *)

(** ** Inodes and directory entries *)

Record DirectoryEntry := mkDirectoryEntry {
  inum : Z;
  name : string;
}.

(** [new DirectoryEntry(inum, name)]: the name is cut to 14 code units. *)
Definition new_DirectoryEntry (i : Z) (nm : string) : DirectoryEntry :=
  {| inum := i; name := String.substring 0 14 nm |}.

Record Inode := mkInode {
  i_number : Z;
  i_mode : Z;
  i_nlink : Z;
  i_uid : Z;
  i_gid : Z;
  i_size : Z;
  i_atime : Z;
  i_mtime : Z;
  i_data : option string;                   (* [None] is null *)
  i_entries : option (list DirectoryEntry); (* [None] is null *)
}.

Definition isDirectory (ino : Inode) : bool := Z.eqb (js_and (i_mode ino) IFMT) IFDIR.
Definition isRegular (ino : Inode) : bool := Z.eqb (js_and (i_mode ino) IFMT) 0.
Definition isCharDevice (ino : Inode) : bool := Z.eqb (js_and (i_mode ino) IFMT) IFCHR.
Definition isExecutable (ino : Inode) : bool := negb (Z.eqb (js_and (i_mode ino) IEXEC) 0).

Definition set_i_entries (es : list DirectoryEntry) (ino : Inode) : Inode :=
  {| i_number := i_number ino; i_mode := i_mode ino; i_nlink := i_nlink ino;
     i_uid := i_uid ino; i_gid := i_gid ino; i_size := i_size ino;
     i_atime := i_atime ino; i_mtime := i_mtime ino;
     i_data := i_data ino; i_entries := Some es |}.

Definition set_i_data (d : string) (ino : Inode) : Inode :=
  {| i_number := i_number ino; i_mode := i_mode ino; i_nlink := i_nlink ino;
     i_uid := i_uid ino; i_gid := i_gid ino; i_size := i_size ino;
     i_atime := i_atime ino; i_mtime := i_mtime ino;
     i_data := Some d; i_entries := i_entries ino |}.

Definition set_i_size (n : Z) (ino : Inode) : Inode :=
  {| i_number := i_number ino; i_mode := i_mode ino; i_nlink := i_nlink ino;
     i_uid := i_uid ino; i_gid := i_gid ino; i_size := n;
     i_atime := i_atime ino; i_mtime := i_mtime ino;
     i_data := i_data ino; i_entries := i_entries ino |}.

Definition set_i_mtime (t : Z) (ino : Inode) : Inode :=
  {| i_number := i_number ino; i_mode := i_mode ino; i_nlink := i_nlink ino;
     i_uid := i_uid ino; i_gid := i_gid ino; i_size := i_size ino;
     i_atime := i_atime ino; i_mtime := t;
     i_data := i_data ino; i_entries := i_entries ino |}.

(** ** The filesystem object *)

Record UnixFilesystem := mkFs {
  inodes : gmap Z Inode;
  nextInum : Z;
  rootInum : Z;
}.

(** [this.inodes.get(k)]: the stored object, or [undefined]. *)
Definition inodes_get (fs : UnixFilesystem) (k : Z) : JsRef :=
  match inodes fs !! k with
  | Some _ => Obj k
  | None => Undefined
  end.

(** Reading a property through a value: [null] and [undefined] have none. *)
Definition deref (fs : UnixFilesystem) (v : JsRef) : Res Inode :=
  match v with
  | Obj k =>
      match inodes fs !! k with
      | Some ino => Ok ino
      | None => Throw TypeError
      end
  | _ => Throw TypeError
  end.

(** The body of the [for ... of] in [_lookup]: the first entry whose name is
    [nm] ends the loop. *)
Fixpoint lookup_loop (fs : UnixFilesystem) (es : list DirectoryEntry) (nm : string) : JsRef :=
  match es with
  | [] => Null
  | entry :: rest =>
      if String.eqb (name entry) nm then inodes_get fs (inum entry)
      else lookup_loop fs rest nm
  end.

Definition _lookup (fs : UnixFilesystem) (dir : JsRef) (nm : string) : Res JsRef :=
  d ← deref fs dir;
  if negb (isDirectory d) then Ok Null
  else match i_entries d with
       | None => Throw TypeError          (* iterating over null *)
       | Some es => Ok (lookup_loop fs es nm)
       end.

(** [path.split('/')]: the pieces between the slashes, empty ones included. *)
Fixpoint split_slash (s : string) : list string :=
  match s with
  | EmptyString => [EmptyString]
  | String c s' =>
      if Ascii.eqb c "/" then EmptyString :: split_slash s'
      else match split_slash s' with
           | seg :: rest => String c seg :: rest
           | [] => [String c EmptyString]
           end
  end.

(** [path.split('/').filter(p => p !== '')]. *)
Definition path_parts (path : string) : list string :=
  List.filter (fun p => negb (String.eqb p "")) (split_slash path).

(** The [for (const part of parts)] loop of [namei]. *)
Fixpoint namei_loop (fs : UnixFilesystem) (current : JsRef) (parts : list string) : Res JsRef :=
  match parts with
  | [] => Ok current
  | part :: rest =>
      c ← deref fs current;
      if negb (isDirectory c) then Ok Null
      else
        next ← _lookup fs current part;
        if falsy next then Ok Null
        else namei_loop fs next rest
  end.

Definition namei (fs : UnixFilesystem) (path : PathArg) : Res JsRef :=
  match path with
  | PNull | PUndefined => Ok Null
  | PStr p =>
      if String.eqb p "" then Ok Null
      else
        let current := inodes_get fs (rootInum fs) in
        if String.eqb p "/" then Ok current
        else namei_loop fs current (path_parts p)
  end.

(** [readdir]: [None] is null; an entry of the result pairs the name with
    [this.inodes.get(entry.inum)]. *)
Definition readdir (fs : UnixFilesystem) (path : PathArg) : Res (option (list (string * JsRef))) :=
  r ← namei fs path;
  match r with
  | Obj _ =>
      ino ← deref fs r;
      if negb (isDirectory ino) then Ok None
      else match i_entries ino with
           | None => Throw TypeError      (* null has no map *)
           | Some es => Ok (Some (List.map (fun entry => (name entry, inodes_get fs (inum entry))) es))
           end
  | _ => Ok None
  end.

(** [read]: [None] is null, which is also what [i_data] holds when it was
    never assigned. *)
Definition read (fs : UnixFilesystem) (path : PathArg) : Res (option string) :=
  r ← namei fs path;
  match r with
  | Obj _ =>
      ino ← deref fs r;
      if isDirectory ino then Ok None else Ok (i_data ino)
  | _ => Ok None
  end.

Definition stat (fs : UnixFilesystem) (path : PathArg) : Res JsRef :=
  namei fs path.

(** ** Stateful methods *)

(** The machine: the filesystem object and the number of clock readings made
    so far. *)
Record World := mkWorld {
  fs : UnixFilesystem;
  clock_reads : nat;
}.

Definition M (A : Type) : Type := World → Res A * World.

#[global] Instance M_ret : MRet M := fun A a w => (Ok a, w).
#[global] Instance M_bind : MBind M := fun A B f m w =>
  match m w with
  | (Ok a, w') => f a w'
  | (Throw e, w') => (Throw e, w')
  end.

Definition throw {A : Type} (e : JsError) : M A := fun w => (Throw e, w).

(** A method that only reads the filesystem. *)
Definition pure_call {A : Type} (f : UnixFilesystem → Res A) : M A :=
  fun w => (f (fs w), w).

Definition with_inodes (f : gmap Z Inode → gmap Z Inode) (w : World) : World :=
  {| fs := {| inodes := f (inodes (fs w)); nextInum := nextInum (fs w);
              rootInum := rootInum (fs w) |};
     clock_reads := clock_reads w |}.

(** [v.field = ...]: a field assignment through a reference. *)
Definition assign (v : JsRef) (f : Inode → Inode) : M unit :=
  _ ← pure_call (fun fs => deref fs v);
  match v with
  | Obj k => fun w => (Ok tt, with_inodes (alter f k) w)
  | _ => throw TypeError
  end.

(** [nextInum++]: the old value is the result. *)
Definition post_increment_nextInum : M Z := fun w =>
  (Ok (nextInum (fs w)),
   {| fs := {| inodes := inodes (fs w); nextInum := nextInum (fs w) + 1;
               rootInum := rootInum (fs w) |};
      clock_reads := clock_reads w |}).

(** [this.inodes.set(k, inode)]. *)
Definition inodes_set (k : Z) (ino : Inode) : M unit :=
  fun w => (Ok tt, with_inodes (insert k ino) w).

(** [parent.i_entries.push(entry)]. *)
Definition push_entry (parent : JsRef) (entry : DirectoryEntry) : M unit :=
  p ← pure_call (fun fs => deref fs parent);
  match i_entries p with
  | None => throw TypeError               (* null has no push *)
  | Some es => assign parent (set_i_entries (es ++ [entry]))
  end.

Section Clock.

(** The value of the n-th call of [Date.now()]. *)
Variable Date_now : nat → Z.

Definition read_clock : M Z := fun w =>
  (Ok (Date_now (clock_reads w)),
   {| fs := fs w; clock_reads := S (clock_reads w) |}).

Definition new_Inode (inum mode : Z) : M Inode :=
  atime ← read_clock;
  mtime ← read_clock;
  mret {| i_number := inum; i_mode := mode; i_nlink := 1; i_uid := 0;
          i_gid := 0; i_size := 0; i_atime := atime; i_mtime := mtime;
          i_data := None; i_entries := None |}.

Definition _allocInode (mode : Z) : M JsRef :=
  inum ← post_increment_nextInum;
  inode ← new_Inode inum (js_or mode IALLOC);
  _ ← inodes_set inum inode;
  mret (Obj inum).

Definition _mkdir (parent : JsRef) (nm : string) : M JsRef :=
  dir ← _allocInode (js_or IFDIR mode_755);
  d ← pure_call (fun fs => deref fs dir);
  p ← pure_call (fun fs => deref fs parent);
  _ ← assign dir (set_i_entries
        [new_DirectoryEntry (i_number d) "."; new_DirectoryEntry (i_number p) ".."]);
  _ ← push_entry parent (new_DirectoryEntry (i_number d) nm);
  mret dir.

Definition _mkdev (parent : JsRef) (nm : string) (mode : Z) : M JsRef :=
  dev ← _allocInode mode;
  d ← pure_call (fun fs => deref fs dev);
  _ ← push_entry parent (new_DirectoryEntry (i_number d) nm);
  mret dev.

Definition _mkfile (parent : JsRef) (nm : string) (content : string) (mode : Z) : M JsRef :=
  file ← _allocInode mode;
  _ ← assign file (set_i_data content);
  _ ← assign file (set_i_size (Z.of_nat (String.length content)));
  f ← pure_call (fun fs => deref fs file);
  _ ← push_entry parent (new_DirectoryEntry (i_number f) nm);
  mret file.

Definition write (path : PathArg) (content : string) : M bool :=
  inode ← pure_call (fun fs => namei fs path);
  if falsy inode then mret false
  else
    ino ← pure_call (fun fs => deref fs inode);
    if isDirectory ino then mret false
    else
      _ ← assign inode (set_i_data content);
      _ ← assign inode (set_i_size (Z.of_nat (String.length content)));
      now ← read_clock;
      _ ← assign inode (set_i_mtime now);
      mret true.

Definition nl : string := String (ascii_of_nat 10) EmptyString.

Definition _initializeFilesystem : M unit :=
  root ← _allocInode (js_or IFDIR mode_755);
  r ← pure_call (fun fs => deref fs root);
  _ ← assign root (set_i_entries
        [new_DirectoryEntry (i_number r) "."; new_DirectoryEntry (i_number r) ".."]);
  _ ← _mkdir root "bin";
  _ ← _mkdir root "dev";
  _ ← _mkdir root "etc";
  _ ← _mkdir root "usr";
  _ ← _mkdir root "tmp";
  usr ← pure_call (fun fs => _lookup fs root "usr");
  _ ← _mkdir usr "games";
  _ ← _mkdir usr "lib";
  _ ← _mkdir usr "bin";
  _ ← _mkdir usr "sys";
  dev ← pure_call (fun fs => _lookup fs root "dev");
  _ ← _mkdev dev "tty" (js_or IFCHR mode_666);
  _ ← _mkdev dev "null" (js_or IFCHR mode_666);
  _ ← _mkdev dev "mem" (js_or IFCHR mode_640);
  etc ← pure_call (fun fs => _lookup fs root "etc");
  _ ← _mkfile etc "passwd"
        ("root::0:0::/:" ++ nl ++ "daemon::1:1::/:" ++ nl ++ "bin::2:2::/bin:" ++ nl)
        mode_644;
  _ ← _mkfile etc "motd"
        ("Unix Fourth Edition" ++ nl ++ "Bell Telephone Laboratories" ++ nl ++ "1973" ++ nl)
        mode_644;
  games ← pure_call (fun fs => _lookup fs usr "games");
  _ ← _mkfile games "moo" "[binary: 624 bytes]" mode_755;
  _ ← _mkfile games "bj" "[binary: 1562 bytes]" mode_755;
  _ ← _mkfile games "ttt" "[binary: 2192 bytes]" mode_755;
  _ ← _mkfile games "ttt.k" "" mode_644;
  _ ← _mkfile games "cubic" "[binary: 2468 bytes]" mode_755;
  _ ← _mkfile games "wump" "[binary: 5386 bytes]" mode_755;
  _ ← _mkfile games "chess" "[binary: 14310 bytes]" mode_755;
  mret tt.

(** [new UnixFilesystem()], made when the clock has been read [n] times. *)
Definition new_UnixFilesystem (n : nat) : Res unit * World :=
  _initializeFilesystem
    {| fs := {| inodes := ∅; nextInum := 1; rootInum := 1 |}; clock_reads := n |}.

Definition boot : World := snd (new_UnixFilesystem 0).

End Clock.

(** ** The states the construction helpers leave behind *)

(** The object [new Inode(nextInum, mode | IALLOC)] built in state [w]. *)
Definition blank_inode (Date_now : nat → Z) (w : World) (mode : Z) : Inode :=
  {| i_number := nextInum (fs w); i_mode := js_or mode IALLOC;
     i_nlink := 1; i_uid := 0; i_gid := 0; i_size := 0;
     i_atime := Date_now (clock_reads w);
     i_mtime := Date_now (S (clock_reads w));
     i_data := None; i_entries := None |}.

(** The state after an allocation that stored [ino]. *)
Definition alloc_world (w : World) (ino : Inode) : World :=
  {| fs := {| inodes := <[nextInum (fs w) := ino]> (inodes (fs w));
              nextInum := nextInum (fs w) + 1;
              rootInum := rootInum (fs w) |};
     clock_reads := S (S (clock_reads w)) |}.

(** The directory inode [_mkdir] builds under the parent object [p]. *)
Definition mkdir_inode (Date_now : nat → Z) (w : World) (p : Inode) : Inode :=
  set_i_entries [new_DirectoryEntry (nextInum (fs w)) ".";
                 new_DirectoryEntry (i_number p) ".."]
    (blank_inode Date_now w (js_or IFDIR mode_755)).

(** The file inode [_mkfile] builds. *)
Definition mkfile_inode (Date_now : nat → Z) (w : World) (content : string) (mode : Z) : Inode :=
  set_i_size (Z.of_nat (String.length content))
    (set_i_data content (blank_inode Date_now w mode)).

(** The state after [entry] was pushed on the entries [es] of inode [k]. *)
Definition push_world (k : Z) (entry : DirectoryEntry) (es : list DirectoryEntry) (w : World) : World :=
  with_inodes (alter (set_i_entries (es ++ [entry])) k) w.

(** What a successful [write] at clock reading [t] does to its inode. *)
Definition written_inode (content : string) (t : Z) (ino : Inode) : Inode :=
  set_i_mtime t (set_i_size (Z.of_nat (String.length content)) (set_i_data content ino)).

(** The state after a successful [write] on inode [k]. *)
Definition write_world (Date_now : nat → Z) (k : Z) (content : string) (w : World) : World :=
  {| fs := {| inodes := alter (written_inode content (Date_now (clock_reads w))) k (inodes (fs w));
              nextInum := nextInum (fs w);
              rootInum := rootInum (fs w) |};
     clock_reads := S (clock_reads w) |}.

(** A sample clock for concrete runs: the n-th reading is n milliseconds. *)
Definition tick_clock : nat → Z := Z.of_nat.

(** ** Paths that differ only in slashes *)

Definition absolute (p : string) : Prop := ∃ r, p = "/" ++ r.

(** One more slash next to a slash, or one more slash at the end. *)
Inductive slash_step : string → string → Prop :=
  | slash_double (x y : string) : slash_step (x ++ "/" ++ y) (x ++ "//" ++ y)
  | slash_trailing (x : string) : slash_step x (x ++ "/").

Definition abs_slash_step (p q : string) : Prop :=
  absolute p ∧ absolute q ∧ slash_step p q.

(** The equivalence generated by such steps between absolute paths. *)
Definition same_up_to_slashes : string → string → Prop := rtsc abs_slash_step.

(** ** Reachable states *)

(** The state of one inode that the operations maintain; [written] tells
    whether a [write] has succeeded on it. *)
Definition inode_okb (written : bool) (k : Z) (ino : Inode) : bool :=
  Z.eqb (i_number ino) k &&
  if isDirectory ino then
    match i_data ino, i_entries ino with
    | None, Some _ => true
    | _, _ => false
    end
  else
    match i_entries ino with
    | Some _ => false
    | None =>
        if isRegular ino then
          match i_data ino with
          | Some d => Z.eqb (i_size ino) (Z.of_nat (String.length d))
          | None => false
          end
        else
          written || match i_data ino with None => true | Some _ => false end
    end.

(** The check run over the 22 inodes of the bootstrapped table. *)
Definition boot_checkb (kv : Z * Inode) : bool :=
  inode_okb false (fst kv) (snd kv) && Z.ltb (fst kv) 23.

(** The invariant: the root is inode 1 and is present, every identifier in
    use is below [nextInum], and every inode is in the state above. *)
Definition Inv (W : gset Z) (w : World) : Prop :=
  rootInum (fs w) = 1 ∧
  is_Some (inodes (fs w) !! 1) ∧
  (∀ k, is_Some (inodes (fs w) !! k) → k < nextInum (fs w)) ∧
  (∀ k ino, inodes (fs w) !! k = Some ino → inode_okb (bool_decide (k ∈ W)) k ino = true).

Section Reach.

Variable Date_now : nat → Z.

(** The inode a [write] call succeeds on, if it does. *)
Definition write_target (w : World) (path : PathArg) (content : string) : gset Z :=
  match fst (write Date_now path content w), namei (fs w) path with
  | Ok true, Ok (Obj k) => {[ k ]}
  | _, _ => ∅
  end.

(** The states reached from the bootstrap by [write] calls and by the
    construction helpers called on an inode of the table, with permission
    bits for a file and a character-device mode for a device.  A call that
    throws still leaves its state behind.  The index is the set of inodes
    on which a [write] has succeeded. *)
Inductive reach : gset Z → World → Prop :=
  | reach_boot : reach ∅ (boot Date_now)
  | reach_write W w path content :
      reach W w →
      reach (W ∪ write_target w path content) (snd (write Date_now path content w))
  | reach_mkdir W w k nm :
      reach W w → is_Some (inodes (fs w) !! k) →
      reach W (snd (_mkdir Date_now (Obj k) nm w))
  | reach_mkdev W w k nm mode :
      reach W w → is_Some (inodes (fs w) !! k) →
      js_and mode IFMT = IFCHR →
      reach W (snd (_mkdev Date_now (Obj k) nm mode w))
  | reach_mkfile W w k nm content mode :
      reach W w → is_Some (inodes (fs w) !! k) →
      js_and mode IFMT = 0 →
      reach W (snd (_mkfile Date_now (Obj k) nm content mode w)).

End Reach.

(** ** What resolution needs and what it gives *)

(** A value that is [null] or a reference into the table. *)
Definition null_or_inode (fs0 : UnixFilesystem) (v : JsRef) : Prop :=
  v = Null ∨ ∃ k, v = Obj k ∧ is_Some (inodes fs0 !! k).

(** Every directory-kind inode has an entry list to iterate over. *)
Definition dirs_have_entries (fs0 : UnixFilesystem) : Prop :=
  ∀ k ino, inodes fs0 !! k = Some ino → isDirectory ino = true → is_Some (i_entries ino).

(** ** Field updates that resolution does not see *)

(** An update of an inode that leaves its mode and its entries alone. *)
Definition keeps_shape (f : Inode → Inode) : Prop :=
  ∀ ino, i_mode (f ino) = i_mode ino ∧ i_entries (f ino) = i_entries ino.

(** The filesystem after the inode under [k] was updated by [f]. *)
Definition altered (f : Inode → Inode) (k : Z) (fs0 : UnixFilesystem) : UnixFilesystem :=
  {| inodes := alter f k (inodes fs0); nextInum := nextInum fs0; rootInum := rootInum fs0 |}.

(** ** Sample states *)

(** A root directory that holds two entries named "bin": the bootstrapped
    one, then a second one made by [_mkdir]. *)
Definition two_bins : World := snd (_mkdir tick_clock (Obj 1) "bin" (boot tick_clock)).

(** The bootstrapped filesystem after [write("/dev/null", "x")]. *)
Definition dev_null_written : World :=
  snd (write tick_clock (PStr "/dev/null") "x" (boot tick_clock)).

(** A name of more than 14 code units. *)
Definition long_name : string := "a_name_longer_than_14".

(** The bootstrapped filesystem after [_mkdir] of [long_name] under the root. *)
Definition long_mkdir : Res JsRef * World :=
  _mkdir tick_clock (Obj 1) long_name (boot tick_clock).

(** The bootstrapped filesystem after [_mkdir] under the device /dev/tty. *)
Definition tty_mkdir : Res JsRef * World :=
  _mkdir tick_clock (Obj 11) "x" (boot tick_clock).

(** The bootstrapped filesystem after [_mkfile(etc, "hosts", "localhost")],
    and then after [write("/etc/hosts", "127.0.0.1 localhost")]. *)
Definition hosts_made : World :=
  snd (_mkfile tick_clock (Obj 4) "hosts" "localhost" mode_644 (boot tick_clock)).

Definition hosts_written : World :=
  snd (write tick_clock (PStr "/etc/hosts") "127.0.0.1 localhost" hosts_made).

(** ** The permission string *)

(** [getPermissionString]: a number is truthy when it is not zero. *)
Definition getPermissionString (ino : Inode) : string :=
  let type := if isDirectory ino then "d" else if isCharDevice ino then "c" else "-" in
  let r := if Z.eqb (js_and (i_mode ino) IREAD) 0 then "-" else "r" in
  let w := if Z.eqb (js_and (i_mode ino) IWRITE) 0 then "-" else "w" in
  let x := if Z.eqb (js_and (i_mode ino) IEXEC) 0 then "-" else "x" in
  type ++ r ++ w ++ x ++ r ++ w ++ x ++ r ++ w ++ x.

(** ** The shape of the tree *)

(** An entry refers to an identifier in use and has a name of at most 14
    code units. *)
Definition entry_okb (n : Z) (e : DirectoryEntry) : bool :=
  Z.leb 1 (inum e) && Z.ltb (inum e) n && Nat.leb (String.length (name e)) 14.

(** The inode under [k] when [n] is the next identifier: it carries the
    allocated flag, inode 1 is a directory, and an entry list, when there is
    one, starts with "." for the inode itself and ".." (for the root: itself
    again) and holds entries as above. *)
Definition tree_okb (n k : Z) (ino : Inode) : bool :=
  Z.leb 1 k && Z.ltb k n &&
  Z.eqb (js_and (i_mode ino) IALLOC) IALLOC &&
  (if Z.eqb k 1 then isDirectory ino else true) &&
  match i_entries ino with
  | None => true
  | Some (e1 :: e2 :: rest) =>
      Z.eqb (inum e1) k && String.eqb (name e1) "." && String.eqb (name e2) ".." &&
      (if Z.eqb k 1 then Z.eqb (inum e2) 1 else true) &&
      forallb (entry_okb n) (e1 :: e2 :: rest)
  | Some _ => false
  end.

Definition Tree (w : World) : Prop :=
  (∀ k, 1 ≤ k < nextInum (fs w) → is_Some (inodes (fs w) !! k)) ∧
  (∀ k ino, inodes (fs w) !! k = Some ino → tree_okb (nextInum (fs w)) k ino = true).

(** The checks run over the bootstrapped table. *)
Definition boot_treeb (kv : Z * Inode) : bool := tree_okb 23 (fst kv) (snd kv).

Definition boot_presentb (m : gmap Z Inode) (k : Z) : bool :=
  match m !! k with
  | Some _ => true
  | None => false
  end.

(** A path part that names the directory itself or its parent. *)
Definition dot_part (s : string) : Prop := s = "." ∨ s = "..".

(** [fs2] grows [fs1]: every inode of [fs1] is in [fs2] with the fields it
    had, except that its entry list may have gained entries at the end. *)
Definition grown_inode (ino ino' : Inode) : Prop :=
  i_number ino' = i_number ino ∧ i_mode ino' = i_mode ino ∧
  i_size ino' = i_size ino ∧ i_mtime ino' = i_mtime ino ∧
  i_data ino' = i_data ino ∧
  match i_entries ino with
  | None => i_entries ino' = None
  | Some es => ∃ more, i_entries ino' = Some (es ++ more)%list
  end.

Definition grows (fs1 fs2 : UnixFilesystem) : Prop :=
  rootInum fs2 = rootInum fs1 ∧
  ∀ k ino, inodes fs1 !! k = Some ino →
           ∃ ino', inodes fs2 !! k = Some ino' ∧ grown_inode ino ino'.

(** A name that can be one segment of a path and fits an entry: not empty,
    without '/', of at most 14 code units. *)
Fixpoint no_slash (s : string) : bool :=
  match s with
  | EmptyString => true
  | String c s' => negb (Ascii.eqb c "/") && no_slash s'
  end.

Definition simple_nameb (s : string) : bool :=
  negb (String.eqb s "") && no_slash s && Nat.leb (String.length s) 14.

(** The inode paired with the first occurrence of a name in a listing, null
    when the name does not occur. *)
Fixpoint listing_first (l : list (string * JsRef)) (nm : string) : JsRef :=
  match l with
  | [] => Null
  | (n, r) :: rest => if String.eqb n nm then r else listing_first rest nm
  end.

(** * The games *)

(** ** moo: bulls and cows *)

(** [s[i]]: the i-th code unit as a one-character string, or undefined
    ([None]). *)
Definition char_at (s : string) (i : nat) : option ascii := String.get i s.

(** [secret.includes(x)] for [x] a one-character string or undefined; the
    latter is converted to the string "undefined" before the search. *)
Definition includes (s : string) (x : option ascii) : bool :=
  match x with
  | Some c => existsb (Ascii.eqb c) (list_ascii_of_string s)
  | None =>
      match String.index 0 "undefined" s with
      | Some _ => true
      | None => false
      end
  end.

(** One turn of the loop of [score]; the state is (bulls, cows). *)
Definition score_step (secret guess : string) (acc : Z * Z) (i : nat) : Z * Z :=
  if bool_decide (char_at guess i = char_at secret i) then (fst acc + 1, snd acc)
  else if includes secret (char_at guess i) then (fst acc, snd acc + 1)
  else acc.

(** [score(guess)] of a game whose secret is [secret]. *)
Definition score (secret guess : string) : Z * Z :=
  fold_left (score_step secret guess) (seq 0 4) (0, 0).

(** [\d]: the digits 0 to 9. *)
Definition is_digit (c : ascii) : bool :=
  Nat.leb 48 (nat_of_ascii c) && Nat.leb (nat_of_ascii c) 57.

(** [/^\d{4}$/.test(guess)]: exactly four digits from start to end of input. *)
Definition four_digits (guess : string) : bool :=
  match guess with
  | String a (String b (String c (String d EmptyString))) =>
      is_digit a && is_digit b && is_digit c && is_digit d
  | _ => false
  end.

(** [isValidGuess]: [new Set(guess)] holds the characters of the string. *)
Definition isValidGuess (guess : string) : bool :=
  if negb (four_digits guess) then false
  else
    let digits : gset ascii := list_to_set (list_ascii_of_string guess) in
    bool_decide (size digits = 4%nat).

(** ** ttt: tic-tac-toe that learns *)

Definition EMPTY : Z := 0.
Definition HUMAN : Z := 1.     (* X *)
Definition COMPUTER : Z := 2.  (* O *)

Definition WINS : list (nat * nat * nat) :=
  [(0, 1, 2); (3, 4, 5); (6, 7, 8);
   (0, 3, 6); (1, 4, 7); (2, 5, 8);
   (0, 4, 8); (2, 4, 6)]%nat.

(** The fields of a [TicTacToe] object that the game logic uses.  The board
    is made by [Array(9).fill(EMPTY)] and assigned at the indices 0 to 8
    only, so it always has nine cells and [board[i]] is read in range; the
    weights are the integers that [updateWeight] stores. *)
Record TicTacToe := mkTicTacToe {
  board : list Z;
  knowledge : gmap Z Z;
  moveHistory : list nat;
  knowledgeDirty : bool;
}.

(** The base-3 loop of [encodeBoard], which [updateKnowledge] repeats on its
    own board. *)
Definition encode_cells (cells : list Z) : Z :=
  fold_left (fun result i => result * 3 + cells !!! i) (seq 0 9) 0.

Definition encodeBoard (t : TicTacToe) : Z := encode_cells (board t).

Definition wins_line (cells : list Z) (line : nat * nat * nat) : bool :=
  let '(a, b, c) := line in
  negb (Z.eqb (cells !!! a) EMPTY) &&
  Z.eqb (cells !!! a) (cells !!! b) && Z.eqb (cells !!! b) (cells !!! c).

Definition checkWinner (t : TicTacToe) : Z :=
  match find (wins_line (board t)) WINS with
  | Some (a, _, _) => board t !!! a
  | None => EMPTY
  end.

Definition isFull (t : TicTacToe) : bool :=
  forallb (fun c => negb (Z.eqb c EMPTY)) (board t).

(** [this.knowledge.get(code) || 0]: a missing weight and the weight 0 both
    give 0. *)
Definition weight_or_0 (k : gmap Z Z) (code : Z) : Z := default 0 (k !! code).

Definition lookupWeight (t : TicTacToe) : Z := weight_or_0 (knowledge t) (encodeBoard t).

Definition updateWeight (code delta : Z) (t : TicTacToe) : TicTacToe :=
  let current := weight_or_0 (knowledge t) code in
  let newWeight := Z.max (-128) (Z.min 127 (current + delta)) in
  {| board := board t; knowledge := <[code := newWeight]> (knowledge t);
     moveHistory := moveHistory t; knowledgeDirty := true |}.

Definition set_board (cells : list Z) (t : TicTacToe) : TicTacToe :=
  {| board := cells; knowledge := knowledge t;
     moveHistory := moveHistory t; knowledgeDirty := knowledgeDirty t |}.

(** One turn of the first loop of [computeMove]: the cell is tried on the
    board itself and emptied again.  The state is the object, [bestMove] and
    [bestWeight]. *)
Definition try_move (st : TicTacToe * Z * Z) (i : nat) : TicTacToe * Z * Z :=
  let '(t, bestMove, bestWeight) := st in
  if Z.eqb (board t !!! i) EMPTY then
    let t1 := set_board (<[i := COMPUTER]> (board t)) t in
    let weight := lookupWeight t1 in
    let t2 := set_board (<[i := EMPTY]> (board t1)) t1 in
    if Z.ltb bestWeight weight then (t2, Z.of_nat i, weight)
    else (t2, bestMove, bestWeight)
  else st.

Definition priority : list nat := [4; 0; 2; 6; 8; 1; 3; 5; 7]%nat.

(** [computeMove]: the move, and the object after the call. *)
Definition computeMove (t : TicTacToe) : Z * TicTacToe :=
  let '(t', bestMove, bestWeight) := fold_left try_move (seq 0 9) (t, -1, -1000) in
  if Z.ltb bestMove 0 || Z.eqb bestWeight 0 then
    match find (fun pos => Z.eqb (board t' !!! pos) EMPTY) priority with
    | Some pos => (Z.of_nat pos, t')
    | None => (bestMove, t')
    end
  else (bestMove, t').

(** One turn of the loop of [updateKnowledge]: the state is the object and
    [tempBoard]; [i] is the index in [moveHistory] and [move] the move there. *)
Definition replay_step (delta : Z) (st : TicTacToe * list Z) (im : nat * nat)
    : TicTacToe * list Z :=
  let '(t, tempBoard) := st in
  let '(i, move) := im in
  let tempBoard' := <[move := if Nat.even i then HUMAN else COMPUTER]> tempBoard in
  if Nat.odd i then (updateWeight (encode_cells tempBoard') delta t, tempBoard')
  else (t, tempBoard').

Definition updateKnowledge (outcome : Z) (t : TicTacToe) : TicTacToe :=
  let delta :=
    if Z.eqb outcome COMPUTER then 3
    else if Z.eqb outcome EMPTY then 1
    else -2 in
  fst (fold_left (replay_step delta) (imap (fun i move => (i, move)) (moveHistory t))
         (t, replicate 9 EMPTY)).

(** A board of nine cells, each empty, X or O. *)
Definition board_ok (cells : list Z) : Prop :=
  List.length cells = 9%nat ∧ Forall (fun c : Z => (0 ≤ c ≤ 2)%Z) cells.

(** Every stored weight fits a signed byte. *)
Definition weights_in_byte (k : gmap Z Z) : Prop :=
  ∀ code wgt, k !! code = Some wgt → (-128 ≤ wgt ≤ 127)%Z.

(** The link count and the owner that the constructor of [Inode] sets. *)
Definition fresh_metab (ino : Inode) : bool :=
  Z.eqb (i_nlink ino) 1 && Z.eqb (i_uid ino) 0 && Z.eqb (i_gid ino) 0.

Definition boot_metab (kv : Z * Inode) : bool := fresh_metab (snd kv).

(** * Properties *)

(** ** Mode bits *)

Lemma to_int32_mod (z : Z) : to_int32 z mod 2 ^ 32 = z mod 2 ^ 32.
Proof.
  unfold to_int32.
  rewrite Zminus_mod, Zmod_mod, <- Zminus_mod.
  f_equal. lia.
Qed.

Lemma land_low_mod (a m : Z) :
  0 ≤ m < 2 ^ 32 → Z.land (a mod 2 ^ 32) m = Z.land a m.
Proof.
  intros Hm. apply Z.bits_inj'. intros n Hn.
  rewrite !Z.land_spec.
  destruct (Z.lt_ge_cases n 32) as [Hlt | Hge].
  - rewrite Z.mod_pow2_bits_low by lia. reflexivity.
  - assert (Z.testbit m n = false) as ->.
    { destruct (Z.eq_dec m 0) as [-> | Hne]; [apply Z.bits_0 |].
      apply Z.bits_above_log2; [lia |].
      apply Z.log2_lt_pow2; [lia |].
      apply Z.lt_le_trans with (2 ^ 32); [lia |].
      apply Z.pow_le_mono_r; lia. }
    rewrite !andb_false_r. reflexivity.
Qed.

Lemma land_to_int32 (a m : Z) :
  0 ≤ m < 2 ^ 32 → Z.land (to_int32 a) m = Z.land a m.
Proof.
  intros Hm.
  rewrite <- (land_low_mod (to_int32 a)), to_int32_mod, land_low_mod by assumption.
  reflexivity.
Qed.

(** Setting the allocated flag leaves the type bits as they are. *)
Lemma type_bits_alloc (mode : Z) :
  js_and (js_or mode IALLOC) IFMT = js_and mode IFMT.
Proof.
  unfold js_and, js_or.
  change (to_int32 IFMT) with IFMT. change (to_int32 IALLOC) with IALLOC.
  rewrite !land_to_int32 by (unfold IFMT; lia).
  rewrite Z.land_lor_distr_l.
  change (Z.land IALLOC IFMT) with 0. rewrite Z.lor_0_r.
  rewrite land_to_int32 by (unfold IFMT; lia). reflexivity.
Qed.

(** ** Splitting a path *)

Lemma split_slash_nonempty (s : string) : split_slash s ≠ [].
Proof.
  destruct s as [| c s]; simpl; [discriminate |].
  destruct (Ascii.eqb c "/"); [discriminate |].
  destruct (split_slash s); discriminate.
Qed.

(** Splitting on both sides of a slash. *)
Lemma split_slash_app (x y : string) :
  split_slash (x ++ "/" ++ y) = (split_slash x ++ split_slash y)%list.
Proof.
  induction x as [| c x IH]; simpl; [reflexivity |].
  destruct (Ascii.eqb c "/").
  - simpl in IH. rewrite IH. reflexivity.
  - simpl in IH. rewrite IH.
    pose proof (split_slash_nonempty x) as Hne.
    destruct (split_slash x) as [| seg rest]; [congruence | reflexivity].
Qed.

Lemma path_parts_app (x y : string) :
  path_parts (x ++ "/" ++ y) = (path_parts x ++ path_parts y)%list.
Proof.
  unfold path_parts. rewrite split_slash_app. apply List.filter_app.
Qed.

Lemma path_parts_double (x y : string) :
  path_parts (x ++ "//" ++ y) = path_parts (x ++ "/" ++ y).
Proof.
  change (x ++ "//" ++ y) with (x ++ "/" ++ ("" ++ "/" ++ y)).
  rewrite (path_parts_app x), (path_parts_app ""), (path_parts_app x).
  reflexivity.
Qed.

Lemma string_app_empty_r (x : string) : x ++ "" = x.
Proof.
  induction x as [| c x IH]; [reflexivity |].
  change (String c (x ++ "") = String c x). rewrite IH. reflexivity.
Qed.

Lemma path_parts_trailing (x : string) : path_parts (x ++ "/") = path_parts x.
Proof.
  change (x ++ "/") with (x ++ "/" ++ "").
  rewrite path_parts_app. change (path_parts "") with (@nil string).
  apply app_nil_r.
Qed.

Lemma slash_step_parts (p q : string) : slash_step p q → path_parts p = path_parts q.
Proof.
  intros [x y | x].
  - symmetry. apply path_parts_double.
  - symmetry. apply path_parts_trailing.
Qed.

(** A path that is not empty is resolved by walking its parts from the
    root; the test for "/" is a shortcut of that walk. *)
Lemma namei_walk (fs0 : UnixFilesystem) (p : string) :
  p ≠ "" →
  namei fs0 (PStr p) = namei_loop fs0 (inodes_get fs0 (rootInum fs0)) (path_parts p).
Proof.
  intros Hne. unfold namei.
  destruct (String.eqb_spec p "") as [-> | _]; [congruence |].
  destruct (String.eqb_spec p "/") as [-> | _]; reflexivity.
Qed.

Lemma absolute_nonempty (p : string) : absolute p → p ≠ "".
Proof. intros [r ->]. discriminate. Qed.

Lemma same_up_to_slashes_parts (p q : string) :
  same_up_to_slashes p q → path_parts p = path_parts q.
Proof.
  induction 1 as [| a b c Hab _ IH]; [reflexivity |].
  rewrite <- IH.
  destruct Hab as [(_ & _ & Hs) | (_ & _ & Hs)];
    [| symmetry]; apply slash_step_parts, Hs.
Qed.

Lemma same_up_to_slashes_absolute (p q : string) :
  same_up_to_slashes p q → p = q ∨ (absolute p ∧ absolute q).
Proof.
  induction 1 as [| a b c Hab _ IH]; [left; reflexivity |].
  right.
  assert (absolute a ∧ absolute b) as [Ha Hb].
  { destruct Hab as [(Ha & Hb & _) | (Hb & Ha & _)]; split; assumption. }
  destruct IH as [<- | [_ Hc]]; split; assumption.
Qed.

Lemma same_up_to_slashes_namei (fs0 : UnixFilesystem) (p q : string) :
  same_up_to_slashes p q → namei fs0 (PStr p) = namei fs0 (PStr q).
Proof.
  intros H. pose proof (same_up_to_slashes_parts _ _ H) as Hparts.
  destruct (same_up_to_slashes_absolute _ _ H) as [<- | [Hp Hq]]; [reflexivity |].
  rewrite !namei_walk by (apply absolute_nonempty; assumption).
  rewrite Hparts. reflexivity.
Qed.

(** ** The stateful methods in closed form *)

Lemma alloc_spec (Date_now : nat → Z) (mode : Z) (w : World) :
  _allocInode Date_now mode w =
  (Ok (Obj (nextInum (fs w))), alloc_world w (blank_inode Date_now w mode)).
Proof. reflexivity. Qed.

Lemma with_inodes_alter_alloc (f : Inode → Inode) (w : World) (ino : Inode) :
  with_inodes (alter f (nextInum (fs w))) (alloc_world w ino) = alloc_world w (f ino).
Proof.
  unfold with_inodes, alloc_world. simpl. rewrite alter_insert_eq. reflexivity.
Qed.

Lemma push_entry_spec (k : Z) (entry : DirectoryEntry) (w : World) (p : Inode) :
  inodes (fs w) !! k = Some p →
  push_entry (Obj k) entry w =
  match i_entries p with
  | None => (Throw TypeError, w)
  | Some es => (Ok tt, push_world k entry es w)
  end.
Proof.
  intros Hk. unfold push_entry, mbind, M_bind, pure_call. simpl. rewrite Hk.
  destruct (i_entries p) as [es |]; [| reflexivity].
  unfold assign, mbind, M_bind, pure_call. simpl. rewrite Hk. reflexivity.
Qed.

Lemma mkdir_spec (Date_now : nat → Z) (k : Z) (nm : string) (w : World) (p : Inode) :
  inodes (fs w) !! k = Some p → k ≠ nextInum (fs w) →
  _mkdir Date_now (Obj k) nm w =
  let w1 := alloc_world w (mkdir_inode Date_now w p) in
  match i_entries p with
  | None => (Throw TypeError, w1)
  | Some es =>
      (Ok (Obj (nextInum (fs w))),
       push_world k (new_DirectoryEntry (nextInum (fs w)) nm) es w1)
  end.
Proof.
  intros Hk Hne.
  unfold _mkdir. unfold mbind at 1, M_bind at 1. rewrite alloc_spec.
  unfold mbind at 1, M_bind at 1, pure_call at 1. simpl fs.
  unfold deref at 1. simpl inodes at 1. rewrite lookup_insert_eq.
  unfold mbind at 1, M_bind at 1, pure_call at 1.
  unfold deref at 1. simpl inodes at 1. rewrite lookup_insert_ne by congruence. rewrite Hk.
  unfold mbind at 1, M_bind at 1.
  unfold assign at 1, mbind at 1, M_bind at 1, pure_call at 1, deref at 1.
  simpl inodes at 1. rewrite lookup_insert_eq.
  rewrite with_inodes_alter_alloc.
  unfold mbind at 1, M_bind at 1.
  rewrite (push_entry_spec k _ _ p) by (simpl; rewrite lookup_insert_ne by congruence; exact Hk).
  simpl. destruct (i_entries p); reflexivity.
Qed.


Lemma mkdev_spec (Date_now : nat → Z) (k : Z) (nm : string) (mode : Z) (w : World) (p : Inode) :
  inodes (fs w) !! k = Some p → k ≠ nextInum (fs w) →
  _mkdev Date_now (Obj k) nm mode w =
  let w1 := alloc_world w (blank_inode Date_now w mode) in
  match i_entries p with
  | None => (Throw TypeError, w1)
  | Some es =>
      (Ok (Obj (nextInum (fs w))),
       push_world k (new_DirectoryEntry (nextInum (fs w)) nm) es w1)
  end.
Proof.
  intros Hk Hne.
  unfold _mkdev. unfold mbind at 1, M_bind at 1. rewrite alloc_spec.
  unfold mbind at 1, M_bind at 1, pure_call at 1. simpl fs.
  unfold deref at 1. simpl inodes at 1. rewrite lookup_insert_eq.
  unfold mbind at 1, M_bind at 1.
  rewrite (push_entry_spec k _ _ p) by (simpl; rewrite lookup_insert_ne by congruence; exact Hk).
  simpl. destruct (i_entries p); reflexivity.
Qed.

Lemma assign_alloc (f : Inode → Inode) (w : World) (ino : Inode) :
  assign (Obj (nextInum (fs w))) f (alloc_world w ino) = (Ok tt, alloc_world w (f ino)).
Proof.
  unfold assign, mbind, M_bind, pure_call, deref. simpl inodes.
  rewrite lookup_insert_eq. rewrite with_inodes_alter_alloc. reflexivity.
Qed.

Lemma mkfile_spec (Date_now : nat → Z) (k : Z) (nm content : string) (mode : Z)
    (w : World) (p : Inode) :
  inodes (fs w) !! k = Some p → k ≠ nextInum (fs w) →
  _mkfile Date_now (Obj k) nm content mode w =
  let w1 := alloc_world w (mkfile_inode Date_now w content mode) in
  match i_entries p with
  | None => (Throw TypeError, w1)
  | Some es =>
      (Ok (Obj (nextInum (fs w))),
       push_world k (new_DirectoryEntry (nextInum (fs w)) nm) es w1)
  end.
Proof.
  intros Hk Hne.
  unfold _mkfile. unfold mbind at 1, M_bind at 1. rewrite alloc_spec.
  unfold mbind at 1, M_bind at 1. rewrite assign_alloc.
  unfold mbind at 1, M_bind at 1. rewrite assign_alloc.
  unfold mbind at 1, M_bind at 1, pure_call at 1. simpl fs.
  unfold deref at 1. simpl inodes at 1. rewrite lookup_insert_eq.
  unfold mbind at 1, M_bind at 1.
  rewrite (push_entry_spec k _ _ p) by (simpl; rewrite lookup_insert_ne by congruence; exact Hk).
  simpl. destruct (i_entries p); reflexivity.
Qed.

Lemma write_spec (Date_now : nat → Z) (path : PathArg) (content : string) (w : World) :
  write Date_now path content w =
  match namei (fs w) path with
  | Throw e => (Throw e, w)
  | Ok (Obj k) =>
      match inodes (fs w) !! k with
      | None => (Throw TypeError, w)
      | Some ino =>
          if isDirectory ino then (Ok false, w)
          else (Ok true, write_world Date_now k content w)
      end
  | Ok _ => (Ok false, w)
  end.
Proof.
  unfold write. unfold mbind at 1, M_bind at 1, pure_call at 1.
  destruct (namei (fs w) path) as [[| | k] | e]; try reflexivity.
  change (falsy (Obj k)) with false. cbv iota beta.
  unfold mbind at 1, M_bind at 1, pure_call at 1, deref at 1.
  destruct (inodes (fs w) !! k) as [ino |] eqn:Hk; [| reflexivity].
  destruct (isDirectory ino); [reflexivity |].
  unfold mbind at 1, M_bind at 1.
  unfold assign at 1, mbind at 1, M_bind at 1, pure_call at 1, deref at 1. rewrite Hk.
  unfold mbind at 1, M_bind at 1.
  unfold assign at 1, mbind at 1, M_bind at 1, pure_call at 1, deref at 1.
  simpl inodes at 1. rewrite lookup_alter_eq, Hk. simpl fmap.
  unfold mbind at 1, M_bind at 1, read_clock at 1.
  unfold mbind at 1, M_bind at 1.
  unfold assign at 1, mbind at 1, M_bind at 1, pure_call at 1, deref at 1.
  simpl inodes at 1. rewrite !lookup_alter_eq, Hk. simpl.
  unfold write_world, with_inodes. simpl.
  rewrite !alter_alter_eq. reflexivity.
Qed.


(** ** The invariant of the reachable states *)

Lemma boot_check (Date_now : nat → Z) :
  forallb boot_checkb (map_to_list (inodes (fs (boot Date_now)))) = true.
Proof. vm_compute. reflexivity. Qed.

Lemma inode_okb_mono (b b' : bool) (k : Z) (ino : Inode) :
  (b = true → b' = true) → inode_okb b k ino = true → inode_okb b' k ino = true.
Proof.
  intros Hb. unfold inode_okb.
  destruct (Z.eqb (i_number ino) k); [simpl | discriminate].
  destruct (isDirectory ino); [trivial |].
  destruct (i_entries ino); [trivial |].
  destruct (isRegular ino); [trivial |].
  destruct b; [rewrite Hb by reflexivity; trivial |].
  simpl. intros ->. apply orb_true_r.
Qed.

Lemma inode_okb_push (b : bool) (k : Z) (ino : Inode) (es es' : list DirectoryEntry) :
  i_entries ino = Some es →
  inode_okb b k ino = true → inode_okb b k (set_i_entries es' ino) = true.
Proof.
  unfold inode_okb, isDirectory, isRegular. simpl. intros ->.
  destruct (Z.eqb (i_number ino) k); [simpl | discriminate].
  destruct (Z.eqb (js_and (i_mode ino) IFMT) IFDIR); [| discriminate].
  destruct (i_data ino); trivial.
Qed.

Lemma inode_okb_written (b : bool) (k : Z) (ino : Inode) (content : string) (t : Z) :
  isDirectory ino = false →
  inode_okb b k ino = true → inode_okb true k (written_inode content t ino) = true.
Proof.
  unfold inode_okb, isDirectory, isRegular. simpl. intros ->.
  destruct (Z.eqb (i_number ino) k); [simpl | discriminate].
  destruct (i_entries ino); [discriminate |].
  destruct (Z.eqb (js_and (i_mode ino) IFMT) 0); [intros _; apply Z.eqb_refl | reflexivity].
Qed.

Lemma inode_okb_mkdir (Date_now : nat → Z) (w : World) (p : Inode) :
  inode_okb false (nextInum (fs w)) (mkdir_inode Date_now w p) = true.
Proof.
  unfold inode_okb, isDirectory. simpl. rewrite Z.eqb_refl. reflexivity.
Qed.

Lemma inode_okb_mkdev (Date_now : nat → Z) (w : World) (mode : Z) :
  js_and mode IFMT = IFCHR →
  inode_okb false (nextInum (fs w)) (blank_inode Date_now w mode) = true.
Proof.
  intros Hm. unfold inode_okb, isDirectory, isRegular. simpl.
  rewrite Z.eqb_refl, type_bits_alloc, Hm. reflexivity.
Qed.

Lemma inode_okb_mkfile (Date_now : nat → Z) (w : World) (content : string) (mode : Z) :
  js_and mode IFMT = 0 →
  inode_okb false (nextInum (fs w)) (mkfile_inode Date_now w content mode) = true.
Proof.
  intros Hm. unfold inode_okb, isDirectory, isRegular. simpl.
  rewrite !Z.eqb_refl, type_bits_alloc, Hm. reflexivity.
Qed.

Lemma Inv_boot (Date_now : nat → Z) : Inv ∅ (boot Date_now).
Proof.
  assert (∀ k ino, inodes (fs (boot Date_now)) !! k = Some ino →
                   inode_okb false k ino = true ∧ k < 23) as Hall.
  { intros k ino Hk.
    pose proof (boot_check Date_now) as Hc.
    rewrite List.forallb_forall in Hc.
    apply elem_of_map_to_list, list_elem_of_In in Hk.
    specialize (Hc _ Hk). unfold boot_checkb in Hc. simpl in Hc.
    apply andb_true_iff in Hc as [H1 H2]. split; [exact H1 | lia]. }
  unfold Inv. split; [reflexivity |]. split; [vm_compute; eauto |].
  split.
  - intros k [ino Hk]. apply (Hall _ _ Hk).
  - intros k ino Hk. rewrite bool_decide_false by apply not_elem_of_empty.
    apply (Hall _ _ Hk).
Qed.

Lemma Inv_mono (W W' : gset Z) (w : World) : W ⊆ W' → Inv W w → Inv W' w.
Proof.
  intros Hsub (Hr & H1 & Hf & Hok). repeat split; try assumption.
  intros k ino Hk. eapply inode_okb_mono; [| apply (Hok _ _ Hk)].
  rewrite !bool_decide_eq_true. apply Hsub.
Qed.

Lemma Inv_alloc (W : gset Z) (w : World) (ino : Inode) :
  Inv W w → inode_okb false (nextInum (fs w)) ino = true → Inv W (alloc_world w ino).
Proof.
  intros (Hr & H1 & Hf & Hok) Hino. unfold Inv, alloc_world. simpl.
  split; [exact Hr |]. split; [| split].
  - rewrite lookup_insert_is_Some. destruct (decide (nextInum (fs w) = 1)); auto.
  - intros k. rewrite lookup_insert_is_Some.
    intros [<- | [_ Hk]]; [lia | specialize (Hf _ Hk); lia].
  - intros k ino'. rewrite lookup_insert_Some.
    intros [[<- <-] | [_ Hk]]; [| apply (Hok _ _ Hk)].
    eapply inode_okb_mono; [| exact Hino]. discriminate.
Qed.

Lemma Inv_alter (W : gset Z) (w : World) (k : Z) (f : Inode → Inode) :
  Inv W w →
  (∀ ino, inodes (fs w) !! k = Some ino →
          inode_okb (bool_decide (k ∈ W)) k (f ino) = true) →
  Inv W (with_inodes (alter f k) w).
Proof.
  intros (Hr & H1 & Hf & Hok) Hfk. unfold Inv, with_inodes. simpl.
  split; [exact Hr |]. split; [| split].
  - rewrite lookup_alter_is_Some. exact H1.
  - intros j. rewrite lookup_alter_is_Some. apply Hf.
  - intros j ino. rewrite lookup_alter_Some.
    intros [(<- & ino0 & Hk & ->) | [_ Hj]]; [apply (Hfk _ Hk) | apply (Hok _ _ Hj)].
Qed.

Lemma Inv_push (W : gset Z) (w : World) (k : Z) (p : Inode)
    (es : list DirectoryEntry) (entry : DirectoryEntry) :
  Inv W w → inodes (fs w) !! k = Some p → i_entries p = Some es →
  Inv W (push_world k entry es w).
Proof.
  intros HI Hk Hes. apply Inv_alter; [exact HI |].
  intros ino Hino. assert (ino = p) as -> by congruence.
  eapply inode_okb_push; [exact Hes |].
  destruct HI as (_ & _ & _ & Hok). apply (Hok _ _ Hk).
Qed.

Lemma Inv_write (Date_now : nat → Z) (W : gset Z) (w : World) (k : Z) (ino : Inode)
    (content : string) :
  Inv W w → inodes (fs w) !! k = Some ino → isDirectory ino = false →
  Inv (W ∪ {[k]}) (write_world Date_now k content w).
Proof.
  intros HI Hk Hd.
  assert (Inv (W ∪ {[k]}) w) as HI' by (eapply Inv_mono; [| exact HI]; set_solver).
  change (write_world Date_now k content w) with
    (with_inodes (alter (written_inode content (Date_now (clock_reads w))) k)
       {| fs := fs w; clock_reads := S (clock_reads w) |}).
  apply Inv_alter.
  - destruct HI' as (Hr & H1 & Hf & Hok). repeat split; assumption.
  - simpl. intros ino' Hino'. assert (ino' = ino) as -> by congruence.
    rewrite bool_decide_true by set_solver.
    eapply inode_okb_written; [exact Hd |].
    destruct HI as (_ & _ & _ & Hok). apply (Hok _ _ Hk).
Qed.


Lemma Inv_fresh (W : gset Z) (w : World) (k : Z) :
  Inv W w → is_Some (inodes (fs w) !! k) → k ≠ nextInum (fs w).
Proof. intros (_ & _ & Hf & _) Hk. specialize (Hf _ Hk). lia. Qed.

Lemma reach_Inv (Date_now : nat → Z) (W : gset Z) (w : World) :
  reach Date_now W w → Inv W w.
Proof.
  induction 1 as [| W w path content _ IH | W w k nm _ IH [p Hk]
                  | W w k nm mode _ IH [p Hk] Hm
                  | W w k nm content mode _ IH [p Hk] Hm].
  - apply Inv_boot.
  - unfold write_target. rewrite write_spec.
    destruct (namei (fs w) path) as [[| | k] | e]; simpl;
      try (rewrite union_empty_r_L; exact IH).
    destruct (inodes (fs w) !! k) as [ino |] eqn:Hk; simpl;
      [| rewrite union_empty_r_L; exact IH].
    destruct (isDirectory ino) eqn:Hd; simpl;
      [rewrite union_empty_r_L; exact IH |].
    eapply Inv_write; eassumption.
  - rewrite (mkdir_spec _ _ _ _ p) by (eauto using Inv_fresh).
    assert (Inv W (alloc_world w (mkdir_inode Date_now w p))) as HI
      by (apply Inv_alloc; [exact IH | apply inode_okb_mkdir]).
    assert (inodes (fs (alloc_world w (mkdir_inode Date_now w p))) !! k = Some p) as Hk'.
    { simpl. rewrite lookup_insert_ne; [exact Hk |].
      intros Heq. symmetry in Heq. revert Heq. eapply Inv_fresh; eauto. }
    cbv zeta. destruct (i_entries p) as [es |] eqn:Hes; simpl; [| exact HI].
    eapply Inv_push; eassumption.
  - rewrite (mkdev_spec _ _ _ _ _ p) by (eauto using Inv_fresh).
    assert (Inv W (alloc_world w (blank_inode Date_now w mode))) as HI
      by (apply Inv_alloc; [exact IH | apply inode_okb_mkdev, Hm]).
    assert (inodes (fs (alloc_world w (blank_inode Date_now w mode))) !! k = Some p) as Hk'.
    { simpl. rewrite lookup_insert_ne; [exact Hk |].
      intros Heq. symmetry in Heq. revert Heq. eapply Inv_fresh; eauto. }
    cbv zeta. destruct (i_entries p) as [es |] eqn:Hes; simpl; [| exact HI].
    eapply Inv_push; eassumption.
  - rewrite (mkfile_spec _ _ _ _ _ _ p) by (eauto using Inv_fresh).
    assert (Inv W (alloc_world w (mkfile_inode Date_now w content mode))) as HI
      by (apply Inv_alloc; [exact IH | apply inode_okb_mkfile, Hm]).
    assert (inodes (fs (alloc_world w (mkfile_inode Date_now w content mode))) !! k = Some p) as Hk'.
    { simpl. rewrite lookup_insert_ne; [exact Hk |].
      intros Heq. symmetry in Heq. revert Heq. eapply Inv_fresh; eauto. }
    cbv zeta. destruct (i_entries p) as [es |] eqn:Hes; simpl; [| exact HI].
    eapply Inv_push; eassumption.
Qed.

(** ** Resolution does not throw where directories have entries *)

Lemma lookup_loop_falsy_or_inode (fs0 : UnixFilesystem) (es : list DirectoryEntry) (nm : string) :
  falsy (lookup_loop fs0 es nm) = true ∨
  ∃ k, lookup_loop fs0 es nm = Obj k ∧ is_Some (inodes fs0 !! k).
Proof.
  induction es as [| e es IH]; simpl; [left; reflexivity |].
  destruct (String.eqb (name e) nm); [| exact IH].
  unfold inodes_get. destruct (inodes fs0 !! inum e) eqn:He; [right | left; reflexivity].
  exists (inum e). rewrite He. eauto.
Qed.

Lemma namei_loop_ok (fs0 : UnixFilesystem) (parts : list string) (k : Z) :
  dirs_have_entries fs0 → is_Some (inodes fs0 !! k) →
  ∃ r, namei_loop fs0 (Obj k) parts = Ok r ∧ null_or_inode fs0 r.
Proof.
  intros Hd. revert k. induction parts as [| part rest IH]; intros k [ino Hk].
  - exists (Obj k). split; [reflexivity |]. right. exists k. rewrite Hk. eauto.
  - simpl. unfold mbind, Res_bind. rewrite Hk.
    destruct (isDirectory ino) eqn:Hdir; simpl; [| exists Null; split; [reflexivity | left; reflexivity]].
    unfold _lookup, mbind, Res_bind. simpl. rewrite Hk, Hdir. simpl.
    destruct (Hd _ _ Hk Hdir) as [es ->].
    destruct (lookup_loop_falsy_or_inode fs0 es part) as [Hf | (k' & -> & Hk')].
    + rewrite Hf. exists Null. split; [reflexivity | left; reflexivity].
    + simpl. apply IH, Hk'.
Qed.

Lemma namei_ok (fs0 : UnixFilesystem) (path : PathArg) :
  dirs_have_entries fs0 → is_Some (inodes fs0 !! rootInum fs0) →
  ∃ r, namei fs0 path = Ok r ∧ null_or_inode fs0 r.
Proof.
  intros Hd Hroot.
  assert (∃ r, Ok Null = Ok r ∧ null_or_inode fs0 r) as Hnull
    by (exists Null; split; [reflexivity | left; reflexivity]).
  destruct path as [| | p]; simpl; try exact Hnull.
  destruct (String.eqb p ""); [exact Hnull |].
  unfold inodes_get. destruct Hroot as [ino Hroot]. rewrite Hroot.
  destruct (String.eqb p "/").
  - exists (Obj (rootInum fs0)). split; [reflexivity |]. right. exists (rootInum fs0).
    rewrite Hroot. eauto.
  - apply namei_loop_ok; [exact Hd | rewrite Hroot; eauto].
Qed.

Lemma Inv_dirs_have_entries (W : gset Z) (w : World) : Inv W w → dirs_have_entries (fs w).
Proof.
  intros (_ & _ & _ & Hok) k ino Hk Hdir. specialize (Hok _ _ Hk).
  unfold inode_okb in Hok. rewrite Hdir in Hok.
  destruct (i_entries ino); [eauto |].
  destruct (Z.eqb (i_number ino) k), (i_data ino); discriminate.
Qed.

Lemma Inv_root (W : gset Z) (w : World) : Inv W w → is_Some (inodes (fs w) !! rootInum (fs w)).
Proof. intros (-> & H1 & _). exact H1. Qed.


(** ** Path resolution and slashes *)

(** C1: every absolute path is resolved by walking, from the root, the parts
    that remain after splitting on '/' and dropping the empty pieces; hence
    absolute paths that differ only in repeated or trailing slashes resolve to
    the same result.  In particular, on the bootstrapped filesystem
    "//usr//games" resolves to the same inode as "/usr/games", and "/"
    resolves to the root inode. *)
Theorem namei_slash_collapse (Date_now : nat → Z) (fs0 : UnixFilesystem) :
  (∀ p, absolute p →
        namei fs0 (PStr p) = namei_loop fs0 (inodes_get fs0 (rootInum fs0)) (path_parts p)) ∧
  (∀ p q, same_up_to_slashes p q → namei fs0 (PStr p) = namei fs0 (PStr q)) ∧
  namei fs0 (PStr "/") = Ok (inodes_get fs0 (rootInum fs0)) ∧
  namei (fs (boot Date_now)) (PStr "//usr//games")
    = namei (fs (boot Date_now)) (PStr "/usr/games") ∧
  namei (fs (boot Date_now)) (PStr "/usr/games") = Ok (Obj 7) ∧
  namei (fs (boot Date_now)) (PStr "/") = Ok (Obj (rootInum (fs (boot Date_now)))).
Proof.
  split; [| split; [| split; [| split; [| split]]]].
  - intros p Hp. apply namei_walk, absolute_nonempty, Hp.
  - intros p q. apply same_up_to_slashes_namei.
  - reflexivity.
  - vm_compute. reflexivity.
  - vm_compute. reflexivity.
  - vm_compute. reflexivity.
Qed.

Lemma namei_slash_collapse_witness :
  absolute "/usr/games" ∧
  same_up_to_slashes "/usr/games" "//usr//games/" ∧
  namei (fs (boot tick_clock)) (PStr "/usr/games")
    = namei_loop (fs (boot tick_clock)) (Obj 1) ["usr"; "games"] ∧
  namei (fs (boot tick_clock)) (PStr "/usr/games")
    = namei (fs (boot tick_clock)) (PStr "//usr//games/").
Proof.
  assert (absolute "/usr/games") as Habs by (exists "usr/games"; reflexivity).
  assert (same_up_to_slashes "/usr/games" "//usr//games/") as Hsame.
  { apply rtc_l with "//usr/games".
    { left. split; [exact Habs |]. split; [exists "/usr/games"; reflexivity |].
      exact (slash_double "" "usr/games"). }
    apply rtc_l with "//usr//games".
    { left. split; [exists "/usr/games"; reflexivity |].
      split; [exists "/usr//games"; reflexivity |].
      exact (slash_double "//usr" "games"). }
    apply rtc_once. left.
    split; [exists "/usr//games"; reflexivity |].
    split; [exists "/usr//games/"; reflexivity |].
    exact (slash_trailing "//usr//games"). }
  destruct (namei_slash_collapse tick_clock (fs (boot tick_clock))) as (Hwalk & Hcollapse & _).
  split; [exact Habs |]. split; [exact Hsame |].
  split; [exact (Hwalk "/usr/games" Habs) | exact (Hcollapse _ _ Hsame)].
Defined.

(** ** Lookup in a directory *)

Lemma lookup_loop_first (fs0 : UnixFilesystem) (pre post : list DirectoryEntry)
    (e : DirectoryEntry) (nm : string) :
  (∀ x, x ∈ pre → name x ≠ nm) → name e = nm →
  lookup_loop fs0 (pre ++ e :: post) nm = inodes_get fs0 (inum e).
Proof.
  intros Hpre He. induction pre as [| x pre IH]; simpl.
  - rewrite He, String.eqb_refl. reflexivity.
  - destruct (String.eqb_spec (name x) nm) as [Heq | _].
    + exfalso. apply (Hpre x); [left | exact Heq].
    + apply IH. intros y Hy. apply Hpre. right. exact Hy.
Qed.

Lemma lookup_loop_none (fs0 : UnixFilesystem) (es : list DirectoryEntry) (nm : string) :
  (∀ x, x ∈ es → name x ≠ nm) → lookup_loop fs0 es nm = Null.
Proof.
  intros Hes. induction es as [| x es IH]; simpl; [reflexivity |].
  destruct (String.eqb_spec (name x) nm) as [Heq | _].
  - exfalso. apply (Hes x); [left | exact Heq].
  - apply IH. intros y Hy. apply Hes. right. exact Hy.
Qed.

(** C3: in a directory inode, [_lookup] returns the inode of the first entry
    whose name equals the name asked for, whatever entries come after it,
    entries with the same name included; names are compared for equality as
    strings, and when no entry carries the name the result is null. *)
Theorem lookup_first_match (fs0 : UnixFilesystem) (k : Z) (d : Inode) (nm : string)
    (pre post : list DirectoryEntry) (e : DirectoryEntry) :
  inodes fs0 !! k = Some d → isDirectory d = true →
  (i_entries d = Some (pre ++ e :: post)%list →
   (∀ x, x ∈ pre → name x ≠ nm) → name e = nm →
   _lookup fs0 (Obj k) nm = Ok (inodes_get fs0 (inum e))) ∧
  (i_entries d = Some pre → (∀ x, x ∈ pre → name x ≠ nm) →
   _lookup fs0 (Obj k) nm = Ok Null).
Proof.
  intros Hk Hd. split.
  - intros Hes Hpre He. unfold _lookup, mbind, Res_bind. simpl.
    rewrite Hk, Hd, Hes. simpl. f_equal. apply lookup_loop_first; assumption.
  - intros Hes Hpre. unfold _lookup, mbind, Res_bind. simpl.
    rewrite Hk, Hd, Hes. simpl. f_equal. apply lookup_loop_none; assumption.
Qed.

Lemma lookup_first_match_witness :
  ∃ d, inodes (fs two_bins) !! 1 = Some d ∧
       (name <$> default [] (i_entries d))
         = [("."); (".."); ("bin"); ("dev"); ("etc"); ("usr"); ("tmp"); ("bin")] ∧
       (inum <$> default [] (i_entries d)) = [1; 1; 2; 3; 4; 5; 6; 23] ∧
       _lookup (fs two_bins) (Obj 1) "bin" = Ok (inodes_get (fs two_bins) 2) ∧
       _lookup (fs two_bins) (Obj 1) "lib" = Ok Null.
Proof.
  pose (pre := [mkDirectoryEntry 1 "."; mkDirectoryEntry 1 ".."]).
  pose (post := [mkDirectoryEntry 3 "dev"; mkDirectoryEntry 4 "etc";
                 mkDirectoryEntry 5 "usr"; mkDirectoryEntry 6 "tmp";
                 mkDirectoryEntry 23 "bin"]).
  pose (e := mkDirectoryEntry 2 "bin").
  assert (∃ d, inodes (fs two_bins) !! 1 = Some d ∧ isDirectory d = true ∧
               i_entries d = Some (pre ++ e :: post)%list) as (d & Hk & Hdir & Hes).
  { eexists. split; [vm_compute; reflexivity |]. split; vm_compute; reflexivity. }
  exists d. split; [exact Hk |].
  rewrite Hes. split; [reflexivity |]. split; [reflexivity |].
  destruct (lookup_first_match (fs two_bins) 1 d "bin" pre post e Hk Hdir) as [Hfirst _].
  destruct (lookup_first_match (fs two_bins) 1 d "lib" (pre ++ e :: post)%list [] e Hk Hdir)
    as [_ Hnone].
  split.
  - apply Hfirst; [exact Hes | | reflexivity].
    intros x Hx. unfold pre in Hx.
    repeat (apply elem_of_cons in Hx as [-> | Hx]; [discriminate |]).
    apply elem_of_nil in Hx. contradiction.
  - apply Hnone; [exact Hes |].
    intros x Hx. unfold pre, post, e in Hx. simpl in Hx.
    repeat (apply elem_of_cons in Hx as [-> | Hx]; [discriminate |]).
    apply elem_of_nil in Hx. contradiction.
Defined.


(** ** Resolution along a prefix *)

Lemma namei_loop_app (fs0 : UnixFilesystem) (l1 l2 : list string) (k k' : Z) :
  namei_loop fs0 (Obj k) l1 = Ok (Obj k') →
  namei_loop fs0 (Obj k) (l1 ++ l2) = namei_loop fs0 (Obj k') l2.
Proof.
  revert k. induction l1 as [| part rest IH]; intros k; simpl.
  - intros [= ->]. reflexivity.
  - unfold mbind, Res_bind.
    destruct (inodes fs0 !! k) as [ino |]; [| discriminate].
    destruct (isDirectory ino); simpl; [| discriminate].
    destruct (_lookup fs0 (Obj k) part) as [[| | k''] | e]; simpl; try discriminate.
    apply IH.
Qed.

Lemma namei_extend (fs0 : UnixFilesystem) (x y : string) (k : Z) :
  absolute x → namei fs0 (PStr x) = Ok (Obj k) →
  namei fs0 (PStr (x ++ "/" ++ y)) = namei_loop fs0 (Obj k) (path_parts y).
Proof.
  intros Hx Hk.
  rewrite namei_walk in Hk by (apply absolute_nonempty, Hx).
  rewrite namei_walk by (destruct x; discriminate).
  rewrite path_parts_app.
  unfold inodes_get in *.
  destruct (inodes fs0 !! rootInum fs0).
  - apply namei_loop_app, Hk.
  - destruct (path_parts x); simpl in Hk; discriminate.
Qed.

Lemma namei_loop_not_dir (fs0 : UnixFilesystem) (k : Z) (ino : Inode) (part : string)
    (rest : list string) :
  inodes fs0 !! k = Some ino → isDirectory ino = false →
  namei_loop fs0 (Obj k) (part :: rest) = Ok Null.
Proof.
  intros Hk Hd. simpl. unfold mbind, Res_bind. rewrite Hk, Hd. reflexivity.
Qed.

Lemma namei_loop_no_match (fs0 : UnixFilesystem) (k : Z) (ino : Inode)
    (es : list DirectoryEntry) (part : string) (rest : list string) :
  inodes fs0 !! k = Some ino → i_entries ino = Some es →
  (∀ e, e ∈ es → name e ≠ part) →
  namei_loop fs0 (Obj k) (part :: rest) = Ok Null.
Proof.
  intros Hk Hes Hno. simpl. unfold mbind, Res_bind. rewrite Hk.
  destruct (isDirectory ino) eqn:Hd; [simpl | reflexivity].
  unfold _lookup, mbind, Res_bind. simpl. rewrite Hk, Hd, Hes. simpl.
  rewrite lookup_loop_none by exact Hno. reflexivity.
Qed.

(** ** Soft failure *)

(** C2: in every reachable state and for every path input (a string, null or
    nothing), [namei] returns without throwing, and what it returns is null
    or an inode of the table.  The empty string and a null or absent input
    give null; so does a path that continues below an inode that is not a
    directory, and a path one of whose segments matches no entry.  [readdir],
    [read], [stat] and [write] return without throwing as well; for a path
    that does not resolve they return null (false for [write], which then
    changes nothing), and so do [readdir] on a non-directory and [read] and
    [write] on a directory. *)
Theorem soft_failure (Date_now : nat → Z) (W : gset Z) (w : World)
    (path : PathArg) (content : string) :
  reach Date_now W w →
  (∃ r, namei (fs w) path = Ok r ∧ null_or_inode (fs w) r) ∧
  namei (fs w) (PStr "") = Ok Null ∧
  namei (fs w) PNull = Ok Null ∧
  namei (fs w) PUndefined = Ok Null ∧
  (∀ x y k ino,
     absolute x → namei (fs w) (PStr x) = Ok (Obj k) →
     inodes (fs w) !! k = Some ino → isDirectory ino = false →
     path_parts y ≠ [] →
     namei (fs w) (PStr (x ++ "/" ++ y)) = Ok Null) ∧
  (∀ x y k ino es part rest,
     absolute x → namei (fs w) (PStr x) = Ok (Obj k) →
     inodes (fs w) !! k = Some ino → i_entries ino = Some es →
     path_parts y = part :: rest → (∀ e, e ∈ es → name e ≠ part) →
     namei (fs w) (PStr (x ++ "/" ++ y)) = Ok Null) ∧
  (∃ r, readdir (fs w) path = Ok r) ∧
  (∃ r, read (fs w) path = Ok r) ∧
  (∃ r, stat (fs w) path = Ok r) ∧
  (∃ b, fst (write Date_now path content w) = Ok b) ∧
  (namei (fs w) path = Ok Null →
     readdir (fs w) path = Ok None ∧ read (fs w) path = Ok None ∧
     stat (fs w) path = Ok Null ∧
     write Date_now path content w = (Ok false, w)) ∧
  (∀ k ino,
     namei (fs w) path = Ok (Obj k) → inodes (fs w) !! k = Some ino →
     (isDirectory ino = false → readdir (fs w) path = Ok None) ∧
     (isDirectory ino = true →
        read (fs w) path = Ok None ∧
        write Date_now path content w = (Ok false, w))).
Proof.
  intros Hreach. pose proof (reach_Inv _ _ _ Hreach) as HI.
  pose proof (Inv_dirs_have_entries _ _ HI) as Hd.
  pose proof (Inv_root _ _ HI) as Hroot.
  destruct (namei_ok (fs w) path Hd Hroot) as (r & Hr & Hnull).
  split; [exists r; split; assumption |].
  split; [reflexivity |]. split; [reflexivity |]. split; [reflexivity |].
  split.
  { intros x y k ino Hx Hk Hino Hnd Hy.
    rewrite (namei_extend _ _ _ _ Hx Hk).
    destruct (path_parts y) as [| part rest]; [congruence |].
    eapply namei_loop_not_dir; eassumption. }
  split.
  { intros x y k ino es part rest Hx Hk Hino Hes Hy Hno.
    rewrite (namei_extend _ _ _ _ Hx Hk), Hy.
    eapply namei_loop_no_match; eassumption. }
  split.
  { unfold readdir, mbind, Res_bind. rewrite Hr.
    destruct Hnull as [-> | (k & -> & [ino Hk])]; [eauto |].
    simpl. rewrite Hk. destruct (isDirectory ino) eqn:Hdir; simpl; [| eauto].
    destruct (Hd _ _ Hk Hdir) as [es ->]. eauto. }
  split.
  { unfold read, mbind, Res_bind. rewrite Hr.
    destruct Hnull as [-> | (k & -> & [ino Hk])]; [eauto |].
    simpl. rewrite Hk. destruct (isDirectory ino); eauto. }
  split; [exists r; exact Hr |].
  split.
  { rewrite write_spec, Hr.
    destruct Hnull as [-> | (k & -> & [ino Hk])]; [simpl; eauto |].
    rewrite Hk. destruct (isDirectory ino); simpl; eauto. }
  split.
  { intros Hn. unfold readdir, read, stat. rewrite write_spec, Hn. simpl. auto. }
  intros k ino Hk Hino. split; intros Hdir.
  - unfold readdir, mbind, Res_bind. rewrite Hk. simpl. rewrite Hino, Hdir. reflexivity.
  - unfold read, mbind, Res_bind. rewrite write_spec, Hk. simpl. rewrite Hino, Hdir. auto.
Qed.

Lemma soft_failure_witness :
  reach tick_clock ∅ (boot tick_clock) ∧
  namei (fs (boot tick_clock)) (PStr "/etc/passwd/x") = Ok Null ∧
  namei (fs (boot tick_clock)) (PStr "/etc/nothing/here") = Ok Null ∧
  readdir (fs (boot tick_clock)) (PStr "/etc/passwd/x") = Ok None ∧
  read (fs (boot tick_clock)) (PStr "/etc/passwd/x") = Ok None ∧
  stat (fs (boot tick_clock)) (PStr "/etc/passwd/x") = Ok Null ∧
  write tick_clock (PStr "/etc/passwd/x") "data" (boot tick_clock)
    = (Ok false, boot tick_clock).
Proof.
  pose proof (reach_boot tick_clock) as Hreach.
  destruct (soft_failure tick_clock ∅ (boot tick_clock) (PStr "/etc/passwd/x") "data" Hreach)
    as (_ & _ & _ & _ & Hnotdir & Hnomatch & _ & _ & _ & _ & Hneg & _).
  assert (absolute "/etc/passwd") as Habs1 by (exists "etc/passwd"; reflexivity).
  assert (absolute "/etc") as Habs2 by (exists "etc"; reflexivity).
  assert (namei (fs (boot tick_clock)) (PStr "/etc/passwd/x") = Ok Null) as H1.
  { assert (∃ ino, inodes (fs (boot tick_clock)) !! 14 = Some ino ∧ isDirectory ino = false)
      as (ino & Hino & Hnd)
      by (eexists; split; [vm_compute; reflexivity | vm_compute; reflexivity]).
    apply (Hnotdir "/etc/passwd" "x" 14 ino Habs1); [vm_compute; reflexivity | exact Hino | exact Hnd |].
    vm_compute. discriminate. }
  assert (namei (fs (boot tick_clock)) (PStr "/etc/nothing/here") = Ok Null) as H2.
  { assert (∃ ino, inodes (fs (boot tick_clock)) !! 4 = Some ino ∧
                   i_entries ino = Some [mkDirectoryEntry 4 "."; mkDirectoryEntry 1 "..";
                                         mkDirectoryEntry 14 "passwd"; mkDirectoryEntry 15 "motd"])
      as (ino & Hino & Hes)
      by (eexists; split; [vm_compute; reflexivity | vm_compute; reflexivity]).
    eapply (Hnomatch "/etc" "nothing/here" 4 ino _ "nothing" ["here"] Habs2);
      [vm_compute; reflexivity | exact Hino | exact Hes | vm_compute; reflexivity |].
    intros e He.
    repeat (apply elem_of_cons in He as [-> | He]; [discriminate |]).
    apply elem_of_nil in He. contradiction. }
  destruct (Hneg H1) as (Hrd & Hread & Hstat & Hwrite).
  exact (conj Hreach (conj H1 (conj H2 (conj Hrd (conj Hread (conj Hstat Hwrite)))))).
Defined.


(** ** Resolution after a field update *)

Section Altered.

Variables (f : Inode → Inode) (k : Z) (fs0 : UnixFilesystem).
Hypothesis Hshape : keeps_shape f.

Lemma inodes_get_altered (j : Z) : inodes_get (altered f k fs0) j = inodes_get fs0 j.
Proof.
  unfold inodes_get, altered. simpl. rewrite lookup_alter.
  destruct (decide (k = j)) as [<- |]; [| reflexivity].
  destruct (inodes fs0 !! k); reflexivity.
Qed.

Lemma lookup_loop_altered (es : list DirectoryEntry) (nm : string) :
  lookup_loop (altered f k fs0) es nm = lookup_loop fs0 es nm.
Proof.
  induction es as [| e es IH]; simpl; [reflexivity |].
  rewrite IH, inodes_get_altered. reflexivity.
Qed.

Lemma isDirectory_keeps_shape (ino : Inode) : isDirectory (f ino) = isDirectory ino.
Proof. unfold isDirectory. destruct (Hshape ino) as [-> _]. reflexivity. Qed.

Lemma _lookup_altered (dir : JsRef) (nm : string) :
  _lookup (altered f k fs0) dir nm = _lookup fs0 dir nm.
Proof.
  unfold _lookup, mbind, Res_bind, deref.
  destruct dir as [| | j]; try reflexivity.
  change (inodes (altered f k fs0)) with (alter f k (inodes fs0)).
  rewrite lookup_alter.
  remember (altered f k fs0) as fs1 eqn:Hfs1.
  destruct (decide (k = j)) as [<- |].
  - destruct (inodes fs0 !! k) as [ino |]; simpl; [| reflexivity].
    rewrite isDirectory_keeps_shape. destruct (Hshape ino) as [_ ->].
    subst fs1. destruct (isDirectory ino), (i_entries ino); simpl; try reflexivity.
    rewrite lookup_loop_altered. reflexivity.
  - destruct (inodes fs0 !! j) as [ino |]; simpl; [| reflexivity].
    subst fs1. destruct (isDirectory ino), (i_entries ino); simpl; try reflexivity.
    rewrite lookup_loop_altered. reflexivity.
Qed.

Lemma deref_altered_isDirectory (current : JsRef) :
  isDirectory <$> deref (altered f k fs0) current = isDirectory <$> deref fs0 current.
Proof.
  destruct current as [| | j]; try reflexivity.
  unfold deref. change (inodes (altered f k fs0)) with (alter f k (inodes fs0)).
  rewrite lookup_alter.
  destruct (decide (k = j)) as [<- |]; [| reflexivity].
  destruct (inodes fs0 !! k) as [ino |]; simpl; [| reflexivity].
  rewrite isDirectory_keeps_shape. reflexivity.
Qed.

Lemma namei_loop_altered (parts : list string) (current : JsRef) :
  namei_loop (altered f k fs0) current parts = namei_loop fs0 current parts.
Proof.
  revert current. induction parts as [| part rest IH]; intros current; [reflexivity |].
  simpl. rewrite _lookup_altered.
  pose proof (deref_altered_isDirectory current) as Hdir.
  unfold mbind, Res_bind.
  destruct (deref (altered f k fs0) current) as [c' | e'],
           (deref fs0 current) as [c | e]; simpl in Hdir; try discriminate.
  - injection Hdir as ->.
    destruct (isDirectory c); simpl; [| reflexivity].
    destruct (_lookup fs0 current part) as [next | e]; [| reflexivity].
    destruct (falsy next); [reflexivity | apply IH].
  - destruct e', e. reflexivity.
Qed.

Lemma namei_altered (path : PathArg) :
  namei (altered f k fs0) path = namei fs0 path.
Proof.
  destruct path as [| | p]; try reflexivity.
  unfold namei. rewrite namei_loop_altered, inodes_get_altered. reflexivity.
Qed.

End Altered.

Lemma written_inode_keeps_shape (content : string) (t : Z) :
  keeps_shape (written_inode content t).
Proof. intros ino. split; reflexivity. Qed.

Lemma isRegular_not_isDirectory (ino : Inode) : isRegular ino = true → isDirectory ino = false.
Proof.
  unfold isRegular, isDirectory. intros H. apply Z.eqb_eq in H. rewrite H. reflexivity.
Qed.

(** ** Writing and reading back *)

(** C4: when path P resolves to a regular file, [write(P, D)] returns true;
    it leaves in the inode the payload D, the size [D.length] and the clock
    reading made by the call as modify time, leaves every other inode as it
    was, and a [read(P)] made afterwards returns exactly D. *)
Theorem write_then_read (Date_now : nat → Z) (w : World) (path : PathArg)
    (content : string) (k : Z) (ino : Inode) :
  namei (fs w) path = Ok (Obj k) → inodes (fs w) !! k = Some ino →
  isRegular ino = true →
  ∃ w' ino',
    write Date_now path content w = (Ok true, w') ∧
    inodes (fs w') !! k = Some ino' ∧
    i_data ino' = Some content ∧
    i_size ino' = Z.of_nat (String.length content) ∧
    i_mtime ino' = Date_now (clock_reads w) ∧
    i_mode ino' = i_mode ino ∧ i_entries ino' = i_entries ino ∧
    (∀ j, j ≠ k → inodes (fs w') !! j = inodes (fs w) !! j) ∧
    read (fs w') path = Ok (Some content).
Proof.
  intros Hk Hino Hreg.
  pose proof (isRegular_not_isDirectory _ Hreg) as Hnd.
  exists (write_world Date_now k content w),
         (written_inode content (Date_now (clock_reads w)) ino).
  split; [rewrite write_spec, Hk, Hino, Hnd; reflexivity |].
  split; [simpl; rewrite lookup_alter_eq, Hino; reflexivity |].
  do 5 (split; [reflexivity |]).
  split; [intros j Hj; simpl; apply lookup_alter_ne; congruence |].
  change (fs (write_world Date_now k content w))
    with (altered (written_inode content (Date_now (clock_reads w))) k (fs w)).
  unfold read. rewrite namei_altered by apply written_inode_keeps_shape.
  rewrite Hk. unfold mbind, Res_bind, deref.
  change (inodes (altered ?g k (fs w))) with (alter g k (inodes (fs w))).
  rewrite lookup_alter_eq, Hino. simpl.
  change (isDirectory (written_inode content (Date_now (clock_reads w)) ino))
    with (isDirectory ino).
  rewrite Hnd. reflexivity.
Qed.

Lemma write_then_read_witness :
  ∃ w', write tick_clock (PStr "/etc/motd") "hello" (boot tick_clock) = (Ok true, w') ∧
        read (fs w') (PStr "/etc/motd") = Ok (Some "hello").
Proof.
  assert (∃ ino, inodes (fs (boot tick_clock)) !! 15 = Some ino ∧ isRegular ino = true)
    as (ino & Hino & Hreg)
    by (eexists; split; [vm_compute; reflexivity | vm_compute; reflexivity]).
  assert (namei (fs (boot tick_clock)) (PStr "/etc/motd") = Ok (Obj 15)) as Hk
    by (vm_compute; reflexivity).
  destruct (write_then_read tick_clock (boot tick_clock) (PStr "/etc/motd") "hello" 15 ino
              Hk Hino Hreg) as (w' & ino' & Hw & _ & _ & _ & _ & _ & _ & _ & Hread).
  exists w'. exact (conj Hw Hread).
Defined.

(** C5: when the path does not resolve (the resolution gives null or
    undefined) or resolves to a directory, [write] returns false and the
    state after the call is the state before it: the table, with every
    inode's payload, size and modify time, the next identifier and the clock
    readings are unchanged. *)
Theorem write_rejected (Date_now : nat → Z) (w : World) (path : PathArg)
    (content : string) (r : JsRef) :
  namei (fs w) path = Ok r →
  (falsy r = true ∨
   ∃ k ino, r = Obj k ∧ inodes (fs w) !! k = Some ino ∧ isDirectory ino = true) →
  write Date_now path content w = (Ok false, w) ∧
  inodes (fs (snd (write Date_now path content w))) = inodes (fs w) ∧
  nextInum (fs (snd (write Date_now path content w))) = nextInum (fs w).
Proof.
  intros Hr Hcase.
  assert (write Date_now path content w = (Ok false, w)) as Hw.
  { rewrite write_spec, Hr.
    destruct Hcase as [Hf | (k & ino & -> & Hino & Hd)].
    - destruct r; [reflexivity | reflexivity | discriminate].
    - rewrite Hino, Hd. reflexivity. }
  rewrite Hw. auto.
Qed.

Lemma write_rejected_witness :
  write tick_clock (PStr "/no/such/file") "data" (boot tick_clock)
    = (Ok false, boot tick_clock) ∧
  write tick_clock (PStr "/usr/games") "data" (boot tick_clock)
    = (Ok false, boot tick_clock).
Proof.
  split.
  - refine (proj1 (write_rejected tick_clock (boot tick_clock) (PStr "/no/such/file")
                     "data" Null _ _)).
    + vm_compute. reflexivity.
    + left. reflexivity.
  - assert (∃ ino, inodes (fs (boot tick_clock)) !! 7 = Some ino ∧ isDirectory ino = true)
      as (ino & Hino & Hd)
      by (eexists; split; [vm_compute; reflexivity | vm_compute; reflexivity]).
    refine (proj1 (write_rejected tick_clock (boot tick_clock) (PStr "/usr/games")
                     "data" (Obj 7) _ _)).
    + vm_compute. reflexivity.
    + right. exists 7, ino. split; [reflexivity |]. exact (conj Hino Hd).
Defined.

(** ** The bootstrapped tree *)

(** C6 as amended: on the bootstrapped filesystem, [readdir("/dev")] returns
    exactly five entries: "." (the directory itself) and ".." (the root),
    then the three devices "tty", "null" and "mem" in creation order. *)
Theorem readdir_dev (Date_now : nat → Z) :
  readdir (fs (boot Date_now)) (PStr "/dev")
  = Ok (Some [(".", Obj 3); ("..", Obj 1); ("tty", Obj 11); ("null", Obj 12);
              ("mem", Obj 13)]).
Proof. vm_compute. reflexivity. Qed.

(** C6 as stated fails: the sequence returned has five entries, not three,
    and two of the names are "." and "..". *)
Lemma readdir_dev_counterexample :
  ¬ (∃ es, readdir (fs (boot tick_clock)) (PStr "/dev") = Ok (Some es) ∧
           List.length es = 3%nat).
Proof.
  intros (es & Hes & Hlen). vm_compute in Hes.
  injection Hes as <-. discriminate Hlen.
Qed.


(** ** Kinds, payloads and entries *)

Lemma isCharDevice_kind (ino : Inode) :
  isCharDevice ino = true → isDirectory ino = false ∧ isRegular ino = false.
Proof.
  unfold isCharDevice, isDirectory, isRegular. intros H.
  apply Z.eqb_eq in H. rewrite H. split; reflexivity.
Qed.

Lemma inode_okb_number (b : bool) (k : Z) (ino : Inode) :
  inode_okb b k ino = true → i_number ino = k.
Proof.
  unfold inode_okb. intros H. apply andb_true_iff in H as [H _].
  apply Z.eqb_eq, H.
Qed.

Lemma inode_okb_directory (b : bool) (k : Z) (ino : Inode) :
  inode_okb b k ino = true → isDirectory ino = true →
  i_data ino = None ∧ is_Some (i_entries ino).
Proof.
  unfold inode_okb. intros H Hd. rewrite Hd in H.
  apply andb_true_iff in H as [_ H].
  destruct (i_data ino), (i_entries ino); try discriminate. eauto.
Qed.

Lemma inode_okb_not_directory (b : bool) (k : Z) (ino : Inode) :
  inode_okb b k ino = true → isDirectory ino = false → i_entries ino = None.
Proof.
  unfold inode_okb. intros H Hd. rewrite Hd in H.
  apply andb_true_iff in H as [_ H].
  destruct (i_entries ino); [discriminate | reflexivity].
Qed.

Lemma inode_okb_regular (b : bool) (k : Z) (ino : Inode) :
  inode_okb b k ino = true → isRegular ino = true →
  ∃ d, i_data ino = Some d ∧ i_size ino = Z.of_nat (String.length d).
Proof.
  unfold inode_okb. intros H Hr.
  rewrite (isRegular_not_isDirectory _ Hr), Hr in H.
  apply andb_true_iff in H as [_ H].
  destruct (i_entries ino); [discriminate |].
  destruct (i_data ino) as [d |]; [| discriminate].
  exists d. split; [reflexivity | apply Z.eqb_eq, H].
Qed.

Lemma inode_okb_unwritten_device (k : Z) (ino : Inode) :
  inode_okb false k ino = true → isCharDevice ino = true → i_data ino = None.
Proof.
  unfold inode_okb. intros H Hc.
  destruct (isCharDevice_kind _ Hc) as [Hd Hr]. rewrite Hd, Hr in H.
  apply andb_true_iff in H as [_ H].
  destruct (i_entries ino); [discriminate |].
  destruct (i_data ino); [discriminate | reflexivity].
Qed.

Lemma reach_inode_okb (Date_now : nat → Z) (W : gset Z) (w : World) (k : Z) (ino : Inode) :
  reach Date_now W w → inodes (fs w) !! k = Some ino →
  inode_okb (bool_decide (k ∈ W)) k ino = true.
Proof.
  intros Hreach Hk. destruct (reach_Inv _ _ _ Hreach) as (_ & _ & _ & Hok).
  apply (Hok _ _ Hk).
Qed.

(** C7 as amended: in every reachable state a directory-kind inode holds no
    payload, an inode that is not directory-kind holds no entries, and a
    character-device inode holds no entries and, as long as no [write] has
    succeeded on it, no payload. *)
Theorem kind_exclusive (Date_now : nat → Z) (W : gset Z) (w : World) (k : Z) (ino : Inode) :
  reach Date_now W w → inodes (fs w) !! k = Some ino →
  (isDirectory ino = true → i_data ino = None) ∧
  (isDirectory ino = false → i_entries ino = None) ∧
  (isCharDevice ino = true → i_entries ino = None ∧ (k ∉ W → i_data ino = None)).
Proof.
  intros Hreach Hk. pose proof (reach_inode_okb _ _ _ _ _ Hreach Hk) as Hok.
  split; [| split].
  - intros Hd. apply (inode_okb_directory _ _ _ Hok Hd).
  - intros Hd. apply (inode_okb_not_directory _ _ _ Hok Hd).
  - intros Hc. destruct (isCharDevice_kind _ Hc) as [Hd _].
    split; [apply (inode_okb_not_directory _ _ _ Hok Hd) |].
    intros HW. rewrite bool_decide_false in Hok by exact HW.
    apply (inode_okb_unwritten_device _ _ Hok Hc).
Qed.

Lemma write_target_dev_null :
  write_target tick_clock (boot tick_clock) (PStr "/dev/null") "x" = {[ 12 ]}.
Proof. vm_compute. reflexivity. Qed.

Lemma reach_dev_null_written : reach tick_clock {[ 12 ]} dev_null_written.
Proof.
  rewrite <- (union_empty_l_L {[ 12 ]}), <- write_target_dev_null.
  apply reach_write, reach_boot.
Qed.

Lemma kind_exclusive_witness :
  reach tick_clock {[ 12 ]} dev_null_written ∧
  ∃ ino, inodes (fs dev_null_written) !! 11 = Some ino ∧
         isCharDevice ino = true ∧ i_entries ino = None ∧ i_data ino = None.
Proof.
  split; [exact reach_dev_null_written |].
  assert (∃ ino, inodes (fs dev_null_written) !! 11 = Some ino ∧ isCharDevice ino = true)
    as (ino & Hino & Hc)
    by (eexists; split; [vm_compute; reflexivity | vm_compute; reflexivity]).
  destruct (kind_exclusive tick_clock _ dev_null_written 11 ino
              reach_dev_null_written Hino) as (_ & _ & Hdev).
  destruct (Hdev Hc) as [Hes Hdata].
  exists ino. split; [exact Hino |]. split; [exact Hc |]. split; [exact Hes |].
  apply Hdata. rewrite elem_of_singleton. discriminate.
Defined.

(** C7 as stated fails: after [write("/dev/null", "x")] on the bootstrapped
    filesystem, which returns true, the character-device inode 12 holds the
    payload "x". *)
Lemma kind_exclusive_counterexample :
  fst (write tick_clock (PStr "/dev/null") "x" (boot tick_clock)) = Ok true ∧
  reach tick_clock {[ 12 ]} dev_null_written ∧
  ∃ ino, inodes (fs dev_null_written) !! 12 = Some ino ∧
         isCharDevice ino = true ∧ i_data ino = Some "x".
Proof.
  split; [vm_compute; reflexivity |].
  split; [exact reach_dev_null_written |].
  eexists. split; [vm_compute; reflexivity |]. split; vm_compute; reflexivity.
Qed.

(** C8: in every reachable state, every regular-file inode has a payload and
    its recorded size is the length of that payload.  The reachable states
    are closed under [_mkfile] and under [write], so the property holds after
    the one and is preserved by the other. *)
Theorem regular_size (Date_now : nat → Z) (W : gset Z) (w : World) (k : Z) (ino : Inode) :
  reach Date_now W w → inodes (fs w) !! k = Some ino → isRegular ino = true →
  ∃ d, i_data ino = Some d ∧ i_size ino = Z.of_nat (String.length d).
Proof.
  intros Hreach Hk Hr.
  apply (inode_okb_regular _ _ _ (reach_inode_okb _ _ _ _ _ Hreach Hk) Hr).
Qed.

Lemma reach_hosts_made : reach tick_clock ∅ hosts_made.
Proof.
  apply reach_mkfile; [apply reach_boot | vm_compute; eauto | reflexivity].
Qed.

Lemma reach_hosts_written : reach tick_clock {[ 23 ]} hosts_written.
Proof.
  assert (write_target tick_clock hosts_made (PStr "/etc/hosts") "127.0.0.1 localhost"
          = {[ 23 ]}) as Ht by (vm_compute; reflexivity).
  rewrite <- (union_empty_l_L {[ 23 ]}), <- Ht.
  apply reach_write, reach_hosts_made.
Qed.

Lemma regular_size_witness :
  (∃ ino d, inodes (fs hosts_made) !! 23 = Some ino ∧ isRegular ino = true ∧
            i_data ino = Some d ∧ i_size ino = Z.of_nat (String.length d)) ∧
  (∃ ino d, inodes (fs hosts_written) !! 23 = Some ino ∧ isRegular ino = true ∧
            i_data ino = Some d ∧ i_size ino = Z.of_nat (String.length d)).
Proof.
  split.
  - assert (∃ ino, inodes (fs hosts_made) !! 23 = Some ino ∧ isRegular ino = true)
      as (ino & Hino & Hr)
      by (eexists; split; [vm_compute; reflexivity | vm_compute; reflexivity]).
    destruct (regular_size tick_clock ∅ hosts_made 23 ino reach_hosts_made Hino Hr)
      as (d & Hd & Hsize).
    exists ino, d. exact (conj Hino (conj Hr (conj Hd Hsize))).
  - assert (∃ ino, inodes (fs hosts_written) !! 23 = Some ino ∧ isRegular ino = true)
      as (ino & Hino & Hr)
      by (eexists; split; [vm_compute; reflexivity | vm_compute; reflexivity]).
    destruct (regular_size tick_clock {[ 23 ]} hosts_written 23 ino reach_hosts_written Hino Hr)
      as (d & Hd & Hsize).
    exists ino, d. exact (conj Hino (conj Hr (conj Hd Hsize))).
Defined.

(** ** Reading a device *)

(** C10: in every reachable state, when the path resolves to a
    character-device inode on which no [write] has succeeded, [read] returns
    null, although the path resolves and the inode is not a directory: the
    inode holds no payload. *)
Theorem read_unwritten_device (Date_now : nat → Z) (W : gset Z) (w : World)
    (path : PathArg) (k : Z) (ino : Inode) :
  reach Date_now W w →
  namei (fs w) path = Ok (Obj k) → inodes (fs w) !! k = Some ino →
  isCharDevice ino = true → k ∉ W →
  isDirectory ino = false ∧ read (fs w) path = Ok None.
Proof.
  intros Hreach Hk Hino Hc HW.
  pose proof (reach_inode_okb _ _ _ _ _ Hreach Hino) as Hok.
  rewrite bool_decide_false in Hok by exact HW.
  destruct (isCharDevice_kind _ Hc) as [Hd _].
  split; [exact Hd |].
  unfold read, mbind, Res_bind. rewrite Hk. simpl. rewrite Hino, Hd.
  rewrite (inode_okb_unwritten_device _ _ Hok Hc). reflexivity.
Qed.

Lemma read_unwritten_device_witness :
  namei (fs dev_null_written) (PStr "/dev/tty") = Ok (Obj 11) ∧
  read (fs dev_null_written) (PStr "/dev/tty") = Ok None.
Proof.
  assert (namei (fs dev_null_written) (PStr "/dev/tty") = Ok (Obj 11)) as Hk
    by (vm_compute; reflexivity).
  split; [exact Hk |].
  assert (∃ ino, inodes (fs dev_null_written) !! 11 = Some ino ∧ isCharDevice ino = true)
    as (ino & Hino & Hc)
    by (eexists; split; [vm_compute; reflexivity | vm_compute; reflexivity]).
  refine (proj2 (read_unwritten_device tick_clock {[ 12 ]} dev_null_written (PStr "/dev/tty")
                   11 ino reach_dev_null_written Hk Hino Hc _)).
  rewrite elem_of_singleton. discriminate.
Defined.


(** ** Making a directory *)

(** C9 as amended: [_mkdir(parent, name)] has no check of its parent.  In
    every reachable state and for every parent inode of the table it first
    allocates a new directory inode under the next identifier, whose entry
    list is "." (the new inode) and ".." (the parent).  When the parent is
    not directory-kind the call then throws a TypeError, the parent is as it
    was and the new inode stays in the table, linked from nowhere; when the
    parent is directory-kind the call returns the new inode and has appended
    to the parent's entries the pair of the new identifier and the first 14
    code units of the name.  All other inodes are as they were. *)
Theorem mkdir_outcome (Date_now : nat → Z) (W : gset Z) (w : World) (k : Z) (p : Inode)
    (nm : string) :
  reach Date_now W w → inodes (fs w) !! k = Some p →
  ∃ dir,
    inodes (fs w) !! nextInum (fs w) = None ∧
    inodes (fs (snd (_mkdir Date_now (Obj k) nm w))) !! nextInum (fs w) = Some dir ∧
    isDirectory dir = true ∧
    i_entries dir = Some [mkDirectoryEntry (nextInum (fs w)) ".";
                          mkDirectoryEntry k ".."] ∧
    nextInum (fs (snd (_mkdir Date_now (Obj k) nm w))) = nextInum (fs w) + 1 ∧
    (∀ j, j ≠ nextInum (fs w) → j ≠ k →
          inodes (fs (snd (_mkdir Date_now (Obj k) nm w))) !! j = inodes (fs w) !! j) ∧
    (isDirectory p = false →
       fst (_mkdir Date_now (Obj k) nm w) = Throw TypeError ∧
       inodes (fs (snd (_mkdir Date_now (Obj k) nm w))) !! k = Some p) ∧
    (isDirectory p = true →
       ∃ es, i_entries p = Some es ∧
             fst (_mkdir Date_now (Obj k) nm w) = Ok (Obj (nextInum (fs w))) ∧
             inodes (fs (snd (_mkdir Date_now (Obj k) nm w))) !! k
             = Some (set_i_entries
                       (es ++ [mkDirectoryEntry (nextInum (fs w)) (String.substring 0 14 nm)])
                       p)).
Proof.
  intros Hreach Hk. pose proof (reach_Inv _ _ _ Hreach) as HI.
  pose proof (reach_inode_okb _ _ _ _ _ Hreach Hk) as Hok.
  assert (k ≠ nextInum (fs w)) as Hne by (eapply Inv_fresh; eauto).
  assert (inodes (fs w) !! nextInum (fs w) = None) as Hfresh.
  { destruct HI as (_ & _ & Hf & _).
    destruct (inodes (fs w) !! nextInum (fs w)) eqn:Hn; [| reflexivity].
    assert (nextInum (fs w) < nextInum (fs w)) by (apply Hf; eauto). lia. }
  rewrite (mkdir_spec _ _ _ _ p Hk Hne). cbv zeta.
  exists (mkdir_inode Date_now w p).
  split; [exact Hfresh |].
  assert (i_entries (mkdir_inode Date_now w p)
          = Some [mkDirectoryEntry (nextInum (fs w)) "."; mkDirectoryEntry k ".."]) as Hdir.
  { unfold mkdir_inode. simpl. rewrite (inode_okb_number _ _ _ Hok). reflexivity. }
  destruct (isDirectory p) eqn:Hd.
  - destruct (inode_okb_directory _ _ _ Hok Hd) as [_ [es Hes]]. rewrite Hes. simpl.
    split; [rewrite lookup_alter_ne by exact Hne; apply lookup_insert_eq |].
    split; [reflexivity |]. split; [exact Hdir |]. split; [reflexivity |].
    split.
    { intros j Hj1 Hj2. rewrite lookup_alter_ne by congruence.
      apply lookup_insert_ne. congruence. }
    split; [discriminate |]. intros _. exists es.
    split; [reflexivity |]. split; [reflexivity |].
    rewrite lookup_alter_eq, lookup_insert_ne by congruence. rewrite Hk. reflexivity.
  - rewrite (inode_okb_not_directory _ _ _ Hok Hd). simpl.
    split; [apply lookup_insert_eq |].
    split; [reflexivity |]. split; [exact Hdir |]. split; [reflexivity |].
    split; [intros j Hj1 Hj2; apply lookup_insert_ne; congruence |].
    split; [| discriminate]. intros _.
    split; [reflexivity |]. rewrite lookup_insert_ne by congruence. exact Hk.
Qed.

Lemma mkdir_outcome_witness :
  (∃ dir d,
     fst long_mkdir = Ok (Obj 23) ∧
     inodes (fs (snd long_mkdir)) !! 23 = Some dir ∧
     i_entries dir = Some [mkDirectoryEntry 23 "."; mkDirectoryEntry 1 ".."] ∧
     inodes (fs (snd long_mkdir)) !! 1 = Some d ∧
     last (default [] (i_entries d)) = Some (mkDirectoryEntry 23 "a_name_longer_")) ∧
  (∃ dir,
     fst tty_mkdir = Throw TypeError ∧
     inodes (fs (snd tty_mkdir)) !! 23 = Some dir ∧
     i_entries dir = Some [mkDirectoryEntry 23 "."; mkDirectoryEntry 11 ".."]).
Proof.
  split.
  - assert (∃ p, inodes (fs (boot tick_clock)) !! 1 = Some p ∧ isDirectory p = true)
      as (p & Hp & Hd)
      by (eexists; split; [vm_compute; reflexivity | vm_compute; reflexivity]).
    destruct (mkdir_outcome tick_clock ∅ (boot tick_clock) 1 p long_name
                (reach_boot tick_clock) Hp)
      as (dir & _ & Hdir & _ & Hes & _ & _ & _ & Hcase).
    destruct (Hcase Hd) as (es & Hpes & Hres & Hparent).
    exists dir, (set_i_entries (es ++ [mkDirectoryEntry 23 "a_name_longer_"]) p).
    split; [exact Hres |]. split; [exact Hdir |]. split; [exact Hes |].
    split; [exact Hparent |].
    simpl. apply last_snoc.
  - assert (∃ p, inodes (fs (boot tick_clock)) !! 11 = Some p ∧ isDirectory p = false)
      as (p & Hp & Hd)
      by (eexists; split; [vm_compute; reflexivity | vm_compute; reflexivity]).
    destruct (mkdir_outcome tick_clock ∅ (boot tick_clock) 11 p "x"
                (reach_boot tick_clock) Hp)
      as (dir & _ & Hdir & _ & Hes & _ & _ & Hcase & _).
    destruct (Hcase Hd) as (Hres & _).
    exists dir. split; [exact Hres |]. split; [exact Hdir | exact Hes].
Defined.

(** C9 as stated fails twice.  Under the character device /dev/tty the call
    throws a TypeError only after it has allocated the directory inode 23,
    which stays in the table while the next identifier has moved on; and under
    the root, a name of 21 code units is appended cut to its first 14, so no
    entry of the root carries the name that was given. *)
Lemma mkdir_counterexample :
  (fst tty_mkdir = Throw TypeError ∧
   inodes (fs (boot tick_clock)) !! 23 = None ∧
   (∃ dir, inodes (fs (snd tty_mkdir)) !! 23 = Some dir ∧ isDirectory dir = true) ∧
   nextInum (fs (snd tty_mkdir)) = nextInum (fs (boot tick_clock)) + 1) ∧
  (fst long_mkdir = Ok (Obj 23) ∧
   ∃ d es, inodes (fs (snd long_mkdir)) !! 1 = Some d ∧ i_entries d = Some es ∧
           last es = Some (mkDirectoryEntry 23 "a_name_longer_") ∧
           ¬ (∃ e, e ∈ es ∧ name e = long_name)).
Proof.
  split.
  - split; [vm_compute; reflexivity |]. split; [vm_compute; reflexivity |].
    split; [| vm_compute; reflexivity].
    eexists. split; [vm_compute; reflexivity | vm_compute; reflexivity].
  - split; [vm_compute; reflexivity |].
    eexists. eexists. split; [vm_compute; reflexivity |].
    split; [vm_compute; reflexivity |]. split; [vm_compute; reflexivity |].
    intros (e & He & Hname).
    repeat (apply elem_of_cons in He as [-> | He]; [discriminate Hname |]).
    apply elem_of_nil in He. exact He.
Qed.


(** ** Entries and their names *)

Lemma substring_length_le (m : nat) (s : string) :
  (String.length (String.substring 0 m s) ≤ m)%nat.
Proof.
  revert s. induction m as [| m IH]; intros [| c s]; simpl; try lia.
  specialize (IH s). lia.
Qed.

Lemma substring_short (m : nat) (s : string) :
  (String.length s ≤ m)%nat → String.substring 0 m s = s.
Proof.
  revert s. induction m as [| m IH]; intros [| c s]; simpl; try reflexivity; try lia.
  intros H. rewrite IH by lia. reflexivity.
Qed.

Lemma entry_okb_new (n i : Z) (nm : string) :
  1 ≤ i < n → entry_okb n (new_DirectoryEntry i nm) = true.
Proof.
  intros Hi. unfold entry_okb, new_DirectoryEntry. simpl.
  rewrite !andb_true_iff, Z.leb_le, Z.ltb_lt, Nat.leb_le.
  split; [lia | apply substring_length_le].
Qed.

Lemma entry_okb_mono (n n' : Z) (e : DirectoryEntry) :
  (n ≤ n')%Z → entry_okb n e = true → entry_okb n' e = true.
Proof.
  unfold entry_okb. rewrite !andb_true_iff, !Z.leb_le, !Z.ltb_lt.
  intros Hn [[H1 H2] H3]. repeat split; [lia | lia | exact H3].
Qed.

Lemma tree_okb_mono (n n' k : Z) (ino : Inode) :
  (n ≤ n')%Z → tree_okb n k ino = true → tree_okb n' k ino = true.
Proof.
  intros Hn. unfold tree_okb.
  rewrite !andb_true_iff, !Z.leb_le, !Z.ltb_lt.
  intros [[[[H1 H2] H3] Hr] H4]. split; [split; [split; [lia | exact H3] | exact Hr] |].
  destruct (i_entries ino) as [[| e1 [| e2 rest]] |]; try assumption.
  rewrite andb_true_iff in *. destruct H4 as [H4 H5]. split; [exact H4 |].
  rewrite forallb_forall in *. intros e He.
  eapply entry_okb_mono; [exact Hn | apply H5, He].
Qed.

Lemma alloc_flag_set (mode : Z) : js_and (js_or mode IALLOC) IALLOC = IALLOC.
Proof.
  unfold js_and, js_or.
  change (to_int32 IALLOC) with IALLOC.
  rewrite land_to_int32 by (unfold IALLOC; lia).
  rewrite Z.land_lor_distr_l, Z.land_diag.
  apply Z.bits_inj'. intros i _.
  rewrite Z.lor_spec, Z.land_spec.
  destruct (Z.testbit (to_int32 mode) i), (Z.testbit IALLOC i); reflexivity.
Qed.

(** ** The tree shape is an invariant *)

Lemma boot_tree_check (Date_now : nat → Z) :
  forallb boot_treeb (map_to_list (inodes (fs (boot Date_now)))) = true ∧
  forallb (boot_presentb (inodes (fs (boot Date_now)))) (seqZ 1 22) = true.
Proof. split; vm_compute; reflexivity. Qed.

Lemma Tree_boot (Date_now : nat → Z) : Tree (boot Date_now).
Proof.
  destruct (boot_tree_check Date_now) as [Htree Hpresent]. split.
  - intros k Hk. change (nextInum (fs (boot Date_now))) with 23 in Hk.
    rewrite forallb_forall in Hpresent.
    assert (boot_presentb (inodes (fs (boot Date_now))) k = true) as Hb.
    { apply Hpresent, list_elem_of_In, elem_of_seqZ. lia. }
    unfold boot_presentb in Hb.
    destruct (inodes (fs (boot Date_now)) !! k); [eauto | discriminate].
  - intros k ino Hk. change (nextInum (fs (boot Date_now))) with 23.
    rewrite forallb_forall in Htree.
    apply elem_of_map_to_list, list_elem_of_In in Hk.
    apply (Htree _ Hk).
Qed.

Lemma tree_okb_range (n k : Z) (ino : Inode) : tree_okb n k ino = true → 1 ≤ k < n.
Proof.
  unfold tree_okb. rewrite !andb_true_iff, Z.leb_le, Z.ltb_lt. tauto.
Qed.

Lemma Tree_range (w : World) (k : Z) :
  Tree w → is_Some (inodes (fs w) !! k) → 1 ≤ k < nextInum (fs w).
Proof. intros [_ Hok] [ino Hk]. apply (tree_okb_range _ _ _ (Hok _ _ Hk)). Qed.

Lemma Tree_alloc (w : World) (ino : Inode) :
  Tree w → (1 ≤ nextInum (fs w))%Z →
  tree_okb (nextInum (fs w) + 1) (nextInum (fs w)) ino = true →
  Tree (alloc_world w ino).
Proof.
  intros [Hp Hok] Hn Hino. split; simpl.
  - intros k Hk. rewrite lookup_insert_is_Some.
    destruct (decide (nextInum (fs w) = k)) as [-> | Hne]; [left; reflexivity |].
    right. split; [exact Hne | apply Hp; lia].
  - intros k ino'. rewrite lookup_insert_Some.
    intros [[<- <-] | [_ Hk]]; [exact Hino |].
    eapply tree_okb_mono; [| apply (Hok _ _ Hk)]. lia.
Qed.

Lemma Tree_alter (w : World) (k : Z) (f : Inode → Inode) :
  Tree w →
  (∀ ino, inodes (fs w) !! k = Some ino → tree_okb (nextInum (fs w)) k (f ino) = true) →
  Tree (with_inodes (alter f k) w).
Proof.
  intros [Hp Hok] Hf. split; simpl.
  - intros j Hj. rewrite lookup_alter_is_Some. apply Hp, Hj.
  - intros j ino. rewrite lookup_alter_Some.
    intros [(<- & ino0 & Hk & ->) | [_ Hj]]; [apply (Hf _ Hk) | apply (Hok _ _ Hj)].
Qed.

Lemma tree_okb_push (n k : Z) (p : Inode) (es : list DirectoryEntry) (e : DirectoryEntry) :
  i_entries p = Some es → entry_okb n e = true →
  tree_okb n k p = true → tree_okb n k (set_i_entries (es ++ [e]) p) = true.
Proof.
  intros Hes He H. unfold tree_okb, isDirectory in *.
  cbn [i_entries set_i_entries i_mode]. rewrite Hes in H.
  destruct es as [| e1 [| e2 rest]];
    [rewrite andb_false_r in H; discriminate H
    | rewrite andb_false_r in H; discriminate H |].
  apply andb_true_iff in H as [H1 H2]. apply andb_true_iff in H2 as [H2 H3].
  change ((e1 :: e2 :: rest) ++ [e])%list with (e1 :: e2 :: (rest ++ [e]))%list.
  rewrite H1, H2. cbn [andb].
  change (e1 :: e2 :: (rest ++ [e]))%list with ((e1 :: e2 :: rest) ++ [e])%list.
  rewrite forallb_app, H3. cbn. rewrite He. reflexivity.
Qed.

Lemma Tree_push (w : World) (k : Z) (p : Inode) (es : list DirectoryEntry)
    (e : DirectoryEntry) :
  Tree w → inodes (fs w) !! k = Some p → i_entries p = Some es →
  entry_okb (nextInum (fs w)) e = true →
  Tree (push_world k e es w).
Proof.
  intros HT Hk Hes He. apply Tree_alter; [exact HT |].
  intros ino Hino. assert (ino = p) as -> by congruence.
  apply tree_okb_push; [exact Hes | exact He |].
  destruct HT as [_ Hok]. apply (Hok _ _ Hk).
Qed.

Lemma Tree_write (Date_now : nat → Z) (w : World) (k : Z) (content : string) :
  Tree w → Tree (write_world Date_now k content w).
Proof.
  intros HT.
  change (write_world Date_now k content w) with
    (with_inodes (alter (written_inode content (Date_now (clock_reads w))) k)
       {| fs := fs w; clock_reads := S (clock_reads w) |}).
  apply Tree_alter; [exact HT |].
  simpl. intros ino Hino. destruct HT as [_ Hok]. apply (Hok _ _ Hino).
Qed.

Lemma tree_okb_blank (Date_now : nat → Z) (w : World) (mode : Z) :
  1 < nextInum (fs w) →
  tree_okb (nextInum (fs w) + 1) (nextInum (fs w)) (blank_inode Date_now w mode) = true.
Proof.
  intros Hn. unfold tree_okb. cbn [i_mode i_entries blank_inode].
  rewrite alloc_flag_set, Z.eqb_refl.
  assert (Z.eqb (nextInum (fs w)) 1 = false) as -> by (apply Z.eqb_neq; lia).
  rewrite !andb_true_iff, Z.leb_le, Z.ltb_lt. repeat split; lia.
Qed.

Lemma tree_okb_mkfile (Date_now : nat → Z) (w : World) (content : string) (mode : Z) :
  1 < nextInum (fs w) →
  tree_okb (nextInum (fs w) + 1) (nextInum (fs w)) (mkfile_inode Date_now w content mode) = true.
Proof. apply tree_okb_blank. Qed.

Lemma tree_okb_mkdir (Date_now : nat → Z) (w : World) (p : Inode) :
  1 < nextInum (fs w) → 1 ≤ i_number p < nextInum (fs w) →
  tree_okb (nextInum (fs w) + 1) (nextInum (fs w)) (mkdir_inode Date_now w p) = true.
Proof.
  intros Hn Hp. unfold tree_okb, mkdir_inode.
  cbn [i_mode i_entries set_i_entries blank_inode inum name new_DirectoryEntry].
  rewrite alloc_flag_set, !Z.eqb_refl.
  change (String.substring 0 14 ".") with ".". change (String.substring 0 14 "..") with "..".
  cbn [String.eqb Ascii.eqb Bool.eqb andb forallb].
  assert (Z.eqb (nextInum (fs w)) 1 = false) as -> by (apply Z.eqb_neq; lia).
  rewrite !entry_okb_new by lia.
  rewrite !andb_true_iff, Z.leb_le, Z.ltb_lt. repeat split; lia.
Qed.

Lemma Inv_next_above_root (W : gset Z) (w : World) : Inv W w → 1 < nextInum (fs w).
Proof. intros (_ & H1 & Hf & _). apply Hf, H1. Qed.

Lemma reach_Tree (Date_now : nat → Z) (W : gset Z) (w : World) :
  reach Date_now W w → Tree w.
Proof.
  induction 1 as [| W w path content Hreach IH | W w k nm Hreach IH [p Hk]
                  | W w k nm mode Hreach IH [p Hk] Hm
                  | W w k nm content mode Hreach IH [p Hk] Hm].
  - apply Tree_boot.
  - rewrite write_spec.
    destruct (namei (fs w) path) as [[| | k] | e]; simpl; try exact IH.
    destruct (inodes (fs w) !! k) as [ino |]; simpl; [| exact IH].
    destruct (isDirectory ino); simpl; [exact IH | apply Tree_write, IH].
  - pose proof (reach_Inv _ _ _ Hreach) as HI.
    pose proof (Inv_next_above_root _ _ HI) as Hn.
    assert (k ≠ nextInum (fs w)) as Hne by (eapply Inv_fresh; eauto).
    assert (1 ≤ k < nextInum (fs w)) as Hrange by (apply Tree_range; eauto).
    assert (i_number p = k) as Hnum
      by (destruct HI as (_ & _ & _ & Hok); apply (inode_okb_number _ _ _ (Hok _ _ Hk))).
    rewrite (mkdir_spec _ _ _ _ p Hk Hne). cbv zeta.
    assert (Tree (alloc_world w (mkdir_inode Date_now w p))) as HT
      by (apply Tree_alloc; [exact IH | lia | apply tree_okb_mkdir; lia]).
    destruct (i_entries p) as [es |] eqn:Hes; simpl; [| exact HT].
    apply (Tree_push _ _ p); [exact HT | | exact Hes |].
    + simpl. rewrite lookup_insert_ne by congruence. exact Hk.
    + simpl. apply entry_okb_new. lia.
  - pose proof (reach_Inv _ _ _ Hreach) as HI.
    pose proof (Inv_next_above_root _ _ HI) as Hn.
    assert (k ≠ nextInum (fs w)) as Hne by (eapply Inv_fresh; eauto).
    rewrite (mkdev_spec _ _ _ _ _ p Hk Hne). cbv zeta.
    assert (Tree (alloc_world w (blank_inode Date_now w mode))) as HT
      by (apply Tree_alloc; [exact IH | lia | apply tree_okb_blank; lia]).
    destruct (i_entries p) as [es |] eqn:Hes; simpl; [| exact HT].
    apply (Tree_push _ _ p); [exact HT | | exact Hes |].
    + simpl. rewrite lookup_insert_ne by congruence. exact Hk.
    + simpl. apply entry_okb_new. lia.
  - pose proof (reach_Inv _ _ _ Hreach) as HI.
    pose proof (Inv_next_above_root _ _ HI) as Hn.
    assert (k ≠ nextInum (fs w)) as Hne by (eapply Inv_fresh; eauto).
    rewrite (mkfile_spec _ _ _ _ _ _ p Hk Hne). cbv zeta.
    assert (Tree (alloc_world w (mkfile_inode Date_now w content mode))) as HT
      by (apply Tree_alloc; [exact IH | lia | apply tree_okb_mkfile; lia]).
    destruct (i_entries p) as [es |] eqn:Hes; simpl; [| exact HT].
    apply (Tree_push _ _ p); [exact HT | | exact Hes |].
    + simpl. rewrite lookup_insert_ne by congruence. exact Hk.
    + simpl. apply entry_okb_new. lia.
Qed.


(** ** Identifiers *)

Lemma reach_tree_okb (Date_now : nat → Z) (W : gset Z) (w : World) (k : Z) (ino : Inode) :
  reach Date_now W w → inodes (fs w) !! k = Some ino →
  tree_okb (nextInum (fs w)) k ino = true.
Proof. intros Hreach Hk. destruct (reach_Tree _ _ _ Hreach) as [_ Hok]. apply (Hok _ _ Hk). Qed.

Lemma tree_okb_allocated (n k : Z) (ino : Inode) :
  tree_okb n k ino = true → js_and (i_mode ino) IALLOC = IALLOC.
Proof.
  unfold tree_okb. rewrite !andb_true_iff. intros [[[_ H] _] _]. apply Z.eqb_eq, H.
Qed.

(** X1: In every reachable state the table holds exactly the identifiers from 1
    up to, and not including, [nextInum]; so it holds [nextInum - 1] inodes,
    each of them stored under its own [i_number] and carrying the allocated
    flag. *)
Theorem table_identifiers (Date_now : nat → Z) (W : gset Z) (w : World) :
  reach Date_now W w →
  (∀ k, is_Some (inodes (fs w) !! k) ↔ 1 ≤ k < nextInum (fs w)) ∧
  Z.of_nat (size (inodes (fs w))) = nextInum (fs w) - 1 ∧
  (∀ k ino, inodes (fs w) !! k = Some ino →
            i_number ino = k ∧ js_and (i_mode ino) IALLOC = IALLOC).
Proof.
  intros Hreach. pose proof (reach_Tree _ _ _ Hreach) as HT.
  pose proof (reach_Inv _ _ _ Hreach) as HI.
  assert (∀ k, is_Some (inodes (fs w) !! k) ↔ 1 ≤ k < nextInum (fs w)) as Hdom.
  { intros k. split; [apply Tree_range, HT | apply HT]. }
  split; [exact Hdom |]. split.
  - assert (dom (inodes (fs w)) = list_to_set (seqZ 1 (nextInum (fs w) - 1))) as Hset.
    { apply set_eq. intros k.
      rewrite elem_of_dom, elem_of_list_to_set, elem_of_seqZ, Hdom. lia. }
    rewrite <- size_dom, Hset, size_list_to_set by apply NoDup_seqZ.
    rewrite length_seqZ. pose proof (Inv_next_above_root _ _ HI). lia.
  - intros k ino Hk. split.
    + apply (inode_okb_number _ _ _ (reach_inode_okb _ _ _ _ _ Hreach Hk)).
    + apply (tree_okb_allocated _ _ _ (reach_tree_okb _ _ _ _ _ Hreach Hk)).
Qed.

Lemma table_identifiers_witness :
  is_Some (inodes (fs hosts_made) !! 23) ∧
  inodes (fs hosts_made) !! 24 = None ∧
  size (inodes (fs hosts_made)) = 23%nat.
Proof.
  destruct (table_identifiers tick_clock ∅ hosts_made reach_hosts_made) as (Hdom & Hsize & _).
  change (nextInum (fs hosts_made)) with 24 in *.
  split; [apply Hdom; lia |]. split.
  - destruct (inodes (fs hosts_made) !! 24) eqn:H24; [| reflexivity].
    assert (1 ≤ 24 < 24) by (apply Hdom; rewrite H24; eauto). lia.
  - lia.
Defined.

(** ** Names longer than an entry can hold *)

Lemma tree_okb_entries (n k : Z) (ino : Inode) (es : list DirectoryEntry) :
  tree_okb n k ino = true → i_entries ino = Some es →
  ∃ e2 rest,
    es = mkDirectoryEntry k "." :: e2 :: rest ∧ name e2 = ".." ∧
    (k = 1 → inum e2 = 1) ∧
    (∀ e, e ∈ es → 1 ≤ inum e < n ∧ (String.length (name e) ≤ 14)%nat).
Proof.
  unfold tree_okb. intros H Hes. rewrite Hes in H.
  destruct es as [| e1 [| e2 rest]];
    [rewrite andb_false_r in H; discriminate H
    | rewrite andb_false_r in H; discriminate H |].
  apply andb_true_iff in H as [_ H]. apply andb_true_iff in H as [H Hall].
  apply andb_true_iff in H as [H Hroot]. apply andb_true_iff in H as [H Hdd].
  apply andb_true_iff in H as [Hnum Hd].
  apply Z.eqb_eq in Hnum. apply String.eqb_eq in Hd, Hdd.
  exists e2, rest. split; [| split; [exact Hdd | split]].
  - destruct e1 as [i1 n1]. simpl in Hnum, Hd. subst. reflexivity.
  - intros ->. simpl in Hroot. apply Z.eqb_eq, Hroot.
  - rewrite forallb_forall in Hall. intros e He.
    apply list_elem_of_In, Hall in He. unfold entry_okb in He.
    rewrite !andb_true_iff, Z.leb_le, Z.ltb_lt, Nat.leb_le in He. tauto.
Qed.

Lemma lookup_loop_long (fs0 : UnixFilesystem) (es : list DirectoryEntry) (nm : string) :
  (∀ e, e ∈ es → (String.length (name e) ≤ 14)%nat) → (14 < String.length nm)%nat →
  lookup_loop fs0 es nm = Null.
Proof.
  intros Hes Hnm. apply lookup_loop_none. intros e He Heq.
  specialize (Hes e He). rewrite Heq in Hes. lia.
Qed.

Lemma namei_loop_long (fs0 : UnixFilesystem) (parts : list string) (k : Z) (s : string) :
  dirs_have_entries fs0 →
  (∀ j ino es e, inodes fs0 !! j = Some ino → i_entries ino = Some es → e ∈ es →
                 (String.length (name e) ≤ 14)%nat) →
  is_Some (inodes fs0 !! k) → s ∈ parts → (14 < String.length s)%nat →
  namei_loop fs0 (Obj k) parts = Ok Null.
Proof.
  intros Hd Hshort Hk Hs Hlen. revert k Hk.
  induction parts as [| part rest IH]; intros k [ino Hk]; [inversion Hs |].
  simpl. unfold mbind, Res_bind. rewrite Hk.
  destruct (isDirectory ino) eqn:Hdir; simpl; [| reflexivity].
  unfold _lookup, mbind, Res_bind. simpl. rewrite Hk, Hdir. simpl.
  destruct (Hd _ _ Hk Hdir) as [es Hes]. rewrite Hes.
  apply elem_of_cons in Hs as [<- | Hs].
  - rewrite lookup_loop_long; [reflexivity | | exact Hlen].
    intros e He. apply (Hshort _ _ _ _ Hk Hes He).
  - destruct (lookup_loop_falsy_or_inode fs0 es part) as [Hf | (k' & -> & Hk')].
    + rewrite Hf. reflexivity.
    + simpl. apply IH; assumption.
Qed.

(** X2: In every reachable state a path one of whose segments is longer than 14
    code units resolves to null: an entry never holds such a name, because
    [DirectoryEntry] cuts every name to 14.  In particular a directory, file
    or device made under a longer name is not found under that name. *)
Theorem long_segment_unresolved (Date_now : nat → Z) (W : gset Z) (w : World)
    (p s : string) :
  reach Date_now W w → s ∈ path_parts p → (14 < String.length s)%nat →
  namei (fs w) (PStr p) = Ok Null ∧
  stat (fs w) (PStr p) = Ok Null ∧
  read (fs w) (PStr p) = Ok None ∧
  readdir (fs w) (PStr p) = Ok None.
Proof.
  intros Hreach Hs Hlen. pose proof (reach_Inv _ _ _ Hreach) as HI.
  assert (namei (fs w) (PStr p) = Ok Null) as Hn.
  { assert (p ≠ "") as Hp by (intros ->; inversion Hs).
    rewrite namei_walk by exact Hp.
    destruct (Inv_root _ _ HI) as [root Hroot].
    unfold inodes_get. rewrite Hroot.
    apply (namei_loop_long _ _ _ s); try assumption.
    - apply (Inv_dirs_have_entries _ _ HI).
    - intros j ino es e Hj Hes He.
      destruct (tree_okb_entries _ _ _ _ (reach_tree_okb _ _ _ _ _ Hreach Hj) Hes)
        as (_ & _ & _ & _ & _ & Hall).
      apply (Hall e He).
    - rewrite Hroot. eauto. }
  unfold stat, read, readdir. rewrite Hn. auto.
Qed.

Lemma long_segment_unresolved_witness :
  fst long_mkdir = Ok (Obj 23) ∧
  namei (fs (snd long_mkdir)) (PStr "/a_name_longer_than_14") = Ok Null ∧
  namei (fs (snd long_mkdir)) (PStr "/a_name_longer_") = Ok (Obj 23).
Proof.
  split; [vm_compute; reflexivity |]. split; [| vm_compute; reflexivity].
  assert (reach tick_clock ∅ (snd long_mkdir)) as Hreach
    by (apply reach_mkdir; [apply reach_boot | vm_compute; eauto]).
  refine (proj1 (long_segment_unresolved tick_clock ∅ (snd long_mkdir)
                   "/a_name_longer_than_14" "a_name_longer_than_14" Hreach _ _)).
  - vm_compute. left.
  - vm_compute. lia.
Defined.

(** ** Listings *)

Lemma reach_entries (Date_now : nat → Z) (W : gset Z) (w : World) (k : Z) (ino : Inode) :
  reach Date_now W w → inodes (fs w) !! k = Some ino → isDirectory ino = true →
  ∃ e2 rest,
    i_entries ino = Some (mkDirectoryEntry k "." :: e2 :: rest) ∧ name e2 = ".." ∧
    (k = 1 → inum e2 = 1) ∧
    (∀ e, e ∈ mkDirectoryEntry k "." :: e2 :: rest →
          is_Some (inodes (fs w) !! inum e) ∧ (String.length (name e) ≤ 14)%nat).
Proof.
  intros Hreach Hk Hdir. pose proof (reach_Tree _ _ _ Hreach) as [Hpresent _].
  destruct (Inv_dirs_have_entries _ _ (reach_Inv _ _ _ Hreach) _ _ Hk Hdir) as [es Hes].
  destruct (tree_okb_entries _ _ _ _ (reach_tree_okb _ _ _ _ _ Hreach Hk) Hes)
    as (e2 & rest & -> & Hdd & Hroot & Hall).
  exists e2, rest. split; [exact Hes |]. split; [exact Hdd |]. split; [exact Hroot |].
  intros e He. destruct (Hall e He) as [Hrange Hlen]. split; [apply Hpresent, Hrange | exact Hlen].
Qed.

(** X3: In every reachable state [readdir] of a path that resolves to a directory
    returns a listing that starts with "." paired with that directory itself
    and with "..", and every pair of the listing holds a name of at most 14
    code units and an inode of the table: never undefined. *)
Theorem readdir_listing (Date_now : nat → Z) (W : gset Z) (w : World)
    (path : PathArg) (k : Z) (ino : Inode) :
  reach Date_now W w →
  namei (fs w) path = Ok (Obj k) → inodes (fs w) !! k = Some ino →
  isDirectory ino = true →
  ∃ p rest,
    readdir (fs w) path = Ok (Some ((".", Obj k) :: ("..", Obj p) :: rest)) ∧
    ∀ nm r, (nm, r) ∈ (".", Obj k) :: ("..", Obj p) :: rest →
            (String.length nm ≤ 14)%nat ∧ ∃ j, r = Obj j ∧ is_Some (inodes (fs w) !! j).
Proof.
  intros Hreach Hn Hk Hdir.
  destruct (reach_entries _ _ _ _ _ Hreach Hk Hdir) as (e2 & rest & Hes & Hdd & _ & Hall).
  assert (∀ e, e ∈ mkDirectoryEntry k "." :: e2 :: rest →
               inodes_get (fs w) (inum e) = Obj (inum e)) as Hget.
  { intros e He. destruct (Hall e He) as [[x Hx] _]. unfold inodes_get. rewrite Hx. reflexivity. }
  exists (inum e2), (List.map (fun e => (name e, inodes_get (fs w) (inum e))) rest).
  split.
  - unfold readdir, mbind, Res_bind. rewrite Hn. simpl. rewrite Hk, Hdir, Hes. simpl.
    pose proof (Hget (mkDirectoryEntry k ".") ltac:(left)) as H1.
    pose proof (Hget e2 ltac:(right; left)) as H2. simpl in H1.
    rewrite H1, H2, Hdd. reflexivity.
  - intros nm r Hin.
    assert (∃ e, e ∈ mkDirectoryEntry k "." :: e2 :: rest ∧ nm = name e ∧ r = Obj (inum e))
      as (e & He & -> & ->).
    { apply elem_of_cons in Hin as [[= -> ->] | Hin];
        [exists (mkDirectoryEntry k "."); split; [left | split; reflexivity] |].
      apply elem_of_cons in Hin as [[= -> ->] | Hin];
        [exists e2; split; [right; left | split; [symmetry; exact Hdd | reflexivity]] |].
      apply list_elem_of_In, in_map_iff in Hin as (e & [= <- <-] & He).
      apply list_elem_of_In in He.
      exists e. split; [right; right; exact He |]. split; [reflexivity |].
      apply Hget. right. right. exact He. }
    destruct (Hall e He) as [Hpresent Hlen]. split; [exact Hlen |].
    exists (inum e). split; [reflexivity | exact Hpresent].
Qed.

Lemma readdir_listing_witness :
  ∃ p rest,
    readdir (fs two_bins) (PStr "/usr/games/..") = Ok (Some ((".", Obj 5) :: ("..", Obj p) :: rest)).
Proof.
  assert (∃ ino, inodes (fs two_bins) !! 5 = Some ino ∧ isDirectory ino = true)
    as (ino & Hino & Hdir)
    by (eexists; split; [vm_compute; reflexivity | vm_compute; reflexivity]).
  assert (reach tick_clock ∅ two_bins) as Hreach
    by (apply reach_mkdir; [apply reach_boot | vm_compute; eauto]).
  assert (namei (fs two_bins) (PStr "/usr/games/..") = Ok (Obj 5)) as Hn
    by (vm_compute; reflexivity).
  destruct (readdir_listing tick_clock ∅ two_bins (PStr "/usr/games/..") 5 ino
              Hreach Hn Hino Hdir) as (p & rest & Hrd & _).
  exists p, rest. exact Hrd.
Defined.

(** ** "." and ".." *)

Lemma namei_loop_dot (Date_now : nat → Z) (W : gset Z) (w : World) (k : Z) (ino : Inode)
    (rest : list string) :
  reach Date_now W w → inodes (fs w) !! k = Some ino → isDirectory ino = true →
  namei_loop (fs w) (Obj k) ("." :: rest) = namei_loop (fs w) (Obj k) rest.
Proof.
  intros Hreach Hk Hdir.
  destruct (reach_entries _ _ _ _ _ Hreach Hk Hdir) as (e2 & more & Hes & _ & _ & _).
  simpl. unfold mbind, Res_bind. rewrite Hk, Hdir. simpl.
  unfold _lookup, mbind, Res_bind. simpl. rewrite Hk, Hdir, Hes. simpl.
  unfold inodes_get. rewrite Hk. reflexivity.
Qed.

Lemma tree_okb_root (n : Z) (ino : Inode) : tree_okb n 1 ino = true → isDirectory ino = true.
Proof.
  unfold tree_okb. rewrite !andb_true_iff. intros [[_ H] _]. exact H.
Qed.

Lemma namei_loop_dotdot_root (Date_now : nat → Z) (W : gset Z) (w : World)
    (rest : list string) :
  reach Date_now W w →
  namei_loop (fs w) (Obj 1) (".." :: rest) = namei_loop (fs w) (Obj 1) rest.
Proof.
  intros Hreach. destruct (reach_Inv _ _ _ Hreach) as (_ & [ino Hk] & _).
  pose proof (tree_okb_root _ _ (reach_tree_okb _ _ _ _ _ Hreach Hk)) as Hdir.
  destruct (reach_entries _ _ _ _ _ Hreach Hk Hdir) as (e2 & more & Hes & Hdd & Hroot & _).
  simpl. unfold mbind, Res_bind. rewrite Hk, Hdir. simpl.
  unfold _lookup, mbind, Res_bind. simpl. rewrite Hk, Hdir, Hes. simpl.
  rewrite Hdd, (Hroot eq_refl). simpl.
  unfold inodes_get. rewrite Hk. reflexivity.
Qed.

Lemma namei_loop_root_dots (Date_now : nat → Z) (W : gset Z) (w : World)
    (parts : list string) :
  reach Date_now W w → Forall dot_part parts →
  namei_loop (fs w) (Obj 1) parts = Ok (Obj 1).
Proof.
  intros Hreach Hparts. destruct (reach_Inv _ _ _ Hreach) as (_ & [ino Hk] & _).
  pose proof (tree_okb_root _ _ (reach_tree_okb _ _ _ _ _ Hreach Hk)) as Hdir.
  induction Hparts as [| part rest [-> | ->] _ IH]; [reflexivity | |].
  - rewrite (namei_loop_dot _ _ _ _ _ _ Hreach Hk Hdir). exact IH.
  - rewrite (namei_loop_dotdot_root _ _ _ _ Hreach). exact IH.
Qed.

(** X4: In every reachable state the "." entry of a directory leads back to the
    directory: when an absolute path resolves to a directory, so does the
    path with "/." appended, to the same inode.  And the root is its own
    parent: a path made only of "." and ".." segments resolves to the root,
    so no path climbs above it. *)
Theorem dot_and_root (Date_now : nat → Z) (W : gset Z) (w : World) :
  reach Date_now W w →
  (∀ x k ino,
     absolute x → namei (fs w) (PStr x) = Ok (Obj k) →
     inodes (fs w) !! k = Some ino → isDirectory ino = true →
     namei (fs w) (PStr (x ++ "/.")) = Ok (Obj k)) ∧
  (∀ p, p ≠ "" → Forall dot_part (path_parts p) → namei (fs w) (PStr p) = Ok (Obj 1)).
Proof.
  intros Hreach. split.
  - intros x k ino Hx Hn Hk Hdir.
    change (x ++ "/.") with (x ++ "/" ++ ".").
    rewrite (namei_extend _ _ _ _ Hx Hn).
    change (path_parts ".") with ["."].
    rewrite (namei_loop_dot _ _ _ _ _ _ Hreach Hk Hdir). reflexivity.
  - intros p Hp Hparts. rewrite namei_walk by exact Hp.
    destruct (reach_Inv _ _ _ Hreach) as (Hroot & [ino Hk] & _).
    unfold inodes_get. rewrite Hroot, Hk.
    apply (namei_loop_root_dots _ _ _ _ Hreach Hparts).
Qed.

Lemma dot_and_root_witness :
  namei (fs two_bins) (PStr "/usr/games/.") = Ok (Obj 7) ∧
  namei (fs two_bins) (PStr "/../.././..") = Ok (Obj 1).
Proof.
  assert (reach tick_clock ∅ two_bins) as Hreach
    by (apply reach_mkdir; [apply reach_boot | vm_compute; eauto]).
  destruct (dot_and_root tick_clock ∅ two_bins Hreach) as [Hdot Hroot].
  split.
  - assert (∃ ino, inodes (fs two_bins) !! 7 = Some ino ∧ isDirectory ino = true)
      as (ino & Hino & Hdir)
      by (eexists; split; [vm_compute; reflexivity | vm_compute; reflexivity]).
    refine (Hdot "/usr/games" 7 ino _ _ Hino Hdir).
    + exists "usr/games". reflexivity.
    + vm_compute. reflexivity.
  - refine (Hroot "/../.././.." _ _); [discriminate |].
    vm_compute.
    repeat (constructor; [first [left; reflexivity | right; reflexivity] |]).
    constructor.
Defined.


(** ** Growing the tree *)

Lemma grown_inode_refl (ino : Inode) : grown_inode ino ino.
Proof.
  unfold grown_inode. repeat split.
  destruct (i_entries ino) as [es |]; [| reflexivity].
  exists []. rewrite app_nil_r. reflexivity.
Qed.

Lemma grown_inode_trans (a b c : Inode) : grown_inode a b → grown_inode b c → grown_inode a c.
Proof.
  unfold grown_inode. intros (H1 & H2 & H3 & H4 & H5 & H6) (G1 & G2 & G3 & G4 & G5 & G6).
  repeat split; try congruence.
  destruct (i_entries a) as [es |].
  - destruct H6 as [more Hb]. rewrite Hb in G6. destruct G6 as [more' Hc].
    exists (more ++ more')%list. rewrite Hc, app_assoc. reflexivity.
  - rewrite H6 in G6. exact G6.
Qed.

Lemma grows_refl (fs0 : UnixFilesystem) : grows fs0 fs0.
Proof. split; [reflexivity |]. intros k ino Hk. exists ino. split; [exact Hk | apply grown_inode_refl]. Qed.

Lemma grows_trans (a b c : UnixFilesystem) : grows a b → grows b c → grows a c.
Proof.
  intros [Hr1 H1] [Hr2 H2]. split; [congruence |].
  intros k ino Hk. destruct (H1 _ _ Hk) as (ino' & Hk' & Hg).
  destruct (H2 _ _ Hk') as (ino'' & Hk'' & Hg').
  exists ino''. split; [exact Hk'' | eapply grown_inode_trans; eassumption].
Qed.

Lemma grows_alloc (w : World) (ino : Inode) :
  inodes (fs w) !! nextInum (fs w) = None → grows (fs w) (fs (alloc_world w ino)).
Proof.
  intros Hfresh. split; [reflexivity |]. intros k ino0 Hk. exists ino0.
  split; [| apply grown_inode_refl].
  simpl. rewrite lookup_insert_ne; [exact Hk |]. intros <-. congruence.
Qed.

Lemma grows_push (w : World) (k : Z) (p : Inode) (es : list DirectoryEntry)
    (e : DirectoryEntry) :
  inodes (fs w) !! k = Some p → i_entries p = Some es →
  grows (fs w) (fs (push_world k e es w)).
Proof.
  intros Hk Hes. split; [reflexivity |]. intros j ino Hj. simpl.
  destruct (decide (k = j)) as [<- | Hne].
  - assert (ino = p) as -> by congruence.
    exists (set_i_entries (es ++ [e]) p).
    split; [rewrite lookup_alter_eq, Hk; reflexivity |].
    unfold grown_inode. simpl. repeat split. rewrite Hes. exists [e]. reflexivity.
  - exists ino. split; [rewrite lookup_alter_ne by exact Hne; exact Hj | apply grown_inode_refl].
Qed.

Lemma grows_present (fs1 fs2 : UnixFilesystem) (k : Z) :
  grows fs1 fs2 → is_Some (inodes fs1 !! k) → is_Some (inodes fs2 !! k).
Proof. intros [_ H] [ino Hk]. destruct (H _ _ Hk) as (ino' & Hk' & _). eauto. Qed.

Lemma lookup_loop_grows (fs1 fs2 : UnixFilesystem) (es more : list DirectoryEntry)
    (nm : string) (j : Z) :
  grows fs1 fs2 → lookup_loop fs1 es nm = Obj j →
  lookup_loop fs2 (es ++ more) nm = Obj j.
Proof.
  intros Hg. induction es as [| e es IH]; simpl; [discriminate |].
  destruct (String.eqb (name e) nm); [| exact IH].
  unfold inodes_get. destruct (inodes fs1 !! inum e) eqn:He; [| discriminate].
  intros [= <-].
  destruct (grows_present _ _ (inum e) Hg) as [x ->]; [eauto | reflexivity].
Qed.

Lemma namei_loop_grows (fs1 fs2 : UnixFilesystem) (parts : list string) (k j : Z) :
  grows fs1 fs2 → namei_loop fs1 (Obj k) parts = Ok (Obj j) →
  namei_loop fs2 (Obj k) parts = Ok (Obj j).
Proof.
  intros Hg. revert k. induction parts as [| part rest IH]; intros k; [trivial |].
  simpl. unfold mbind, Res_bind, _lookup, mbind, Res_bind. simpl.
  destruct (inodes fs1 !! k) as [ino |] eqn:Hk; [| discriminate].
  destruct Hg as [Hroot Hall]. destruct (Hall _ _ Hk) as (ino' & Hk' & Hgi).
  destruct Hgi as (_ & Hmode & _ & _ & _ & Hes).
  rewrite Hk'. unfold isDirectory. rewrite Hmode.
  destruct (Z.eqb (js_and (i_mode ino) IFMT) IFDIR); simpl; [| discriminate].
  destruct (i_entries ino) as [es |]; [| discriminate].
  destruct Hes as [more ->].
  destruct (lookup_loop fs1 es part) as [| | k'] eqn:Hl; simpl; try discriminate.
  rewrite (lookup_loop_grows fs1 fs2 es more part k' (conj Hroot Hall) Hl). simpl.
  apply IH.
Qed.

Lemma namei_grows (fs1 fs2 : UnixFilesystem) (path : PathArg) (j : Z) :
  grows fs1 fs2 → namei fs1 path = Ok (Obj j) → namei fs2 path = Ok (Obj j).
Proof.
  intros Hg. destruct path as [| | p]; simpl; try discriminate.
  destruct (String.eqb p ""); [discriminate |].
  destruct Hg as [Hroot Hall]. rewrite Hroot.
  unfold inodes_get.
  destruct (inodes fs1 !! rootInum fs1) as [r |] eqn:Hr.
  - destruct (Hall _ _ Hr) as (r' & -> & _).
    destruct (String.eqb p "/"); [trivial |].
    apply namei_loop_grows. split; assumption.
  - destruct (String.eqb p "/"); [discriminate |].
    destruct (path_parts p); simpl; discriminate.
Qed.

Lemma namei_loop_present (fs0 : UnixFilesystem) (parts : list string) (k j : Z) :
  is_Some (inodes fs0 !! k) → namei_loop fs0 (Obj k) parts = Ok (Obj j) →
  is_Some (inodes fs0 !! j).
Proof.
  revert k. induction parts as [| part rest IH]; intros k Hk; simpl.
  - intros [= <-]. exact Hk.
  - unfold mbind, Res_bind, _lookup, mbind, Res_bind. simpl.
    destruct (inodes fs0 !! k) as [ino |]; [| discriminate].
    destruct (isDirectory ino); simpl; [| discriminate].
    destruct (i_entries ino) as [es |]; [| discriminate].
    destruct (lookup_loop_falsy_or_inode fs0 es part) as [Hf | (k' & -> & Hk')].
    + rewrite Hf. discriminate.
    + simpl. apply IH, Hk'.
Qed.

Lemma namei_present (fs0 : UnixFilesystem) (path : PathArg) (j : Z) :
  namei fs0 path = Ok (Obj j) → is_Some (inodes fs0 !! j).
Proof.
  destruct path as [| | p]; simpl; try discriminate.
  destruct (String.eqb p ""); [discriminate |].
  unfold inodes_get.
  destruct (inodes fs0 !! rootInum fs0) as [r |] eqn:Hr.
  - destruct (String.eqb p "/").
    + intros [= <-]. rewrite Hr. eauto.
    + apply namei_loop_present. rewrite Hr. eauto.
  - destruct (String.eqb p "/"); [discriminate |].
    destruct (path_parts p); simpl; discriminate.
Qed.

Lemma read_grows (fs1 fs2 : UnixFilesystem) (path : PathArg) (j : Z) :
  grows fs1 fs2 → namei fs1 path = Ok (Obj j) → read fs2 path = read fs1 path.
Proof.
  intros Hg Hn. unfold read. rewrite (namei_grows _ _ _ _ Hg Hn), Hn.
  unfold mbind, Res_bind, deref.
  destruct (namei_present _ _ _ Hn) as [ino Hj]. rewrite Hj.
  destruct Hg as [_ Hall]. destruct (Hall _ _ Hj) as (ino' & -> & Hgi).
  destruct Hgi as (_ & Hmode & _ & _ & Hdata & _).
  unfold isDirectory. rewrite Hmode, Hdata. reflexivity.
Qed.

Section HelpersGrow.

Variable Date_now : nat → Z.
Variables (w : World) (k : Z) (p : Inode).
Hypothesis Hfresh : inodes (fs w) !! nextInum (fs w) = None.
Hypothesis Hk : inodes (fs w) !! k = Some p.

Lemma parent_not_next : k ≠ nextInum (fs w).
Proof. intros ->. congruence. Qed.

Lemma grows_alloc_push (ino : Inode) (e : DirectoryEntry) :
  grows (fs w)
    (fs (snd (match i_entries p with
              | None => (@Throw JsRef TypeError, alloc_world w ino)
              | Some es => (Ok (Obj (nextInum (fs w))), push_world k e es (alloc_world w ino))
              end))).
Proof.
  pose proof (grows_alloc w ino Hfresh) as Ha.
  destruct (i_entries p) as [es |] eqn:Hes; simpl snd; [| exact Ha].
  eapply grows_trans; [exact Ha |].
  apply (grows_push _ _ p); [| exact Hes].
  simpl. rewrite lookup_insert_ne; [exact Hk |]. intros Heq. apply parent_not_next. congruence.
Qed.

Lemma mkdir_grows (nm : string) : grows (fs w) (fs (snd (_mkdir Date_now (Obj k) nm w))).
Proof. rewrite (mkdir_spec _ _ _ _ p Hk parent_not_next). apply grows_alloc_push. Qed.

Lemma mkdev_grows (nm : string) (mode : Z) :
  grows (fs w) (fs (snd (_mkdev Date_now (Obj k) nm mode w))).
Proof. rewrite (mkdev_spec _ _ _ _ _ p Hk parent_not_next). apply grows_alloc_push. Qed.

Lemma mkfile_grows (nm content : string) (mode : Z) :
  grows (fs w) (fs (snd (_mkfile Date_now (Obj k) nm content mode w))).
Proof. rewrite (mkfile_spec _ _ _ _ _ _ p Hk parent_not_next). apply grows_alloc_push. Qed.

End HelpersGrow.

(** X5: When no inode is stored under the next identifier (as in every reachable
    state), a call of [_mkdir], [_mkdev] or [_mkfile] on an inode of the
    table, whether it returns or throws, leaves every path that resolved to
    an inode resolving to the same inode, and [read] of such a path returns
    what it returned before.  In particular a helper called with a name that
    the parent already holds does not change what that name leads to. *)
Theorem helpers_keep_paths (Date_now : nat → Z) (w : World) (k j : Z)
    (nm content : string) (mode : Z) (path : PathArg) :
  inodes (fs w) !! nextInum (fs w) = None → is_Some (inodes (fs w) !! k) →
  namei (fs w) path = Ok (Obj j) →
  (namei (fs (snd (_mkdir Date_now (Obj k) nm w))) path = Ok (Obj j) ∧
   read (fs (snd (_mkdir Date_now (Obj k) nm w))) path = read (fs w) path) ∧
  (namei (fs (snd (_mkdev Date_now (Obj k) nm mode w))) path = Ok (Obj j) ∧
   read (fs (snd (_mkdev Date_now (Obj k) nm mode w))) path = read (fs w) path) ∧
  (namei (fs (snd (_mkfile Date_now (Obj k) nm content mode w))) path = Ok (Obj j) ∧
   read (fs (snd (_mkfile Date_now (Obj k) nm content mode w))) path = read (fs w) path).
Proof.
  intros Hfresh [p Hk] Hn.
  pose proof (mkdir_grows Date_now w k p Hfresh Hk nm) as H1.
  pose proof (mkdev_grows Date_now w k p Hfresh Hk nm mode) as H2.
  pose proof (mkfile_grows Date_now w k p Hfresh Hk nm content mode) as H3.
  repeat split;
    first [eapply namei_grows; eassumption | eapply read_grows; eassumption].
Qed.

Lemma helpers_keep_paths_witness :
  namei (fs two_bins) (PStr "/bin") = Ok (Obj 2) ∧
  read (fs hosts_made) (PStr "/etc/motd") = read (fs (boot tick_clock)) (PStr "/etc/motd").
Proof.
  assert (inodes (fs (boot tick_clock)) !! nextInum (fs (boot tick_clock)) = None) as Hfresh
    by (vm_compute; reflexivity).
  split.
  - refine (proj1 (proj1 (helpers_keep_paths tick_clock (boot tick_clock) 1 2 "bin" "" 0
                            (PStr "/bin") Hfresh _ _))).
    + vm_compute. eauto.
    + vm_compute. reflexivity.
  - refine (proj2 (proj2 (proj2 (helpers_keep_paths tick_clock (boot tick_clock) 4 15 "hosts"
                                   "localhost" mode_644 (PStr "/etc/motd") Hfresh _ _)))).
    + vm_compute. eauto.
    + vm_compute. reflexivity.
Defined.


(** ** Making an inode and finding it *)

Lemma split_slash_no_slash (s : string) : no_slash s = true → split_slash s = [s].
Proof.
  induction s as [| c s IH]; simpl; [reflexivity |].
  destruct (Ascii.eqb c "/"); simpl; [discriminate |].
  intros H. rewrite (IH H). reflexivity.
Qed.

Lemma path_parts_simple (s : string) : simple_nameb s = true → path_parts s = [s].
Proof.
  unfold simple_nameb, path_parts. rewrite !andb_true_iff.
  intros [[Hne Hns] _]. rewrite (split_slash_no_slash _ Hns). simpl. rewrite Hne. reflexivity.
Qed.

Lemma simple_name_kept (i : Z) (s : string) :
  simple_nameb s = true → new_DirectoryEntry i s = mkDirectoryEntry i s.
Proof.
  unfold simple_nameb, new_DirectoryEntry. rewrite !andb_true_iff, Nat.leb_le.
  intros [_ Hlen]. rewrite (substring_short _ _ Hlen). reflexivity.
Qed.

Lemma lookup_loop_null (fs0 : UnixFilesystem) (es : list DirectoryEntry) (nm : string) :
  lookup_loop fs0 es nm = Null → ∀ e, e ∈ es → name e ≠ nm.
Proof.
  induction es as [| x es IH]; simpl; intros H e He; [inversion He |].
  destruct (String.eqb_spec (name x) nm) as [Heq | Hne].
  - unfold inodes_get in H. destruct (inodes fs0 !! inum x); discriminate.
  - apply elem_of_cons in He as [-> | He]; [exact Hne | apply (IH H e He)].
Qed.

Lemma _lookup_null (fs0 : UnixFilesystem) (k : Z) (p : Inode) (es : list DirectoryEntry)
    (nm : string) :
  inodes fs0 !! k = Some p → isDirectory p = true → i_entries p = Some es →
  _lookup fs0 (Obj k) nm = Ok Null → ∀ e, e ∈ es → name e ≠ nm.
Proof.
  intros Hk Hdir Hes. unfold _lookup, mbind, Res_bind. simpl. rewrite Hk, Hdir, Hes. simpl.
  intros [= H]. apply (lookup_loop_null _ _ _ H).
Qed.

Lemma namei_loop_step (fs0 : UnixFilesystem) (k n : Z) (d : Inode)
    (es : list DirectoryEntry) (nm : string) (rest : list string) :
  inodes fs0 !! k = Some d → isDirectory d = true → i_entries d = Some es →
  lookup_loop fs0 es nm = Obj n →
  namei_loop fs0 (Obj k) (nm :: rest) = namei_loop fs0 (Obj n) rest.
Proof.
  intros Hk Hdir Hes Hl. simpl. unfold mbind, Res_bind, _lookup, mbind, Res_bind. simpl.
  rewrite Hk, Hdir, Hes. simpl. rewrite Hl. reflexivity.
Qed.

Section NewEntry.

Variables (w : World) (x nm : string) (k : Z) (p ino : Inode) (es : list DirectoryEntry).
Hypothesis Hfresh : inodes (fs w) !! nextInum (fs w) = None.
Hypothesis Hx : absolute x.
Hypothesis Hn : namei (fs w) (PStr x) = Ok (Obj k).
Hypothesis Hk : inodes (fs w) !! k = Some p.
Hypothesis Hdir : isDirectory p = true.
Hypothesis Hes : i_entries p = Some es.
Hypothesis Hfree : ∀ e, e ∈ es → name e ≠ nm.
Hypothesis Hsimple : simple_nameb nm = true.

(** The state after the allocation of [ino] and the push of its entry. *)
Let w' : World :=
  push_world k (new_DirectoryEntry (nextInum (fs w)) nm) es (alloc_world w ino).

Lemma new_entry_grows : grows (fs w) (fs w').
Proof.
  eapply grows_trans; [apply (grows_alloc w ino Hfresh) |].
  apply (grows_push _ _ p); [| exact Hes].
  simpl. rewrite lookup_insert_ne; [exact Hk |]. intros Heq. congruence.
Qed.

Lemma new_entry_parent :
  inodes (fs w') !! k
  = Some (set_i_entries (es ++ [mkDirectoryEntry (nextInum (fs w)) nm]) p).
Proof.
  unfold w', push_world. simpl. rewrite lookup_alter_eq, lookup_insert_ne by congruence.
  rewrite Hk, (simple_name_kept _ _ Hsimple). reflexivity.
Qed.

Lemma new_entry_child : inodes (fs w') !! nextInum (fs w) = Some ino.
Proof.
  unfold w', push_world. simpl. rewrite lookup_alter_ne by congruence.
  apply lookup_insert_eq.
Qed.

Lemma new_entry_namei (y : string) (rest : list string) :
  path_parts y = nm :: rest →
  namei (fs w') (PStr (x ++ "/" ++ y)) = namei_loop (fs w') (Obj (nextInum (fs w))) rest.
Proof.
  intros Hy.
  rewrite (namei_extend _ _ _ k Hx) by (apply (namei_grows _ _ _ _ new_entry_grows Hn)).
  rewrite Hy.
  apply (namei_loop_step _ _ _ _ _ _ _ new_entry_parent Hdir eq_refl).
  rewrite (lookup_loop_first _ es [] (mkDirectoryEntry (nextInum (fs w)) nm) nm Hfree eq_refl).
  unfold inodes_get. cbn [inum]. rewrite new_entry_child. reflexivity.
Qed.

End NewEntry.

(** X6: In every reachable state, when the absolute path X resolves to a
    directory that holds no entry named N, and N is a simple name (not empty,
    without '/', at most 14 code units), [_mkfile(X's inode, N, content,
    mode)] returns the new inode, [stat(X/N)] then resolves to it, the inode
    records the payload, the size [content.length] and the mode [mode |
    IALLOC], and, unless the mode makes the inode directory-kind,
    [read(X/N)] returns the content. *)
Theorem mkfile_then_read (Date_now : nat → Z) (W : gset Z) (w : World)
    (x nm content : string) (mode k : Z) (p : Inode) :
  reach Date_now W w →
  absolute x → namei (fs w) (PStr x) = Ok (Obj k) →
  inodes (fs w) !! k = Some p → isDirectory p = true →
  _lookup (fs w) (Obj k) nm = Ok Null → simple_nameb nm = true →
  ∃ w' f,
    _mkfile Date_now (Obj k) nm content mode w = (Ok (Obj (nextInum (fs w))), w') ∧
    stat (fs w') (PStr (x ++ "/" ++ nm)) = Ok (Obj (nextInum (fs w))) ∧
    inodes (fs w') !! nextInum (fs w) = Some f ∧
    i_data f = Some content ∧
    i_size f = Z.of_nat (String.length content) ∧
    i_mode f = js_or mode IALLOC ∧
    (js_and mode IFMT ≠ IFDIR → read (fs w') (PStr (x ++ "/" ++ nm)) = Ok (Some content)).
Proof.
  intros Hreach Hx Hn Hk Hdir Hnull Hsimple.
  pose proof (reach_Inv _ _ _ Hreach) as HI.
  destruct (Inv_dirs_have_entries _ _ HI _ _ Hk Hdir) as [es Hes].
  pose proof (_lookup_null _ _ _ _ _ Hk Hdir Hes Hnull) as Hfree.
  assert (inodes (fs w) !! nextInum (fs w) = None) as Hfresh.
  { destruct (inodes (fs w) !! nextInum (fs w)) eqn:H; [| reflexivity].
    exfalso. eapply (Inv_fresh _ _ _ HI); eauto. }
  assert (k ≠ nextInum (fs w)) as Hne by congruence.
  eexists. exists (mkfile_inode Date_now w content mode).
  split; [rewrite (mkfile_spec _ _ _ _ _ _ p Hk Hne); cbv zeta; rewrite Hes; reflexivity |].
  assert (namei (fs (push_world k (new_DirectoryEntry (nextInum (fs w)) nm) es
                       (alloc_world w (mkfile_inode Date_now w content mode))))
            (PStr (x ++ "/" ++ nm)) = Ok (Obj (nextInum (fs w)))) as Hnew.
  { rewrite (new_entry_namei w x nm k p _ es Hfresh Hx Hn Hk Hdir Hes Hfree Hsimple nm []
               (path_parts_simple _ Hsimple)).
    reflexivity. }
  pose proof (new_entry_child w nm k p (mkfile_inode Date_now w content mode) es Hfresh Hk)
    as Hchild.
  split; [exact Hnew |]. split; [exact Hchild |].
  do 3 (split; [reflexivity |]).
  intros Hmode. unfold read. rewrite Hnew. unfold mbind, Res_bind, deref. rewrite Hchild.
  assert (isDirectory (mkfile_inode Date_now w content mode) = false) as ->.
  { unfold isDirectory. cbn [i_mode mkfile_inode set_i_size set_i_data blank_inode].
    rewrite type_bits_alloc. apply Z.eqb_neq, Hmode. }
  reflexivity.
Qed.

Lemma mkfile_then_read_witness :
  ∃ w', _mkfile tick_clock (Obj 4) "hosts" "localhost" mode_644 (boot tick_clock)
          = (Ok (Obj 23), w') ∧
        stat (fs w') (PStr "/etc/hosts") = Ok (Obj 23) ∧
        read (fs w') (PStr "/etc/hosts") = Ok (Some "localhost").
Proof.
  assert (∃ p, inodes (fs (boot tick_clock)) !! 4 = Some p ∧ isDirectory p = true)
    as (p & Hp & Hdir)
    by (eexists; split; [vm_compute; reflexivity | vm_compute; reflexivity]).
  assert (absolute "/etc") as Hx by (exists "etc"; reflexivity).
  assert (namei (fs (boot tick_clock)) (PStr "/etc") = Ok (Obj 4)) as Hn
    by (vm_compute; reflexivity).
  assert (_lookup (fs (boot tick_clock)) (Obj 4) "hosts" = Ok Null) as Hnull
    by (vm_compute; reflexivity).
  assert (simple_nameb "hosts" = true) as Hsimple by reflexivity.
  destruct (mkfile_then_read tick_clock ∅ (boot tick_clock) "/etc" "hosts" "localhost"
              mode_644 4 p (reach_boot tick_clock) Hx Hn Hp Hdir Hnull Hsimple)
    as (w' & f & Hmk & Hstat & _ & _ & _ & _ & Hread).
  exists w'. split; [exact Hmk |]. split; [exact Hstat |].
  apply Hread. vm_compute. discriminate.
Defined.

(** X7: In every reachable state, when the absolute path X resolves to a
    directory that holds no entry named N, and N is a simple name, [_mkdir]
    returns the new directory; X/N then resolves to it, X/N/. to it again and
    X/N/.. back to the inode of X, and [readdir(X/N)] lists exactly "." and
    "..". *)
Theorem mkdir_then_resolve (Date_now : nat → Z) (W : gset Z) (w : World)
    (x nm : string) (k : Z) (p : Inode) :
  reach Date_now W w →
  absolute x → namei (fs w) (PStr x) = Ok (Obj k) →
  inodes (fs w) !! k = Some p → isDirectory p = true →
  _lookup (fs w) (Obj k) nm = Ok Null → simple_nameb nm = true →
  ∃ w',
    _mkdir Date_now (Obj k) nm w = (Ok (Obj (nextInum (fs w))), w') ∧
    namei (fs w') (PStr (x ++ "/" ++ nm)) = Ok (Obj (nextInum (fs w))) ∧
    namei (fs w') (PStr (x ++ "/" ++ nm ++ "/.")) = Ok (Obj (nextInum (fs w))) ∧
    namei (fs w') (PStr (x ++ "/" ++ nm ++ "/..")) = Ok (Obj k) ∧
    readdir (fs w') (PStr (x ++ "/" ++ nm))
    = Ok (Some [(".", Obj (nextInum (fs w))); ("..", Obj k)]).
Proof.
  intros Hreach Hx Hn Hk Hdir Hnull Hsimple.
  pose proof (reach_Inv _ _ _ Hreach) as HI.
  destruct (Inv_dirs_have_entries _ _ HI _ _ Hk Hdir) as [es Hes].
  pose proof (_lookup_null _ _ _ _ _ Hk Hdir Hes Hnull) as Hfree.
  assert (inodes (fs w) !! nextInum (fs w) = None) as Hfresh.
  { destruct (inodes (fs w) !! nextInum (fs w)) eqn:H; [| reflexivity].
    exfalso. eapply (Inv_fresh _ _ _ HI); eauto. }
  assert (k ≠ nextInum (fs w)) as Hne by congruence.
  assert (i_number p = k) as Hnum
    by (apply (inode_okb_number _ _ _ (reach_inode_okb _ _ _ _ _ Hreach Hk))).
  eexists.
  split; [rewrite (mkdir_spec _ _ _ _ p Hk Hne); cbv zeta; rewrite Hes; reflexivity |].
  set (w' := push_world k (new_DirectoryEntry (nextInum (fs w)) nm) es
               (alloc_world w (mkdir_inode Date_now w p))).
  pose proof (new_entry_child w nm k p (mkdir_inode Date_now w p) es Hfresh Hk) as Hchild.
  pose proof (new_entry_parent w nm k p (mkdir_inode Date_now w p) es Hfresh Hk Hsimple)
    as Hparent.
  fold w' in Hchild, Hparent.
  assert (isDirectory (mkdir_inode Date_now w p) = true) as Hnewdir by reflexivity.
  assert (i_entries (mkdir_inode Date_now w p)
          = Some [mkDirectoryEntry (nextInum (fs w)) "."; mkDirectoryEntry k ".."]) as Hnewes
    by (unfold mkdir_inode; simpl; rewrite Hnum; reflexivity).
  assert (∀ y rest, path_parts y = nm :: rest →
            namei (fs w') (PStr (x ++ "/" ++ y))
            = namei_loop (fs w') (Obj (nextInum (fs w))) rest) as Hnamei
    by (intros y rest; apply (new_entry_namei w x nm k p _ es Hfresh Hx Hn Hk Hdir Hes Hfree Hsimple)).
  assert (∀ s, path_parts (nm ++ "/" ++ s) = nm :: path_parts s) as Hparts
    by (intros s; rewrite path_parts_app, (path_parts_simple _ Hsimple); reflexivity).
  assert (namei (fs w') (PStr (x ++ "/" ++ nm)) = Ok (Obj (nextInum (fs w)))) as Hnew
    by (rewrite (Hnamei nm [] (path_parts_simple _ Hsimple)); reflexivity).
  split; [exact Hnew |]. clearbody w'. split; [| split].
  - change (nm ++ "/.") with (nm ++ "/" ++ ".").
    rewrite (Hnamei _ _ (Hparts ".")). change (path_parts ".") with ["."].
    rewrite (namei_loop_step _ _ (nextInum (fs w)) _ _ _ _ Hchild Hnewdir Hnewes);
      [reflexivity |].
    simpl. unfold inodes_get. rewrite Hchild. reflexivity.
  - change (nm ++ "/..") with (nm ++ "/" ++ "..").
    rewrite (Hnamei _ _ (Hparts "..")). change (path_parts "..") with [".."].
    rewrite (namei_loop_step _ _ k _ _ _ _ Hchild Hnewdir Hnewes); [reflexivity |].
    simpl. unfold inodes_get. rewrite Hparent. reflexivity.
  - unfold readdir. rewrite Hnew. unfold mbind, Res_bind, deref. rewrite Hchild, Hnewdir, Hnewes.
    simpl. unfold inodes_get. rewrite Hchild, Hparent. reflexivity.
Qed.

Lemma mkdir_then_resolve_witness :
  ∃ w', _mkdir tick_clock (Obj 9) "local" (boot tick_clock) = (Ok (Obj 23), w') ∧
        namei (fs w') (PStr "/usr/bin/local") = Ok (Obj 23) ∧
        namei (fs w') (PStr "/usr/bin/local/..") = Ok (Obj 9) ∧
        readdir (fs w') (PStr "/usr/bin/local") = Ok (Some [(".", Obj 23); ("..", Obj 9)]).
Proof.
  assert (∃ p, inodes (fs (boot tick_clock)) !! 9 = Some p ∧ isDirectory p = true)
    as (p & Hp & Hdir)
    by (eexists; split; [vm_compute; reflexivity | vm_compute; reflexivity]).
  assert (absolute "/usr/bin") as Hx by (exists "usr/bin"; reflexivity).
  assert (namei (fs (boot tick_clock)) (PStr "/usr/bin") = Ok (Obj 9)) as Hn
    by (vm_compute; reflexivity).
  assert (_lookup (fs (boot tick_clock)) (Obj 9) "local" = Ok Null) as Hnull
    by (vm_compute; reflexivity).
  assert (simple_nameb "local" = true) as Hsimple by reflexivity.
  destruct (mkdir_then_resolve tick_clock ∅ (boot tick_clock) "/usr/bin" "local" 9 p
              (reach_boot tick_clock) Hx Hn Hp Hdir Hnull Hsimple)
    as (w' & Hmk & Hnew & _ & Hup & Hrd).
  exists w'. exact (conj Hmk (conj Hnew (conj Hup Hrd))).
Defined.


(** ** What a write leaves alone *)

Lemma readdir_altered (f : Inode → Inode) (k : Z) (fs0 : UnixFilesystem) (path : PathArg) :
  keeps_shape f → readdir (altered f k fs0) path = readdir fs0 path.
Proof.
  intros Hshape. unfold readdir. rewrite (namei_altered f k fs0 Hshape).
  destruct (namei fs0 path) as [[| | j] | e]; try reflexivity.
  unfold mbind, Res_bind, deref.
  change (inodes (altered f k fs0)) with (alter f k (inodes fs0)).
  rewrite lookup_alter.
  assert (∀ es, List.map (fun entry => (name entry, inodes_get (altered f k fs0) (inum entry))) es
                = List.map (fun entry => (name entry, inodes_get fs0 (inum entry))) es) as Hmap.
  { intros es. apply map_ext. intros e. rewrite inodes_get_altered. reflexivity. }
  destruct (decide (k = j)) as [<- |].
  - destruct (inodes fs0 !! k) as [ino |]; simpl; [| reflexivity].
    rewrite (isDirectory_keeps_shape f Hshape). destruct (Hshape ino) as [_ ->].
    destruct (isDirectory ino), (i_entries ino); simpl; try reflexivity.
    rewrite Hmap. reflexivity.
  - destruct (inodes fs0 !! j) as [ino |]; simpl; [| reflexivity].
    destruct (isDirectory ino), (i_entries ino); simpl; try reflexivity.
    rewrite Hmap. reflexivity.
Qed.

Lemma write_world_altered (Date_now : nat → Z) (k : Z) (content : string) (w : World) :
  fs (write_world Date_now k content w)
  = altered (written_inode content (Date_now (clock_reads w))) k (fs w).
Proof. reflexivity. Qed.

(** X8: A [write], whatever its outcome and in whatever state, never changes the
    tree: every path resolves after the call as it did before ([namei] and
    [stat] give the same result), and [readdir] of every path returns the
    same listing. *)
Theorem write_keeps_tree (Date_now : nat → Z) (w : World) (path other : PathArg)
    (content : string) :
  namei (fs (snd (write Date_now path content w))) other = namei (fs w) other ∧
  stat (fs (snd (write Date_now path content w))) other = stat (fs w) other ∧
  readdir (fs (snd (write Date_now path content w))) other = readdir (fs w) other ∧
  nextInum (fs (snd (write Date_now path content w))) = nextInum (fs w).
Proof.
  rewrite write_spec.
  destruct (namei (fs w) path) as [[| | k] | e]; try (repeat split; reflexivity).
  destruct (inodes (fs w) !! k) as [ino |]; [| repeat split; reflexivity].
  destruct (isDirectory ino); [repeat split; reflexivity |].
  cbn [snd]. rewrite write_world_altered. unfold stat.
  rewrite namei_altered, readdir_altered by apply written_inode_keeps_shape.
  repeat split; reflexivity.
Qed.

(** X9: After a successful [write(P, D)], in whatever state, [read] of any path
    that resolves to the inode P resolved to returns D, under whatever name
    the path reaches it; [read] of every other path returns what it returned
    before. *)
Theorem write_read_frame (Date_now : nat → Z) (w w' : World) (path other : PathArg)
    (content : string) (k : Z) :
  namei (fs w) path = Ok (Obj k) →
  write Date_now path content w = (Ok true, w') →
  (namei (fs w) other = Ok (Obj k) → read (fs w') other = Ok (Some content)) ∧
  (namei (fs w) other ≠ Ok (Obj k) → read (fs w') other = read (fs w) other).
Proof.
  intros Hk Hw. rewrite write_spec, Hk in Hw.
  destruct (inodes (fs w) !! k) as [ino |] eqn:Hino; [| discriminate].
  destruct (isDirectory ino) eqn:Hd; [discriminate |].
  injection Hw as <-. rewrite write_world_altered.
  unfold read. rewrite namei_altered by apply written_inode_keeps_shape.
  split.
  - intros ->. unfold mbind, Res_bind, deref.
    change (inodes (altered ?g k (fs w))) with (alter g k (inodes (fs w))).
    rewrite lookup_alter_eq, Hino. simpl.
    change (isDirectory (written_inode content (Date_now (clock_reads w)) ino))
      with (isDirectory ino).
    rewrite Hd. reflexivity.
  - intros Hother. destruct (namei (fs w) other) as [[| | j] | e]; try reflexivity.
    assert (k ≠ j) as Hne by congruence.
    unfold mbind, Res_bind, deref.
    change (inodes (altered ?g k (fs w))) with (alter g k (inodes (fs w))).
    rewrite lookup_alter_ne by exact Hne. reflexivity.
Qed.

Lemma write_read_frame_witness :
  ∃ w', write tick_clock (PStr "/etc/motd") "hi" (boot tick_clock) = (Ok true, w') ∧
        read (fs w') (PStr "/usr/../etc/./motd") = Ok (Some "hi") ∧
        read (fs w') (PStr "/etc/passwd") = read (fs (boot tick_clock)) (PStr "/etc/passwd").
Proof.
  assert (namei (fs (boot tick_clock)) (PStr "/etc/motd") = Ok (Obj 15)) as Hk
    by (vm_compute; reflexivity).
  assert (∃ w', write tick_clock (PStr "/etc/motd") "hi" (boot tick_clock) = (Ok true, w'))
    as [w' Hw] by (eexists; vm_compute; reflexivity).
  exists w'. split; [exact Hw |].
  split.
  - refine (proj1 (write_read_frame tick_clock (boot tick_clock) w' (PStr "/etc/motd")
                     (PStr "/usr/../etc/./motd") "hi" 15 Hk Hw) _).
    vm_compute. reflexivity.
  - refine (proj2 (write_read_frame tick_clock (boot tick_clock) w' (PStr "/etc/motd")
                     (PStr "/etc/passwd") "hi" 15 Hk Hw) _).
    vm_compute. discriminate.
Defined.


(** ** Listings and lookups agree *)

Lemma lookup_loop_listing (fs0 : UnixFilesystem) (es : list DirectoryEntry) (nm : string) :
  lookup_loop fs0 es nm
  = listing_first (List.map (fun entry => (name entry, inodes_get fs0 (inum entry))) es) nm.
Proof.
  induction es as [| e es IH]; simpl; [reflexivity |].
  destruct (String.eqb (name e) nm); [reflexivity | exact IH].
Qed.

(** X10: What [readdir] lists is what resolution finds: when a path resolves to
    an inode and [readdir] of it returns a listing, [_lookup] of a name in
    that inode returns the inode listed with the first occurrence of the
    name, null when the name is not listed; and for an absolute path X and a
    simple name N, [stat(X/N)] returns that inode, null when it is undefined
    or the name is not listed. *)
Theorem readdir_lookup_agree (fs0 : UnixFilesystem) (x nm : string) (k : Z)
    (l : list (string * JsRef)) :
  namei fs0 (PStr x) = Ok (Obj k) → readdir fs0 (PStr x) = Ok (Some l) →
  _lookup fs0 (Obj k) nm = Ok (listing_first l nm) ∧
  (absolute x → simple_nameb nm = true →
   stat fs0 (PStr (x ++ "/" ++ nm))
   = Ok (if falsy (listing_first l nm) then Null else listing_first l nm)).
Proof.
  intros Hn Hrd. unfold readdir in Hrd. rewrite Hn in Hrd.
  unfold mbind, Res_bind, deref in Hrd.
  destruct (inodes fs0 !! k) as [ino |] eqn:Hk; [| discriminate].
  destruct (isDirectory ino) eqn:Hdir; simpl in Hrd; [| discriminate].
  destruct (i_entries ino) as [es |] eqn:Hes; [| discriminate].
  injection Hrd as <-.
  assert (_lookup fs0 (Obj k) nm
          = Ok (listing_first
                  (List.map (fun entry => (name entry, inodes_get fs0 (inum entry))) es) nm))
    as Hl.
  { unfold _lookup, mbind, Res_bind. simpl. rewrite Hk, Hdir, Hes. simpl.
    rewrite lookup_loop_listing. reflexivity. }
  split; [exact Hl |].
  intros Hx Hsimple. unfold stat.
  rewrite (namei_extend _ _ _ _ Hx Hn), (path_parts_simple _ Hsimple).
  simpl. unfold mbind, Res_bind. rewrite Hk, Hdir. simpl. rewrite Hl.
  destruct (listing_first _ nm); reflexivity.
Qed.

Lemma readdir_lookup_agree_witness :
  ∃ l, readdir (fs two_bins) (PStr "/") = Ok (Some l) ∧
       listing_first l "bin" = Obj 2 ∧
       _lookup (fs two_bins) (Obj 1) "bin" = Ok (Obj 2) ∧
       stat (fs two_bins) (PStr ("/" ++ "/" ++ "bin")) = Ok (Obj 2).
Proof.
  assert (namei (fs two_bins) (PStr "/") = Ok (Obj 1)) as Hn by (vm_compute; reflexivity).
  assert (∃ l, readdir (fs two_bins) (PStr "/") = Ok (Some l) ∧ listing_first l "bin" = Obj 2)
    as (l & Hrd & Hfirst)
    by (eexists; split; [vm_compute; reflexivity | vm_compute; reflexivity]).
  destruct (readdir_lookup_agree (fs two_bins) "/" "bin" 1 l Hn Hrd) as [Hl Hstat].
  exists l. split; [exact Hrd |]. split; [exact Hfirst |].
  rewrite Hfirst in Hl, Hstat. split; [exact Hl |].
  apply Hstat; [exists ""; reflexivity | reflexivity].
Defined.

(** ** Relative paths *)

(** X11: [namei] has no current directory: a path that is not empty resolves as
    the same path with a '/' put in front, in whatever state; so do [stat],
    [read] and [readdir]. *)
Theorem relative_is_absolute (fs0 : UnixFilesystem) (p : string) :
  p ≠ "" →
  namei fs0 (PStr p) = namei fs0 (PStr ("/" ++ p)) ∧
  stat fs0 (PStr p) = stat fs0 (PStr ("/" ++ p)) ∧
  read fs0 (PStr p) = read fs0 (PStr ("/" ++ p)) ∧
  readdir fs0 (PStr p) = readdir fs0 (PStr ("/" ++ p)).
Proof.
  intros Hp.
  assert (namei fs0 (PStr p) = namei fs0 (PStr ("/" ++ p))) as Hn.
  { rewrite (namei_walk _ p Hp), (namei_walk _ ("/" ++ p)) by discriminate.
    change ("/" ++ p) with ("" ++ "/" ++ p). rewrite path_parts_app. reflexivity. }
  unfold stat, read, readdir. rewrite Hn. auto.
Qed.

Lemma relative_is_absolute_witness :
  namei (fs (boot tick_clock)) (PStr "usr/games") = Ok (Obj 7).
Proof.
  rewrite (proj1 (relative_is_absolute (fs (boot tick_clock)) "usr/games" ltac:(discriminate))).
  vm_compute. reflexivity.
Defined.

(** ** Entry names *)

Lemma substring_length_min (m : nat) (s : string) :
  String.length (String.substring 0 m s) = Nat.min m (String.length s).
Proof.
  revert s. induction m as [| m IH]; intros [| c s]; simpl; try reflexivity.
  rewrite IH. reflexivity.
Qed.

Lemma substring_prefix (m : nat) (s : string) :
  String.prefix (String.substring 0 m s) s = true.
Proof.
  revert s. induction m as [| m IH]; intros [| c s]; simpl; try reflexivity.
  destruct (ascii_dec c c); [apply IH | congruence].
Qed.

(** X12: [new DirectoryEntry(i, name)] keeps the identifier and the first 14 code
    units of the name: the stored name is a prefix of the given one, of
    length min(14, name.length); it is the given name exactly when that has
    at most 14 code units, and cutting it again changes nothing. *)
Theorem entry_name_cut (i : Z) (nm : string) :
  inum (new_DirectoryEntry i nm) = i ∧
  String.length (name (new_DirectoryEntry i nm)) = Nat.min 14 (String.length nm) ∧
  String.prefix (name (new_DirectoryEntry i nm)) nm = true ∧
  (name (new_DirectoryEntry i nm) = nm ↔ (String.length nm ≤ 14)%nat) ∧
  new_DirectoryEntry i (name (new_DirectoryEntry i nm)) = new_DirectoryEntry i nm.
Proof.
  unfold new_DirectoryEntry. cbn [inum name].
  split; [reflexivity |]. split; [apply substring_length_min |].
  split; [apply substring_prefix |]. split.
  - split.
    + intros H. rewrite <- H at 1. apply substring_length_le.
    + apply substring_short.
  - rewrite (substring_short 14 (String.substring 0 14 nm)) by apply substring_length_le.
    reflexivity.
Qed.


(** ** Kinds and the permission string *)

Lemma land_pow2 (a n : Z) :
  (0 ≤ n)%Z → Z.land a (2 ^ n) = if Z.testbit a n then 2 ^ n else 0.
Proof.
  intros Hn. apply Z.bits_inj'. intros i Hi.
  rewrite Z.land_spec, Z.pow2_bits_eqb by exact Hn.
  destruct (Z.eqb_spec n i) as [-> | Hne].
  - destruct (Z.testbit a i); [| rewrite Z.bits_0; reflexivity].
    rewrite Z.pow2_bits_true by exact Hi. reflexivity.
  - rewrite andb_false_r.
    destruct (Z.testbit a n); [| rewrite Z.bits_0; reflexivity].
    rewrite Z.pow2_bits_false by congruence. reflexivity.
Qed.

Lemma type_bits_cases (mode : Z) :
  js_and mode IFMT = 0 ∨ js_and mode IFMT = IFCHR ∨
  js_and mode IFMT = IFDIR ∨ js_and mode IFMT = IFBLK.
Proof.
  unfold js_and. change (to_int32 IFMT) with (Z.lor (2 ^ 13) (2 ^ 14)).
  rewrite Z.land_lor_distr_r, !land_pow2 by lia.
  destruct (Z.testbit (to_int32 mode) 13), (Z.testbit (to_int32 mode) 14); cbn; auto.
Qed.

(** X13: Every mode has exactly one kind: [isRegular], [isCharDevice] and
    [isDirectory] exclude each other, and when none of them holds the type
    bits are those of a block device, for which the class has no predicate
    and which [getPermissionString] renders with '-' like a regular file. *)
Theorem kinds_partition (ino : Inode) :
  (isRegular ino = true ∧ isCharDevice ino = false ∧ isDirectory ino = false ∧
   js_and (i_mode ino) IFMT = 0) ∨
  (isRegular ino = false ∧ isCharDevice ino = true ∧ isDirectory ino = false ∧
   js_and (i_mode ino) IFMT = IFCHR) ∨
  (isRegular ino = false ∧ isCharDevice ino = false ∧ isDirectory ino = true ∧
   js_and (i_mode ino) IFMT = IFDIR) ∨
  (isRegular ino = false ∧ isCharDevice ino = false ∧ isDirectory ino = false ∧
   js_and (i_mode ino) IFMT = IFBLK ∧
   String.substring 0 1 (getPermissionString ino) = "-").
Proof.
  unfold isRegular, isCharDevice, isDirectory, getPermissionString.
  unfold isCharDevice, isDirectory.
  destruct (type_bits_cases (i_mode ino)) as [H | [H | [H | H]]]; rewrite H.
  - left. repeat split; reflexivity.
  - right. left. repeat split; reflexivity.
  - right. right. left. repeat split; reflexivity.
  - right. right. right. do 4 (split; [reflexivity |]).
    destruct (Z.eqb (js_and (i_mode ino) IREAD) 0); reflexivity.
Qed.

Lemma js_and_alloc (mode mask : Z) :
  0 ≤ mask < 2 ^ 31 → Z.land IALLOC mask = 0 →
  js_and (js_or mode IALLOC) mask = js_and mode mask.
Proof.
  intros Hm Hdisjoint. unfold js_and, js_or.
  assert (to_int32 mask = mask) as ->.
  { unfold to_int32. rewrite Z.mod_small by lia. lia. }
  change (to_int32 IALLOC) with IALLOC.
  rewrite !land_to_int32 by lia.
  rewrite Z.land_lor_distr_l, Hdisjoint, Z.lor_0_r.
  rewrite land_to_int32 by lia. reflexivity.
Qed.

(** X14: The allocated flag that [_allocInode] adds is invisible to the view of an
    inode: an inode whose mode is [mode | IALLOC] has the kind, the
    executable bit and the permission string of an inode whose mode is
    [mode]. *)
Theorem alloc_flag_invisible (ino ino' : Inode) :
  i_mode ino' = js_or (i_mode ino) IALLOC →
  isDirectory ino' = isDirectory ino ∧
  isRegular ino' = isRegular ino ∧
  isCharDevice ino' = isCharDevice ino ∧
  isExecutable ino' = isExecutable ino ∧
  getPermissionString ino' = getPermissionString ino.
Proof.
  intros Hmode.
  assert (js_and (i_mode ino') IFMT = js_and (i_mode ino) IFMT) as Ht
    by (rewrite Hmode; apply type_bits_alloc).
  assert (js_and (i_mode ino') IREAD = js_and (i_mode ino) IREAD) as Hr
    by (rewrite Hmode; apply js_and_alloc; [unfold IREAD; lia | reflexivity]).
  assert (js_and (i_mode ino') IWRITE = js_and (i_mode ino) IWRITE) as Hw
    by (rewrite Hmode; apply js_and_alloc; [unfold IWRITE; lia | reflexivity]).
  assert (js_and (i_mode ino') IEXEC = js_and (i_mode ino) IEXEC) as Hx
    by (rewrite Hmode; apply js_and_alloc; [unfold IEXEC; lia | reflexivity]).
  unfold getPermissionString, isExecutable, isDirectory, isRegular, isCharDevice.
  rewrite Ht, Hr, Hw, Hx. auto.
Qed.

Lemma alloc_flag_invisible_witness :
  ∃ ino, inodes (fs (boot tick_clock)) !! 16 = Some ino ∧
         i_mode ino = js_or mode_755 IALLOC ∧
         getPermissionString ino = "-rwxrwxrwx" ∧ isExecutable ino = true.
Proof.
  assert (∃ ino, inodes (fs (boot tick_clock)) !! 16 = Some ino ∧
                 i_mode ino = js_or mode_755 IALLOC) as (ino & Hino & Hmode)
    by (eexists; split; [vm_compute; reflexivity | vm_compute; reflexivity]).
  exists ino. split; [exact Hino |]. split; [exact Hmode |].
  pose (plain := {| i_number := 0; i_mode := mode_755; i_nlink := 1; i_uid := 0; i_gid := 0;
                    i_size := 0; i_atime := 0; i_mtime := 0; i_data := None;
                    i_entries := None |}).
  destruct (alloc_flag_invisible plain ino Hmode) as (_ & _ & _ & Hx & Hs).
  rewrite Hs, Hx. split; reflexivity.
Defined.

(** X15: The permission string has ten characters: a type character, which is
    'd' exactly for a directory and 'c' exactly for a character device, and
    one read-write-execute triple written three times, whose last character
    is 'x' exactly when [isExecutable] holds. *)
Theorem permission_string_shape (ino : Inode) :
  ∃ t r w x : ascii,
    getPermissionString ino
    = String t (String r (String w (String x (String r (String w (String x
        (String r (String w (String x EmptyString))))))))) ∧
    (t = "d"%char ↔ isDirectory ino = true) ∧
    (t = "c"%char ↔ isCharDevice ino = true) ∧
    (r = "r"%char ∨ r = "-"%char) ∧ (w = "w"%char ∨ w = "-"%char) ∧
    (x = "x"%char ↔ isExecutable ino = true).
Proof.
  unfold getPermissionString, isExecutable, isDirectory, isCharDevice.
  destruct (type_bits_cases (i_mode ino)) as [H | [H | [H | H]]]; rewrite H;
    destruct (Z.eqb (js_and (i_mode ino) IREAD) 0),
             (Z.eqb (js_and (i_mode ino) IWRITE) 0),
             (Z.eqb (js_and (i_mode ino) IEXEC) 0);
    cbn; do 4 eexists; (split; [reflexivity |]);
    repeat split; try discriminate; try reflexivity; auto; intros; discriminate.
Qed.


(** ** Making a device or a file *)

Lemma alloc_push_outcome (w : World) (k : Z) (p ino : Inode) (e : DirectoryEntry) :
  inodes (fs w) !! nextInum (fs w) = None → inodes (fs w) !! k = Some p →
  ∀ r : Res JsRef * World,
    r = match i_entries p with
        | None => (Throw TypeError, alloc_world w ino)
        | Some es => (Ok (Obj (nextInum (fs w))), push_world k e es (alloc_world w ino))
        end →
    inodes (fs (snd r)) !! nextInum (fs w) = Some ino ∧
    nextInum (fs (snd r)) = nextInum (fs w) + 1 ∧
    (∀ j, j ≠ nextInum (fs w) → j ≠ k → inodes (fs (snd r)) !! j = inodes (fs w) !! j) ∧
    (i_entries p = None → fst r = Throw TypeError ∧ inodes (fs (snd r)) !! k = Some p) ∧
    (∀ es, i_entries p = Some es →
           fst r = Ok (Obj (nextInum (fs w))) ∧
           inodes (fs (snd r)) !! k = Some (set_i_entries (es ++ [e]) p)).
Proof.
  intros Hfresh Hk r ->.
  assert (k ≠ nextInum (fs w)) as Hne by congruence.
  destruct (i_entries p) as [es |]; simpl.
  - split; [rewrite lookup_alter_ne by exact Hne; apply lookup_insert_eq |].
    split; [reflexivity |]. split.
    { intros j Hj1 Hj2. rewrite lookup_alter_ne by congruence.
      apply lookup_insert_ne. congruence. }
    split; [discriminate |]. intros es' [= <-]. split; [reflexivity |].
    rewrite lookup_alter_eq, lookup_insert_ne by congruence. rewrite Hk. reflexivity.
  - split; [apply lookup_insert_eq |]. split; [reflexivity |].
    split; [intros j Hj1 Hj2; apply lookup_insert_ne; congruence |].
    split; [| discriminate]. intros _. split; [reflexivity |].
    rewrite lookup_insert_ne by congruence. exact Hk.
Qed.

(** X16: [_mkdev] and [_mkfile] check their parent no more than [_mkdir] does.  In
    every reachable state and for every parent inode of the table, each first
    allocates the new inode under the next identifier, with the mode [mode |
    IALLOC] and no entries (and, for [_mkfile], the payload and its length as
    size).  Under a parent that is not directory-kind the call then throws a
    TypeError and the new inode stays in the table while the parent is as it
    was; under a directory-kind parent it returns the new inode and has
    appended the new identifier with the name cut to 14 code units to the
    parent's entries. *)
Theorem mkdev_mkfile_outcome (Date_now : nat → Z) (W : gset Z) (w : World) (k : Z)
    (p : Inode) (nm content : string) (mode : Z) :
  reach Date_now W w → inodes (fs w) !! k = Some p →
  ∃ dev file,
    inodes (fs (snd (_mkdev Date_now (Obj k) nm mode w))) !! nextInum (fs w) = Some dev ∧
    inodes (fs (snd (_mkfile Date_now (Obj k) nm content mode w))) !! nextInum (fs w)
      = Some file ∧
    i_mode dev = js_or mode IALLOC ∧ i_data dev = None ∧ i_entries dev = None ∧
    i_mode file = js_or mode IALLOC ∧ i_data file = Some content ∧
    i_size file = Z.of_nat (String.length content) ∧ i_entries file = None ∧
    nextInum (fs (snd (_mkdev Date_now (Obj k) nm mode w))) = nextInum (fs w) + 1 ∧
    nextInum (fs (snd (_mkfile Date_now (Obj k) nm content mode w))) = nextInum (fs w) + 1 ∧
    (isDirectory p = false →
       fst (_mkdev Date_now (Obj k) nm mode w) = Throw TypeError ∧
       fst (_mkfile Date_now (Obj k) nm content mode w) = Throw TypeError ∧
       inodes (fs (snd (_mkdev Date_now (Obj k) nm mode w))) !! k = Some p ∧
       inodes (fs (snd (_mkfile Date_now (Obj k) nm content mode w))) !! k = Some p) ∧
    (isDirectory p = true →
       ∃ es, i_entries p = Some es ∧
             fst (_mkdev Date_now (Obj k) nm mode w) = Ok (Obj (nextInum (fs w))) ∧
             fst (_mkfile Date_now (Obj k) nm content mode w) = Ok (Obj (nextInum (fs w))) ∧
             inodes (fs (snd (_mkdev Date_now (Obj k) nm mode w))) !! k
             = Some (set_i_entries
                       (es ++ [mkDirectoryEntry (nextInum (fs w)) (String.substring 0 14 nm)])
                       p) ∧
             inodes (fs (snd (_mkfile Date_now (Obj k) nm content mode w))) !! k
             = Some (set_i_entries
                       (es ++ [mkDirectoryEntry (nextInum (fs w)) (String.substring 0 14 nm)])
                       p)).
Proof.
  intros Hreach Hk. pose proof (reach_Inv _ _ _ Hreach) as HI.
  pose proof (reach_inode_okb _ _ _ _ _ Hreach Hk) as Hok.
  assert (inodes (fs w) !! nextInum (fs w) = None) as Hfresh.
  { destruct (inodes (fs w) !! nextInum (fs w)) eqn:H; [| reflexivity].
    exfalso. eapply (Inv_fresh _ _ _ HI); eauto. }
  assert (k ≠ nextInum (fs w)) as Hne by congruence.
  destruct (alloc_push_outcome w k p (blank_inode Date_now w mode)
              (new_DirectoryEntry (nextInum (fs w)) nm) Hfresh Hk
              _ (mkdev_spec Date_now k nm mode w p Hk Hne))
    as (Hd1 & Hd2 & _ & Hd4 & Hd5).
  destruct (alloc_push_outcome w k p (mkfile_inode Date_now w content mode)
              (new_DirectoryEntry (nextInum (fs w)) nm) Hfresh Hk
              _ (mkfile_spec Date_now k nm content mode w p Hk Hne))
    as (Hf1 & Hf2 & _ & Hf4 & Hf5).
  exists (blank_inode Date_now w mode), (mkfile_inode Date_now w content mode).
  split; [exact Hd1 |]. split; [exact Hf1 |].
  do 7 (split; [reflexivity |]).
  split; [exact Hd2 |]. split; [exact Hf2 |]. split.
  - intros Hdir. pose proof (inode_okb_not_directory _ _ _ Hok Hdir) as Hnone.
    destruct (Hd4 Hnone) as [Ha Hb]. destruct (Hf4 Hnone) as [Hc Hd].
    exact (conj Ha (conj Hc (conj Hb Hd))).
  - intros Hdir. destruct (inode_okb_directory _ _ _ Hok Hdir) as [_ [es Hes]].
    exists es. split; [exact Hes |].
    destruct (Hd5 es Hes) as [Ha Hb]. destruct (Hf5 es Hes) as [Hc Hd].
    exact (conj Ha (conj Hc (conj Hb Hd))).
Qed.

Lemma mkdev_mkfile_outcome_witness :
  fst (_mkfile tick_clock (Obj 14) "x" "data" mode_644 (boot tick_clock)) = Throw TypeError ∧
  (∃ file, inodes (fs (snd (_mkfile tick_clock (Obj 14) "x" "data" mode_644 (boot tick_clock))))
             !! 23 = Some file ∧ i_data file = Some "data") ∧
  fst (_mkdev tick_clock (Obj 3) "console" (js_or IFCHR mode_666) (boot tick_clock))
    = Ok (Obj 23).
Proof.
  assert (∃ p, inodes (fs (boot tick_clock)) !! 14 = Some p ∧ isDirectory p = false)
    as (p & Hp & Hnd)
    by (eexists; split; [vm_compute; reflexivity | vm_compute; reflexivity]).
  assert (∃ d, inodes (fs (boot tick_clock)) !! 3 = Some d ∧ isDirectory d = true)
    as (d & Hd & Hdir)
    by (eexists; split; [vm_compute; reflexivity | vm_compute; reflexivity]).
  destruct (mkdev_mkfile_outcome tick_clock ∅ (boot tick_clock) 14 p "x" "data" mode_644
              (reach_boot tick_clock) Hp)
    as (_ & file & _ & Hfile & _ & _ & _ & _ & Hdata & _ & _ & _ & _ & Hfail & _).
  destruct (mkdev_mkfile_outcome tick_clock ∅ (boot tick_clock) 3 d "console" ""
              (js_or IFCHR mode_666) (reach_boot tick_clock) Hd)
    as (_ & _ & _ & _ & _ & _ & _ & _ & _ & _ & _ & _ & _ & _ & Hok).
  destruct (Hfail Hnd) as (_ & Hthrow & _).
  destruct (Hok Hdir) as (es & _ & Hdev & _).
  split; [exact Hthrow |]. split; [exists file; exact (conj Hfile Hdata) | exact Hdev].
Defined.


(** ** moo *)

Lemma score_step_bounds (secret guess : string) (acc : Z * Z) (i : nat) :
  let acc' := score_step secret guess acc i in
  (fst acc ≤ fst acc')%Z ∧ (snd acc ≤ snd acc')%Z ∧
  (fst acc' + snd acc' ≤ fst acc + snd acc + 1)%Z.
Proof.
  unfold score_step. destruct (bool_decide _); [simpl; lia |].
  destruct (includes _ _); simpl; lia.
Qed.

Lemma score_fold_bounds (secret guess : string) (l : list nat) (acc : Z * Z) :
  let r := fold_left (score_step secret guess) l acc in
  (fst acc ≤ fst r)%Z ∧ (snd acc ≤ snd r)%Z ∧
  (fst r + snd r ≤ fst acc + snd acc + Z.of_nat (List.length l))%Z.
Proof.
  revert acc. induction l as [| i l IH]; intros acc; simpl; [lia |].
  specialize (IH (score_step secret guess acc i)).
  pose proof (score_step_bounds secret guess acc i). simpl in *. lia.
Qed.

Lemma score_fold_bulls (secret guess : string) (l : list nat) (acc : Z * Z) :
  fst (fold_left (score_step secret guess) l acc) = fst acc + Z.of_nat (List.length l) ↔
  ∀ i, i ∈ l → char_at guess i = char_at secret i.
Proof.
  revert acc. induction l as [| i l IH]; intros acc.
  - simpl. split; [intros _ i Hi; inversion Hi | lia].
  - cbn [fold_left List.length].
    pose proof (score_fold_bounds secret guess l (score_step secret guess acc i)) as Hb.
    cbv zeta in Hb. specialize (IH (score_step secret guess acc i)).
    unfold score_step in *.
    destruct (bool_decide_reflect (char_at guess i = char_at secret i)) as [Heq | Hne].
    + cbn [fst snd] in *. split.
      * intros H j Hj. apply elem_of_cons in Hj as [-> | Hj]; [exact Heq |].
        apply IH; [lia | exact Hj].
      * intros H. assert (∀ j, j ∈ l → char_at guess j = char_at secret j) as Hl
          by (intros j Hj; apply H; right; exact Hj).
        apply IH in Hl. lia.
    + split.
      * intros H. exfalso.
        destruct (includes secret (char_at guess i)); cbn [fst snd] in *; lia.
      * intros H. exfalso. apply Hne, H. left.
Qed.

Lemma get_ext_4 (s t : string) :
  String.length s = 4%nat → String.length t = 4%nat →
  (∀ i, i ∈ seq 0 4 → char_at s i = char_at t i) → s = t.
Proof.
  intros Hs Ht H.
  destruct s as [| a [| b [| c [| d [| ? ?]]]]]; try discriminate Hs.
  destruct t as [| a' [| b' [| c' [| d' [| ? ?]]]]]; try discriminate Ht.
  pose proof (H 0%nat ltac:(set_solver)) as H0.
  pose proof (H 1%nat ltac:(set_solver)) as H1.
  pose proof (H 2%nat ltac:(set_solver)) as H2.
  pose proof (H 3%nat ltac:(set_solver)) as H3.
  cbn in H0, H1, H2, H3. congruence.
Qed.

(** X17: [score] never counts more than four: bulls and cows are not negative and
    add up to at most 4, whatever the strings.  And when the secret and the
    guess both have four characters, the guess scores 4 bulls exactly when it
    is the secret, which is the test that ends a game. *)
Theorem score_bulls (secret guess : string) :
  ((0 ≤ fst (score secret guess))%Z ∧ (0 ≤ snd (score secret guess))%Z ∧
   (fst (score secret guess) + snd (score secret guess) ≤ 4)%Z) ∧
  (String.length secret = 4%nat → String.length guess = 4%nat →
   (fst (score secret guess) = 4 ↔ guess = secret)).
Proof.
  split.
  - pose proof (score_fold_bounds secret guess (seq 0 4) (0, 0)) as H.
    cbv zeta in H. cbn [fst snd List.length seq] in H. unfold score. cbn [seq]. lia.
  - intros Hs Hg. unfold score.
    pose proof (score_fold_bulls secret guess (seq 0 4) (0, 0)) as H.
    cbn [fst List.length seq] in H. cbn [seq]. change (0 + Z.of_nat 4) with 4 in H.
    rewrite H. split.
    + intros Hall. apply get_ext_4; assumption.
    + intros -> i _. reflexivity.
Qed.

Lemma score_bulls_witness :
  score "1234" "1243" = (2, 2) ∧ (fst (score "1234" "1234") = 4 ↔ "1234" = "1234").
Proof.
  split; [reflexivity |].
  exact (proj2 (score_bulls "1234" "1234") eq_refl eq_refl).
Defined.

Lemma size_list_to_set_le (l : list ascii) :
  (size (list_to_set l : gset ascii) ≤ List.length l)%nat.
Proof.
  induction l as [| x l IH];
    [rewrite list_to_set_nil, size_empty; simpl; lia | rewrite list_to_set_cons; simpl].
  pose proof (size_union_alt ({[x]} : gset ascii) (list_to_set l)) as H.
  rewrite size_singleton in H.
  assert (list_to_set l ∖ {[x]} ⊆ (list_to_set l : gset ascii)) as Hsub
    by (intros y Hy; apply elem_of_difference in Hy as [Hy _]; exact Hy).
  pose proof (subseteq_size _ _ Hsub).
  lia.
Qed.

Lemma size_list_to_set_NoDup (l : list ascii) :
  size (list_to_set l : gset ascii) = List.length l ↔ NoDup l.
Proof.
  split; [| apply size_list_to_set].
  induction l as [| x l IH]; [constructor |].
  rewrite list_to_set_cons. cbn [List.length]. intros H.
  pose proof (size_list_to_set_le l) as Hle.
  destruct (decide (x ∈ l)) as [Hin | Hnin].
  - exfalso.
    assert (({[x]} ∪ list_to_set l : gset ascii) = list_to_set l) as Heq.
    { apply set_eq. intros y. rewrite elem_of_union, elem_of_singleton, elem_of_list_to_set.
      split; [intros [-> | Hy]; assumption | auto]. }
    rewrite Heq in H. lia.
  - constructor; [exact Hnin |]. apply IH.
    rewrite size_union, size_singleton in H by set_solver. lia.
Qed.

(** X18: [isValidGuess] accepts exactly the strings of four digits that are all
    different from each other. *)
Theorem valid_guess_iff (guess : string) :
  isValidGuess guess = true ↔
  String.length guess = 4%nat ∧
  Forall (fun c => is_digit c = true) (list_ascii_of_string guess) ∧
  NoDup (list_ascii_of_string guess).
Proof.
  unfold isValidGuess.
  destruct guess as [| a [| b [| c [| d [| e rest]]]]];
    try (cbn; split; [discriminate | intros [H _]; discriminate H]).
  cbn [four_digits].
  destruct (is_digit a && is_digit b && is_digit c && is_digit d) eqn:Hd; cbn [negb].
  - rewrite bool_decide_eq_true.
    change 4%nat with (List.length (list_ascii_of_string (String a (String b (String c (String d "")))))) at 1.
    rewrite size_list_to_set_NoDup.
    apply andb_true_iff in Hd as [Hd Hd4]. apply andb_true_iff in Hd as [Hd Hd3].
    apply andb_true_iff in Hd as [Hd1 Hd2].
    split; [intros H; split; [reflexivity | split; [| exact H]] | tauto].
    cbn. repeat constructor; assumption.
  - split; [discriminate |]. intros (_ & Hall & _). exfalso.
    cbn in Hall. inversion Hall as [| ? ? H1 Hall1]; subst.
    inversion Hall1 as [| ? ? H2 Hall2]; subst. inversion Hall2 as [| ? ? H3 Hall3]; subst.
    inversion Hall3 as [| ? ? H4 _]; subst.
    rewrite H1, H2, H3, H4 in Hd. discriminate Hd.
Qed.


(** ** ttt *)

Lemma encode_cells_9 (a b c d e f g h i : Z) :
  encode_cells [a; b; c; d; e; f; g; h; i]
  = (((((((a * 3 + b) * 3 + c) * 3 + d) * 3 + e) * 3 + f) * 3 + g) * 3 + h) * 3 + i.
Proof. unfold encode_cells. cbn. lia. Qed.

Lemma board_ok_cells (cells : list Z) :
  board_ok cells →
  ∃ a b c d e f g h i,
    cells = [a; b; c; d; e; f; g; h; i] ∧
    (0 ≤ a ≤ 2)%Z ∧ (0 ≤ b ≤ 2)%Z ∧ (0 ≤ c ≤ 2)%Z ∧ (0 ≤ d ≤ 2)%Z ∧ (0 ≤ e ≤ 2)%Z ∧
    (0 ≤ f ≤ 2)%Z ∧ (0 ≤ g ≤ 2)%Z ∧ (0 ≤ h ≤ 2)%Z ∧ (0 ≤ i ≤ 2)%Z.
Proof.
  intros [Hlen Hall].
  destruct cells as [| a [| b [| c [| d [| e [| f [| g [| h [| i [| ? ?]]]]]]]]]];
    try discriminate Hlen.
  exists a, b, c, d, e, f, g, h, i. split; [reflexivity |].
  repeat (apply Forall_cons in Hall as [? Hall]). tauto.
Qed.

(** X19: The base-3 code of a board tells the board: on boards of nine cells that
    are each 0, 1 or 2, [encodeBoard] is injective, and its value lies in
    0 .. 19682, so it fits the two bytes that the knowledge file gives it. *)
Theorem encodeBoard_injective (t1 t2 : TicTacToe) :
  board_ok (board t1) → board_ok (board t2) →
  (0 ≤ encodeBoard t1 < 19683)%Z ∧ encodeBoard t1 < 2 ^ 16 ∧
  (encodeBoard t1 = encodeBoard t2 → board t1 = board t2).
Proof.
  intros H1 H2. unfold encodeBoard.
  destruct (board_ok_cells _ H1) as (a & b & c & d & e & f & g & h & i & -> & Hb).
  destruct (board_ok_cells _ H2) as (a' & b' & c' & d' & e' & f' & g' & h' & i' & -> & Hb').
  rewrite !encode_cells_9.
  split; [lia |]. split; [lia |].
  intros Heq.
  assert (i = i') by lia. assert (h = h') by lia. assert (g = g') by lia.
  assert (f = f') by lia. assert (e = e') by lia. assert (d = d') by lia.
  assert (c = c') by lia. assert (b = b') by lia. assert (a = a') by lia.
  congruence.
Qed.

Lemma encodeBoard_injective_witness :
  encodeBoard (mkTicTacToe [1; 0; 0; 0; 2; 0; 0; 0; 0] ∅ [] false) = 6723 ∧
  (encodeBoard (mkTicTacToe [1; 0; 0; 0; 2; 0; 0; 0; 0] ∅ [] false)
   = encodeBoard (mkTicTacToe [1; 0; 0; 0; 2; 0; 0; 0; 0] ∅ [0; 4]%nat true) →
   [1; 0; 0; 0; 2; 0; 0; 0; 0] = [1; 0; 0; 0; 2; 0; 0; 0; 0]).
Proof.
  assert (board_ok [1; 0; 0; 0; 2; 0; 0; 0; 0]) as Hok
    by (split; [reflexivity | repeat constructor; lia]).
  split; [reflexivity |].
  exact (proj2 (proj2 (encodeBoard_injective
                         (mkTicTacToe [1; 0; 0; 0; 2; 0; 0; 0; 0] ∅ [] false)
                         (mkTicTacToe [1; 0; 0; 0; 2; 0; 0; 0; 0] ∅ [0; 4]%nat true)
                         Hok Hok))).
Defined.

Lemma lookup_total_Some (cells : list Z) (i : nat) :
  (i < List.length cells)%nat → cells !! i = Some (cells !!! i).
Proof.
  intros Hi. destruct (lookup_lt_is_Some_2 cells i Hi) as [x Hx].
  rewrite Hx. f_equal. symmetry. apply list_lookup_total_correct, Hx.
Qed.

(** X20: On a board of nine cells, [checkWinner] returns a player only when a
    line of WINS holds that player in all three cells, and it returns EMPTY
    exactly when no line holds three equal cells that are not empty. *)
Theorem checkWinner_line (t : TicTacToe) :
  List.length (board t) = 9%nat →
  (checkWinner t ≠ EMPTY →
   ∃ a b c, (a, b, c) ∈ WINS ∧
            board t !! a = Some (checkWinner t) ∧ board t !! b = Some (checkWinner t) ∧
            board t !! c = Some (checkWinner t)) ∧
  (checkWinner t = EMPTY ↔
   ∀ a b c, (a, b, c) ∈ WINS →
            ¬ (board t !!! a ≠ EMPTY ∧ board t !!! a = board t !!! b ∧
               board t !!! b = board t !!! c)).
Proof.
  intros Hlen. unfold checkWinner.
  assert (∀ a b c, (a, b, c) ∈ WINS → (a < 9 ∧ b < 9 ∧ c < 9)%nat) as Hrange.
  { intros a b c Hin. unfold WINS in Hin.
    repeat (apply elem_of_cons in Hin as [[= -> -> ->] | Hin]; [lia |]).
    apply elem_of_nil in Hin. contradiction. }
  assert (∀ a b c, wins_line (board t) (a, b, c) = true ↔
                   (board t !!! a ≠ EMPTY ∧ board t !!! a = board t !!! b ∧
                    board t !!! b = board t !!! c)) as Hline.
  { intros a b c. unfold wins_line.
    rewrite !andb_true_iff, negb_true_iff, Z.eqb_neq, !Z.eqb_eq. tauto. }
  destruct (find (wins_line (board t)) WINS) as [[[a b] c] |] eqn:Hfind.
  - apply find_some in Hfind as [Hin Hw]. apply list_elem_of_In in Hin.
    apply Hline in Hw as (Hne & Hab & Hbc).
    destruct (Hrange _ _ _ Hin) as (Ha & Hb & Hc).
    split.
    + intros _. exists a, b, c. split; [exact Hin |].
      rewrite !lookup_total_Some by lia. rewrite <- Hbc, <- Hab. auto.
    + split; [intros H; contradiction |].
      intros H. exfalso. apply (H a b c Hin). auto.
  - split; [intros H; contradiction |].
    split; [| reflexivity]. intros _ a b c Hin Hw.
    apply Hline in Hw. apply list_elem_of_In in Hin.
    rewrite (find_none _ _ Hfind _ Hin) in Hw. discriminate.
Qed.

Lemma checkWinner_line_witness :
  checkWinner (mkTicTacToe [1; 2; 0; 2; 1; 0; 0; 0; 1] ∅ [] false) = HUMAN ∧
  ∃ a b c, (a, b, c) ∈ WINS ∧
           [1; 2; 0; 2; 1; 0; 0; 0; 1] !! a = Some HUMAN ∧
           [1; 2; 0; 2; 1; 0; 0; 0; 1] !! b = Some HUMAN ∧
           [1; 2; 0; 2; 1; 0; 0; 0; 1] !! c = Some HUMAN.
Proof.
  split; [reflexivity |].
  refine (proj1 (checkWinner_line (mkTicTacToe [1; 2; 0; 2; 1; 0; 0; 0; 1] ∅ [] false) eq_refl) _).
  discriminate.
Defined.

(** ** The computer's move *)

Lemma set_board_same (t : TicTacToe) : set_board (board t) t = t.
Proof. destruct t. reflexivity. Qed.

Lemma try_move_spec (t : TicTacToe) (bm bw : Z) (i : nat) :
  (i < List.length (board t))%nat →
  ∃ bm' bw',
    try_move (t, bm, bw) i = (t, bm', bw') ∧
    ((bm' = bm ∧ bw' = bw) ∨ (bm' = Z.of_nat i ∧ board t !! i = Some EMPTY)) ∧
    (board t !! i ≠ Some EMPTY → bm' = bm ∧ bw' = bw).
Proof.
  intros Hi. unfold try_move.
  pose proof (lookup_total_Some _ _ Hi) as Hcell.
  destruct (Z.eqb_spec (board t !!! i) EMPTY) as [He | Hne].
  - rewrite He in Hcell.
    assert (set_board (<[i := EMPTY]> (board (set_board (<[i := COMPUTER]> (board t)) t)))
              (set_board (<[i := COMPUTER]> (board t)) t) = t) as ->.
    { destruct t as [b k m d]. unfold set_board. cbn [board knowledge moveHistory knowledgeDirty] in *.
      rewrite list_insert_insert_eq, (list_insert_id _ _ _ Hcell). reflexivity. }
    destruct (Z.ltb bw _); do 2 eexists; (split; [reflexivity |]);
      (split; [auto | intros H; contradiction]).
  - exists bm, bw. split; [reflexivity |]. split; [left |]; auto.
Qed.

Lemma try_moves_spec (t : TicTacToe) (l : list nat) (bm bw : Z) :
  (∀ i, i ∈ l → (i < List.length (board t))%nat) →
  ∃ bm' bw',
    fold_left try_move l (t, bm, bw) = (t, bm', bw') ∧
    ((bm' = bm ∧ bw' = bw) ∨
     ∃ m, m ∈ l ∧ bm' = Z.of_nat m ∧ board t !! m = Some EMPTY) ∧
    ((∀ i, i ∈ l → board t !! i ≠ Some EMPTY) → bm' = bm ∧ bw' = bw).
Proof.
  revert bm bw. induction l as [| i l IH]; intros bm bw Hl.
  - exists bm, bw. split; [reflexivity |]. split; [left |]; auto.
  - cbn [fold_left].
    destruct (try_move_spec t bm bw i (Hl i ltac:(left))) as (bm1 & bw1 & -> & Hstep & Hsame).
    destruct (IH bm1 bw1 ltac:(intros j Hj; apply Hl; right; exact Hj))
      as (bm2 & bw2 & -> & Hrest & Hsame').
    exists bm2, bw2. split; [reflexivity |]. split.
    + destruct Hrest as [[-> ->] | (m & Hm & -> & Hcell)].
      * destruct Hstep as [[-> ->] | [-> Hcell]]; [left; auto |].
        right. exists i. split; [left | auto].
      * right. exists m. split; [right; exact Hm | auto].
    + intros Hnone.
      destruct (Hsame (Hnone i ltac:(left))) as [-> ->].
      apply Hsame'. intros j Hj. apply Hnone. right. exact Hj.
Qed.

Lemma priority_all (i : nat) : (i < 9)%nat → i ∈ priority.
Proof.
  intros Hi. unfold priority.
  do 9 (destruct i as [| i]; [set_solver |]). lia.
Qed.

Lemma priority_range (i : nat) : i ∈ priority → (i < 9)%nat.
Proof.
  unfold priority. intros Hin.
  repeat (apply elem_of_cons in Hin as [-> | Hin]; [lia |]).
  apply elem_of_nil in Hin. contradiction.
Qed.

Lemma isFull_false (t : TicTacToe) :
  isFull t = false → ∃ i, (i < List.length (board t))%nat ∧ board t !! i = Some EMPTY.
Proof.
  unfold isFull. intros H.
  induction (board t) as [| c cells IH]; [discriminate |].
  cbn [forallb] in H. apply andb_false_iff in H as [H | H].
  - exists 0%nat. split; [simpl; lia |]. simpl. f_equal.
    apply negb_false_iff, Z.eqb_eq in H. exact H.
  - destruct (IH H) as (i & Hi & Hcell). exists (S i). split; [simpl; lia | exact Hcell].
Qed.

Lemma isFull_true (t : TicTacToe) (i : nat) : isFull t = true → board t !! i ≠ Some EMPTY.
Proof.
  unfold isFull. rewrite forallb_forall. intros H Hcell.
  apply list_elem_of_lookup_2, list_elem_of_In, H in Hcell. discriminate Hcell.
Qed.

(** X21: On a board of nine cells [computeMove] leaves the object as it found it
    (each cell it tries is emptied again); when the board has an empty cell
    it returns the index of an empty cell, and it returns -1 only when the
    board is full, whatever the weights: the "I concede" branch of the game
    loop, which runs after the test for a full board, is never taken. *)
Theorem computeMove_empty_cell (t : TicTacToe) :
  List.length (board t) = 9%nat →
  snd (computeMove t) = t ∧
  (isFull t = false →
   ∃ m, fst (computeMove t) = Z.of_nat m ∧ (m < 9)%nat ∧ board t !! m = Some EMPTY) ∧
  (isFull t = true → fst (computeMove t) = -1).
Proof.
  intros Hlen. unfold computeMove.
  destruct (try_moves_spec t (seq 0 9) (-1) (-1000)) as (bm & bw & -> & Hinv & Hnone).
  { intros i Hi. apply elem_of_seq in Hi. lia. }
  assert (∀ pos, find (fun pos => Z.eqb (board t !!! pos) EMPTY) priority = Some pos →
                 (pos < 9)%nat ∧ board t !! pos = Some EMPTY) as Hfound.
  { intros pos Hf. apply find_some in Hf as [Hin He].
    apply list_elem_of_In, priority_range in Hin. split; [exact Hin |].
    rewrite lookup_total_Some by lia. f_equal. apply Z.eqb_eq, He. }
  split; [| split].
  - destruct (Z.ltb bm 0 || Z.eqb bw 0); [| reflexivity].
    destruct (find _ priority); reflexivity.
  - intros Hfull. destruct (isFull_false t Hfull) as (j & Hj & Hcell).
    destruct (Z.ltb bm 0 || Z.eqb bw 0) eqn:Hfallback.
    + destruct (find (fun pos => Z.eqb (board t !!! pos) EMPTY) priority) as [pos |] eqn:Hf.
      * exists pos. destruct (Hfound pos eq_refl). auto.
      * exfalso.
        assert (In j priority) as Hin by (apply list_elem_of_In, priority_all; lia).
        pose proof (find_none _ _ Hf j Hin) as Hj'. cbv beta in Hj'.
        rewrite (list_lookup_total_correct _ _ _ Hcell) in Hj'.
        discriminate Hj'.
    + apply orb_false_iff in Hfallback as [Hbm _]. apply Z.ltb_ge in Hbm.
      destruct Hinv as [[-> _] | (m & Hm & -> & Hcell')]; [lia |].
      exists m. apply elem_of_seq in Hm. cbn [fst]. split; [reflexivity |]. split; [lia | exact Hcell'].
  - intros Hfull.
    destruct (Hnone ltac:(intros i _; apply isFull_true, Hfull)) as [-> ->].
    cbn [Z.ltb Z.compare orb].
    destruct (find (fun pos => Z.eqb (board t !!! pos) EMPTY) priority) as [pos |] eqn:Hf;
      [| reflexivity].
    exfalso. destruct (Hfound pos eq_refl) as [_ Hcell].
    apply (isFull_true t pos Hfull Hcell).
Qed.

Lemma computeMove_empty_cell_witness :
  computeMove (mkTicTacToe [1; 0; 0; 0; 0; 0; 0; 0; 0] ∅ [0%nat] false)
  = (4, mkTicTacToe [1; 0; 0; 0; 0; 0; 0; 0; 0] ∅ [0%nat] false) ∧
  fst (computeMove (mkTicTacToe [1; 2; 1; 1; 2; 2; 2; 1; 1] ∅ [] false)) = -1.
Proof.
  split; [vm_compute; reflexivity |].
  refine (proj2 (proj2 (computeMove_empty_cell
                          (mkTicTacToe [1; 2; 1; 1; 2; 2; 2; 1; 1] ∅ [] false) eq_refl)) _).
  reflexivity.
Defined.

(** ** Weights *)

Lemma updateWeight_in_byte (code delta : Z) (t : TicTacToe) :
  weights_in_byte (knowledge t) → weights_in_byte (knowledge (updateWeight code delta t)).
Proof.
  intros H c wgt. unfold updateWeight. cbn [knowledge].
  rewrite lookup_insert_Some. intros [[_ <-] | [_ Hc]]; [lia | apply (H _ _ Hc)].
Qed.

Lemma replay_in_byte (delta : Z) (l : list (nat * nat)) (t : TicTacToe) (temp : list Z) :
  weights_in_byte (knowledge t) →
  weights_in_byte (knowledge (fst (fold_left (replay_step delta) l (t, temp)))) ∧
  board (fst (fold_left (replay_step delta) l (t, temp))) = board t ∧
  moveHistory (fst (fold_left (replay_step delta) l (t, temp))) = moveHistory t.
Proof.
  revert t temp. induction l as [| [i move] l IH]; intros t temp H; [auto |].
  cbn [fold_left]. unfold replay_step at 2 4 6.
  destruct (Nat.odd i).
  - destruct (IH (updateWeight (encode_cells
                                  (<[move := if Nat.even i then HUMAN else COMPUTER]> temp))
                                delta t)
                (<[move := if Nat.even i then HUMAN else COMPUTER]> temp)
                (updateWeight_in_byte _ _ _ H)) as (H1 & H2 & H3).
    auto.
  - apply IH, H.
Qed.

(** X22: [updateWeight] stores the old weight (0 when there is none) plus the
    delta, clamped to -128 .. 127, sets the dirty flag and touches no other
    weight; so when all stored weights fit a signed byte they still do after
    [updateWeight] and after [updateKnowledge], which moreover leaves the
    board and the move history as they were. *)
Theorem weights_stay_in_byte (t : TicTacToe) (code delta outcome : Z) :
  (knowledge (updateWeight code delta t) !! code
   = Some (Z.max (-128) (Z.min 127 (weight_or_0 (knowledge t) code + delta))) ∧
   knowledgeDirty (updateWeight code delta t) = true ∧
   ∀ other, other ≠ code →
            knowledge (updateWeight code delta t) !! other = knowledge t !! other) ∧
  (weights_in_byte (knowledge t) →
   weights_in_byte (knowledge (updateWeight code delta t)) ∧
   weights_in_byte (knowledge (updateKnowledge outcome t)) ∧
   board (updateKnowledge outcome t) = board t ∧
   moveHistory (updateKnowledge outcome t) = moveHistory t).
Proof.
  split.
  - unfold updateWeight. cbn [knowledge knowledgeDirty].
    split; [apply lookup_insert_eq |]. split; [reflexivity |].
    intros other Hne. apply lookup_insert_ne. congruence.
  - intros H. split; [apply updateWeight_in_byte, H |].
    unfold updateKnowledge. apply replay_in_byte, H.
Qed.

Lemma weights_stay_in_byte_witness :
  knowledge (updateKnowledge COMPUTER
               (mkTicTacToe [1; 1; 0; 2; 2; 2; 1; 0; 0] {[ 6723 := 126 ]}
                  [0; 4; 1; 3; 6; 5]%nat false)) !! 6723 = Some 127 ∧
  weights_in_byte
    (knowledge (updateKnowledge COMPUTER
                  (mkTicTacToe [1; 1; 0; 2; 2; 2; 1; 0; 0] {[ 6723 := 126 ]}
                     [0; 4; 1; 3; 6; 5]%nat false))).
Proof.
  split; [vm_compute; reflexivity |].
  refine (proj1 (proj2 (proj2 (weights_stay_in_byte
            (mkTicTacToe [1; 1; 0; 2; 2; 2; 1; 0; 0] {[ 6723 := 126 ]}
               [0; 4; 1; 3; 6; 5]%nat false) 0 0 COMPUTER) _))).
  intros code wgt. cbn [knowledge]. rewrite lookup_singleton_Some. intros [_ <-]. lia.
Defined.


(** ** Resolution is compositional *)

Lemma namei_loop_app_null (fs0 : UnixFilesystem) (l1 l2 : list string) (k : Z) :
  namei_loop fs0 (Obj k) l1 = Ok Null → namei_loop fs0 (Obj k) (l1 ++ l2) = Ok Null.
Proof.
  revert k. induction l1 as [| part rest IH]; intros k; simpl; [discriminate |].
  unfold mbind, Res_bind.
  destruct (inodes fs0 !! k) as [ino |]; [| discriminate].
  destruct (isDirectory ino); simpl; [| trivial].
  destruct (_lookup fs0 (Obj k) part) as [[| | k'] | e]; simpl; try trivial.
  apply IH.
Qed.

(** X23: Resolution goes segment by segment and remembers nothing else: in
    whatever state, for an absolute path X, when X resolves to an inode the
    result for X/Y is the walk of the parts of Y from that inode, so two
    spellings X and X' of the same inode are interchangeable in front of any
    Y; and when X resolves to null, so does X/Y. *)
Theorem namei_compositional (fs0 : UnixFilesystem) (x x' y : string) (k : Z) :
  absolute x →
  (namei fs0 (PStr x) = Ok (Obj k) →
   namei fs0 (PStr (x ++ "/" ++ y)) = namei_loop fs0 (Obj k) (path_parts y) ∧
   (absolute x' → namei fs0 (PStr x') = Ok (Obj k) →
    namei fs0 (PStr (x ++ "/" ++ y)) = namei fs0 (PStr (x' ++ "/" ++ y)))) ∧
  (namei fs0 (PStr x) = Ok Null → namei fs0 (PStr (x ++ "/" ++ y)) = Ok Null).
Proof.
  intros Hx. split.
  - intros Hk. split; [apply namei_extend; assumption |].
    intros Hx' Hk'. rewrite !(namei_extend _ _ _ k) by assumption. reflexivity.
  - intros Hnull.
    rewrite namei_walk in Hnull by (apply absolute_nonempty, Hx).
    rewrite namei_walk by (destruct x; discriminate).
    rewrite path_parts_app. unfold inodes_get in *.
    destruct (inodes fs0 !! rootInum fs0).
    + apply namei_loop_app_null, Hnull.
    + destruct (path_parts x); simpl in Hnull; discriminate.
Qed.

Lemma namei_compositional_witness :
  namei (fs two_bins) (PStr "/usr/games/moo")
  = namei (fs two_bins) (PStr ("/usr/lib/../games/." ++ "/" ++ "moo")) ∧
  namei (fs two_bins) (PStr ("/nowhere" ++ "/" ++ "games/moo")) = Ok Null.
Proof.
  assert (absolute "/usr/games") as Hx by (exists "usr/games"; reflexivity).
  assert (absolute "/usr/lib/../games/.") as Hx'
    by (exists "usr/lib/../games/."; reflexivity).
  assert (absolute "/nowhere") as Hn by (exists "nowhere"; reflexivity).
  split.
  - refine (proj2 (proj1 (namei_compositional (fs two_bins) "/usr/games"
                            "/usr/lib/../games/." "moo" 7 Hx) _) Hx' _);
      vm_compute; reflexivity.
  - refine (proj2 (namei_compositional (fs two_bins) "/nowhere" "" "games/moo" 0 Hn) _).
    vm_compute. reflexivity.
Defined.

(** ** Fields that never change *)

Section InodeInvariant.

(** A property of inodes that the bootstrap establishes, that every new
    inode has and that no field assignment of the operations breaks, holds
    of every inode of every reachable state. *)
Variable Date_now : nat → Z.
Variable P : Inode → Prop.
Hypothesis P_boot : ∀ k ino, inodes (fs (boot Date_now)) !! k = Some ino → P ino.
Hypothesis P_blank : ∀ w mode, P (blank_inode Date_now w mode).
Hypothesis P_entries : ∀ es ino, P ino → P (set_i_entries es ino).
Hypothesis P_data : ∀ d ino, P ino → P (set_i_data d ino).
Hypothesis P_size : ∀ n ino, P ino → P (set_i_size n ino).
Hypothesis P_mtime : ∀ t ino, P ino → P (set_i_mtime t ino).

Lemma all_inodes_alloc (w : World) (ino : Inode) :
  (∀ k x, inodes (fs w) !! k = Some x → P x) → P ino →
  ∀ k x, inodes (fs (alloc_world w ino)) !! k = Some x → P x.
Proof.
  intros Hall Hino k x. simpl. rewrite lookup_insert_Some.
  intros [[_ <-] | [_ Hk]]; [exact Hino | apply (Hall _ _ Hk)].
Qed.

Lemma all_inodes_alter (w : World) (j : Z) (f : Inode → Inode) :
  (∀ k x, inodes (fs w) !! k = Some x → P x) → (∀ x, P x → P (f x)) →
  ∀ k x, inodes (fs (with_inodes (alter f j) w)) !! k = Some x → P x.
Proof.
  intros Hall Hf k x. simpl. rewrite lookup_alter_Some.
  intros [(_ & x0 & Hk & ->) | [_ Hk]]; [apply Hf, (Hall _ _ Hk) | apply (Hall _ _ Hk)].
Qed.

Lemma all_inodes_alloc_push (w : World) (j : Z) (p ino : Inode) (e : DirectoryEntry) :
  (∀ k x, inodes (fs w) !! k = Some x → P x) → P ino →
  ∀ k x,
    inodes (fs (snd (match i_entries p with
                     | None => (@Throw JsRef TypeError, alloc_world w ino)
                     | Some es =>
                         (Ok (Obj (nextInum (fs w))), push_world j e es (alloc_world w ino))
                     end))) !! k = Some x → P x.
Proof.
  intros Hall Hino. pose proof (all_inodes_alloc w ino Hall Hino) as Ha.
  destruct (i_entries p) as [es |]; cbn [snd]; [| exact Ha].
  apply all_inodes_alter; [exact Ha | intros x; apply P_entries].
Qed.

Lemma reach_all_inodes (W : gset Z) (w : World) :
  reach Date_now W w → ∀ k x, inodes (fs w) !! k = Some x → P x.
Proof.
  induction 1 as [| W w path content Hreach IH | W w j nm Hreach IH [p Hj]
                  | W w j nm mode Hreach IH [p Hj] Hm
                  | W w j nm content mode Hreach IH [p Hj] Hm].
  - exact P_boot.
  - rewrite write_spec.
    destruct (namei (fs w) path) as [[| | j] | e]; cbn [snd]; try exact IH.
    destruct (inodes (fs w) !! j) as [ino |]; cbn [snd]; [| exact IH].
    destruct (isDirectory ino); cbn [snd]; [exact IH |].
    change (write_world Date_now j content w) with
      (with_inodes (alter (written_inode content (Date_now (clock_reads w))) j)
         {| fs := fs w; clock_reads := S (clock_reads w) |}).
    apply all_inodes_alter; [exact IH |].
    intros x Hx. apply P_mtime, P_size, P_data, Hx.
  - assert (j ≠ nextInum (fs w)) as Hne by (eapply Inv_fresh; eauto using reach_Inv).
    rewrite (mkdir_spec _ _ _ _ p Hj Hne). cbv zeta.
    apply all_inodes_alloc_push; [exact IH | apply P_entries, P_blank].
  - assert (j ≠ nextInum (fs w)) as Hne by (eapply Inv_fresh; eauto using reach_Inv).
    rewrite (mkdev_spec _ _ _ _ _ p Hj Hne). cbv zeta.
    apply all_inodes_alloc_push; [exact IH | apply P_blank].
  - assert (j ≠ nextInum (fs w)) as Hne by (eapply Inv_fresh; eauto using reach_Inv).
    rewrite (mkfile_spec _ _ _ _ _ _ p Hj Hne). cbv zeta.
    apply all_inodes_alloc_push; [exact IH | apply P_size, P_data, P_blank].
Qed.

End InodeInvariant.

Lemma boot_meta_check (Date_now : nat → Z) :
  forallb boot_metab (map_to_list (inodes (fs (boot Date_now)))) = true.
Proof. vm_compute. reflexivity. Qed.

(** X24: In every reachable state every inode still has the link count 1 and the
    owner and group 0 that the constructor gave it: no operation counts
    links, whatever number of entries (".", ".." of children, the parent's
    entry, entries of the same name) refer to the inode. *)
Theorem metadata_constant (Date_now : nat → Z) (W : gset Z) (w : World) (k : Z)
    (ino : Inode) :
  reach Date_now W w → inodes (fs w) !! k = Some ino →
  i_nlink ino = 1 ∧ i_uid ino = 0 ∧ i_gid ino = 0.
Proof.
  intros Hreach Hk.
  assert (fresh_metab ino = true) as H.
  { assert (∀ j x, inodes (fs (boot Date_now)) !! j = Some x → fresh_metab x = true) as Hboot.
    { intros j x Hj. pose proof (boot_meta_check Date_now) as Hc.
      rewrite forallb_forall in Hc.
      apply elem_of_map_to_list, list_elem_of_In in Hj. apply (Hc _ Hj). }
    apply (reach_all_inodes Date_now (fun x => fresh_metab x = true) Hboot
             ltac:(reflexivity) ltac:(intros; assumption) ltac:(intros; assumption)
             ltac:(intros; assumption) ltac:(intros; assumption) W w Hreach k ino Hk). }
  unfold fresh_metab in H. rewrite !andb_true_iff, !Z.eqb_eq in H. tauto.
Qed.

Lemma metadata_constant_witness :
  ∃ ino, inodes (fs two_bins) !! 1 = Some ino ∧ i_nlink ino = 1 ∧
         List.length (default [] (i_entries ino)) = 8%nat.
Proof.
  assert (∃ ino, inodes (fs two_bins) !! 1 = Some ino ∧
                 List.length (default [] (i_entries ino)) = 8%nat) as (ino & Hino & Hlen)
    by (eexists; split; [vm_compute; reflexivity | vm_compute; reflexivity]).
  assert (reach tick_clock ∅ two_bins) as Hreach
    by (apply reach_mkdir; [apply reach_boot | vm_compute; eauto]).
  exists ino. split; [exact Hino |].
  split; [exact (proj1 (metadata_constant tick_clock ∅ two_bins 1 ino Hreach Hino)) | exact Hlen].
Defined.

(** ** Orphans *)

Lemma lookup_loop_found (fs0 : UnixFilesystem) (es : list DirectoryEntry) (nm : string)
    (j : Z) :
  lookup_loop fs0 es nm = Obj j → ∃ e, e ∈ es ∧ inum e = j.
Proof.
  induction es as [| x es IH]; simpl; [discriminate |].
  destruct (String.eqb (name x) nm).
  - unfold inodes_get. destruct (inodes fs0 !! inum x); [| discriminate].
    intros [= <-]. exists x. split; [left | reflexivity].
  - intros H. destruct (IH H) as (e & He & Hj). exists e. split; [right; exact He | exact Hj].
Qed.

Lemma namei_loop_below (w : World) (ino : Inode) (parts : list string) (j r : Z) :
  Tree w → j ≠ nextInum (fs w) →
  namei_loop (fs (alloc_world w ino)) (Obj j) parts = Ok (Obj r) → r ≠ nextInum (fs w).
Proof.
  intros [_ Hok]. revert j. induction parts as [| part rest IH]; intros j Hj.
  - simpl. intros [= <-]. exact Hj.
  - simpl. unfold mbind, Res_bind, _lookup, mbind, Res_bind. simpl.
    rewrite lookup_insert_ne by congruence.
    destruct (inodes (fs w) !! j) as [d |] eqn:Hd; [| discriminate].
    destruct (isDirectory d); simpl; [| discriminate].
    destruct (i_entries d) as [es |] eqn:Hes; [| discriminate].
    destruct (lookup_loop _ es part) as [| | j'] eqn:Hl; simpl; try discriminate.
    apply IH.
    destruct (lookup_loop_found _ _ _ _ Hl) as (e & He & <-).
    destruct (tree_okb_entries _ _ _ _ (Hok _ _ Hd) Hes) as (_ & _ & _ & _ & _ & Hall).
    destruct (Hall e He) as [Hrange _]. lia.
Qed.

Lemma alloc_unreachable (W : gset Z) (w : World) (ino : Inode) (path : PathArg) :
  Inv W w → Tree w →
  namei (fs (alloc_world w ino)) path ≠ Ok (Obj (nextInum (fs w))).
Proof.
  intros HI HT Hn.
  pose proof (Inv_next_above_root _ _ HI) as Hroot.
  destruct HI as (Hr & _ & _ & _).
  destruct path as [| | p]; try discriminate Hn.
  unfold namei in Hn.
  destruct (String.eqb p ""); [discriminate |].
  change (rootInum (fs (alloc_world w ino))) with (rootInum (fs w)) in Hn.
  rewrite Hr in Hn. unfold inodes_get in Hn.
  change (inodes (fs (alloc_world w ino)))
    with (<[nextInum (fs w) := ino]> (inodes (fs w))) in Hn.
  rewrite lookup_insert_ne in Hn by lia.
  destruct (inodes (fs w) !! 1) eqn:H1.
  - destruct (String.eqb p "/").
    + injection Hn as Hn. lia.
    + apply (namei_loop_below w ino _ 1 _ HT) in Hn; [congruence | lia].
  - destruct (String.eqb p "/"); [discriminate |].
    destruct (path_parts p); simpl in Hn; discriminate.
Qed.

(** X25: In every reachable state, a helper that fails under a parent that is not
    directory-kind leaves behind an orphan: right after the failed [_mkdir],
    [_mkdev] or [_mkfile] no path resolves to the inode the call allocated,
    although the inode is in the table. *)
Theorem failed_helper_orphan (Date_now : nat → Z) (W : gset Z) (w : World) (k : Z)
    (p : Inode) (nm content : string) (mode : Z) (path : PathArg) :
  reach Date_now W w → inodes (fs w) !! k = Some p → isDirectory p = false →
  (is_Some (inodes (fs (snd (_mkdir Date_now (Obj k) nm w))) !! nextInum (fs w)) ∧
   namei (fs (snd (_mkdir Date_now (Obj k) nm w))) path ≠ Ok (Obj (nextInum (fs w)))) ∧
  (is_Some (inodes (fs (snd (_mkdev Date_now (Obj k) nm mode w))) !! nextInum (fs w)) ∧
   namei (fs (snd (_mkdev Date_now (Obj k) nm mode w))) path ≠ Ok (Obj (nextInum (fs w)))) ∧
  (is_Some (inodes (fs (snd (_mkfile Date_now (Obj k) nm content mode w))) !! nextInum (fs w)) ∧
   namei (fs (snd (_mkfile Date_now (Obj k) nm content mode w))) path
   ≠ Ok (Obj (nextInum (fs w)))).
Proof.
  intros Hreach Hk Hdir.
  pose proof (reach_Inv _ _ _ Hreach) as HI. pose proof (reach_Tree _ _ _ Hreach) as HT.
  pose proof (inode_okb_not_directory _ _ _ (reach_inode_okb _ _ _ _ _ Hreach Hk) Hdir) as Hnone.
  assert (k ≠ nextInum (fs w)) as Hne by (eapply Inv_fresh; eauto).
  rewrite (mkdir_spec _ _ _ _ p Hk Hne), (mkdev_spec _ _ _ _ _ p Hk Hne),
    (mkfile_spec _ _ _ _ _ _ p Hk Hne).
  cbv zeta. rewrite Hnone. cbn [snd].
  repeat split;
    first [ apply (alloc_unreachable W); assumption
          | simpl; rewrite lookup_insert_eq; eauto ].
Qed.

Lemma failed_helper_orphan_witness :
  fst tty_mkdir = Throw TypeError ∧
  is_Some (inodes (fs (snd tty_mkdir)) !! 23) ∧
  namei (fs (snd tty_mkdir)) (PStr "/dev/tty/x") ≠ Ok (Obj 23).
Proof.
  assert (∃ p, inodes (fs (boot tick_clock)) !! 11 = Some p ∧ isDirectory p = false)
    as (p & Hp & Hnd)
    by (eexists; split; [vm_compute; reflexivity | vm_compute; reflexivity]).
  destruct (failed_helper_orphan tick_clock ∅ (boot tick_clock) 11 p "x" "" 0
              (PStr "/dev/tty/x") (reach_boot tick_clock) Hp Hnd) as ((Hin & Hnot) & _).
  split; [vm_compute; reflexivity |]. split; [exact Hin | exact Hnot].
Defined.
